(** * GPTorio: the simulation core (world model, placement, tick engine,
      snapshot normalisation), embedded from [src/lib/game.ts].

    Numbers of the source are JavaScript numbers that only ever hold
    counts and grid coordinates; they are modelled as [Z].  A run of the
    source that raises a [TypeError] (reading a field of [undefined]) is
    modelled by [None] in the [option] monad. *)

From stdpp Require Import base option list list_numbers sorting strings gmap.
From Stdlib Require Import ZArith Lia.

Local Open Scope Z_scope.

(** ** Data model *)

Inductive Direction := Up | Right | Down | Left.
Inductive TerrainType := TEmpty | TIron | TCopper.
Inductive BuildingType := Mine | Belt | Furnace | Assembler | WireMill | Hub | Chest.
Inductive ItemType := IronOre | CopperOre | IronPlate | CopperPlate | Gear | Wire.

#[global] Instance Direction_eq_dec : EqDecision Direction.
Proof. solve_decision. Defined.
#[global] Instance TerrainType_eq_dec : EqDecision TerrainType.
Proof. solve_decision. Defined.
#[global] Instance BuildingType_eq_dec : EqDecision BuildingType.
Proof. solve_decision. Defined.
#[global] Instance ItemType_eq_dec : EqDecision ItemType.
Proof. solve_decision. Defined.

Definition MINE_TICKS : Z := 4.
Definition FURNACE_TICKS : Z := 6.
Definition ASSEMBLER_TICKS : Z := 8.
Definition WIRE_MILL_TICKS : Z := 5.

(** [Record<ItemType, number>]: one count per item kind. *)
Record Buffer := mkBuffer {
  iron_ore : Z; copper_ore : Z; iron_plate : Z; copper_plate : Z;
  gear : Z; wire : Z }.

Definition bufGet (b : Buffer) (k : ItemType) : Z :=
  match k with
  | IronOre => iron_ore b | CopperOre => copper_ore b
  | IronPlate => iron_plate b | CopperPlate => copper_plate b
  | Gear => gear b | Wire => wire b
  end.

(** [buffer[k] += n] *)
Definition bufAdd (k : ItemType) (n : Z) (b : Buffer) : Buffer :=
  match k with
  | IronOre => mkBuffer (iron_ore b + n) (copper_ore b) (iron_plate b) (copper_plate b) (gear b) (wire b)
  | CopperOre => mkBuffer (iron_ore b) (copper_ore b + n) (iron_plate b) (copper_plate b) (gear b) (wire b)
  | IronPlate => mkBuffer (iron_ore b) (copper_ore b) (iron_plate b + n) (copper_plate b) (gear b) (wire b)
  | CopperPlate => mkBuffer (iron_ore b) (copper_ore b) (iron_plate b) (copper_plate b + n) (gear b) (wire b)
  | Gear => mkBuffer (iron_ore b) (copper_ore b) (iron_plate b) (copper_plate b) (gear b + n) (wire b)
  | Wire => mkBuffer (iron_ore b) (copper_ore b) (iron_plate b) (copper_plate b) (gear b) (wire b + n)
  end.

Record Building := mkBuilding {
  type : BuildingType; dir : Direction; progress : Z; buffer : Buffer }.

Record Tile := mkTile {
  terrain : TerrainType; resource : Z; building : option Building }.

Record Item := mkItem { item_type : ItemType }.

Record Stats := mkStats {
  ironMined : Z; copperMined : Z; ironPlates : Z; copperPlates : Z;
  gearsCrafted : Z; wiresCrafted : Z }.

Record GameState := mkState {
  width : Z; height : Z; tick : Z;
  tiles : list (list Tile);
  items : list (list (option Item));
  inventory : Buffer;
  stats : Stats }.

Inductive Tool := Build (t : BuildingType) | Erase.

#[global] Instance Buffer_eq_dec : EqDecision Buffer.
Proof. solve_decision. Defined.
#[global] Instance Building_eq_dec : EqDecision Building.
Proof. solve_decision. Defined.
#[global] Instance Tile_eq_dec : EqDecision Tile.
Proof. solve_decision. Defined.
#[global] Instance Item_eq_dec : EqDecision Item.
Proof. solve_decision. Defined.
#[global] Instance Stats_eq_dec : EqDecision Stats.
Proof. solve_decision. Defined.

Definition DIRECTIONS : list Direction := [Up; Right; Down; Left].

Definition createBuffer : Buffer := mkBuffer 0 0 0 0 0 0.

(** ** JavaScript arrays

    [arr[i]] is [undefined] outside the array; an assignment past the
    end extends the array, the skipped slots being holes that read as
    [undefined].  In the item grid [null], [undefined] and a hole are
    never told apart by the source ([!item], [item?.type], [== null]),
    so all three are the [None] slot here. *)

Definition jsGet {A} (l : list A) (i : Z) : option A :=
  if decide (0 ≤ i) then l !! Z.to_nat i else None.

(** [row[i] = v] on a row of the item grid.  Every such assignment of the
    source is made at a scanned coordinate or behind [inBounds], so [i]
    is never negative there; the list is left as it is in that case. *)
Definition jsSet (l : list (option Item)) (i : Z) (v : option Item)
  : list (option Item) :=
  if decide (0 ≤ i) then
    if decide (Z.to_nat i < length l)%nat then <[Z.to_nat i := v]> l
    else l ++ replicate (Z.to_nat i - length l)%nat None ++ [v]
  else l.

(** [grid[y][x]] read as a present cell: [None] when the row or the cell
    is missing.  On the tile grid the field access that follows in the
    source raises in that case. *)
Definition gridGet {A} (g : list (list A)) (x y : Z) : option A :=
  row ← jsGet g y; jsGet row x.

(** [grid[y][x]] on an item grid: [None] when the row is missing (the
    source raises), [Some None] for an empty slot. *)
Definition itemGet (g : list (list (option Item))) (x y : Z)
  : option (option Item) :=
  row ← jsGet g y; Some (default None (jsGet row x)).

(** [grid[y][x] = v] on an item grid; raises when the row is missing. *)
Definition itemSet (g : list (list (option Item))) (x y : Z) (v : option Item)
  : option (list (list (option Item))) :=
  row ← jsGet g y; Some (<[Z.to_nat y := jsSet row x v]> g).

(** A field update through the reference [next.tiles[y][x]] (or through
    [building], the reference to its [building] field): the tile was read
    before, so the cell exists whenever this runs. *)
Definition gridAlter {A} (f : A → A) (g : list (list A)) (x y : Z)
  : list (list A) :=
  if decide (0 ≤ x ∧ 0 ≤ y) then alter (alter f (Z.to_nat x)) (Z.to_nat y) g
  else g.

(** ** State accessors and updates *)

Definition tileAt (s : GameState) (x y : Z) : option Tile := gridGet (tiles s) x y.
Definition itemAt (s : GameState) (x y : Z) : option (option Item) :=
  itemGet (items s) x y.

Definition withTiles (g : list (list Tile)) (s : GameState) : GameState :=
  mkState (width s) (height s) (tick s) g (items s) (inventory s) (stats s).
Definition withItems (g : list (list (option Item))) (s : GameState) : GameState :=
  mkState (width s) (height s) (tick s) (tiles s) g (inventory s) (stats s).
Definition withInventory (b : Buffer) (s : GameState) : GameState :=
  mkState (width s) (height s) (tick s) (tiles s) (items s) b (stats s).
Definition withStats (st : Stats) (s : GameState) : GameState :=
  mkState (width s) (height s) (tick s) (tiles s) (items s) (inventory s) st.
Definition withTick (t : Z) (s : GameState) : GameState :=
  mkState (width s) (height s) t (tiles s) (items s) (inventory s) (stats s).

Definition modTile (x y : Z) (f : Tile → Tile) (s : GameState) : GameState :=
  withTiles (gridAlter f (tiles s) x y) s.

(** [next.items[y][x] = v] *)
Definition setItemAt (x y : Z) (v : option Item) (s : GameState) : option GameState :=
  g ← itemSet (items s) x y v; Some (withItems g s).

(** [next.inventory[k] += 1] *)
Definition creditInventory (k : ItemType) (s : GameState) : GameState :=
  withInventory (bufAdd k 1 (inventory s)) s.

Definition setBuilding (b : option Building) (t : Tile) : Tile :=
  mkTile (terrain t) (resource t) b.
Definition setResource (r : Z) (t : Tile) : Tile :=
  mkTile (terrain t) r (building t).
Definition setTerrain (tr : TerrainType) (t : Tile) : Tile :=
  mkTile tr (resource t) (building t).
Definition setProgress (p : Z) (b : Building) : Building :=
  mkBuilding (type b) (dir b) p (buffer b).
Definition setBuffer (bf : Buffer) (b : Building) : Building :=
  mkBuilding (type b) (dir b) (progress b) bf.

(** The object behind the reference [building] is the one stored in the
    tile: writing the updated building back after each assignment is the
    mutation through the reference. *)
Definition putBuilding (x y : Z) (b : Building) (s : GameState) : GameState :=
  modTile x y (setBuilding (Some b)) s.

Definition inBounds (s : GameState) (x y : Z) : bool :=
  (0 <=? x) && (0 <=? y) && (x <? width s) && (y <? height s).

Definition stepInDir (x y : Z) (d : Direction) : Z * Z :=
  match d with
  | Up => (x, y - 1)
  | Right => (x + 1, y)
  | Down => (x, y + 1)
  | Left => (x - 1, y)
  end.

Definition isBelt (t : BuildingType) : bool :=
  match t with Belt => true | _ => false end.

(** [b && b.type !== "belt"] *)
Definition isNonBelt (ob : option Building) : bool :=
  match ob with Some b => negb (isBelt (type b)) | None => false end.

Definition canPlaceItem (s : GameState) (x y : Z) : option bool :=
  if negb (inBounds s x y) then Some false
  else
    t ← tileAt s x y;
    if isNonBelt (building t) then Some false
    else it ← itemAt s x y; Some (bool_decide (it = None)).

(** The three neighbour searches of the source differ only in the test on
    the item found; [findNeighborWith] is their common loop over
    [DIRECTIONS]. *)
Fixpoint findNeighborWith (p : Item → bool) (s : GameState) (x y : Z)
    (dirs : list Direction) : option (option (Z * Z)) :=
  match dirs with
  | [] => Some None
  | d :: ds =>
      let '(nx, ny) := stepInDir x y d in
      if negb (inBounds s nx ny) then findNeighborWith p s x y ds
      else
        it ← itemAt s nx ny;
        match it with
        | Some i => if p i then Some (Some (nx, ny)) else findNeighborWith p s x y ds
        | None => findNeighborWith p s x y ds
        end
  end.

Definition findNeighborItem (s : GameState) (x y : Z) (ty : ItemType) :=
  findNeighborWith (λ i, bool_decide (item_type i = ty)) s x y DIRECTIONS.
Definition findNeighborItemByTypes (s : GameState) (x y : Z) (tys : list ItemType) :=
  findNeighborWith (λ i, bool_decide (item_type i ∈ tys)) s x y DIRECTIONS.
Definition findNeighborItemAny (s : GameState) (x y : Z) :=
  findNeighborWith (λ _, true) s x y DIRECTIONS.

(** ** Build costs and placement *)

(** [BUILD_COSTS]: the listed keys of each cost record, in source order. *)
Definition BUILD_COSTS (t : BuildingType) : list (ItemType * Z) :=
  match t with
  | Belt => [(IronPlate, 1)]
  | Mine => [(IronPlate, 4); (Gear, 2)]
  | Furnace => [(IronPlate, 3); (CopperPlate, 2)]
  | Assembler => [(IronPlate, 4); (Gear, 4)]
  | WireMill => [(IronPlate, 2); (CopperPlate, 3)]
  | Hub => [(IronPlate, 6); (CopperPlate, 4); (Gear, 2)]
  | Chest => [(IronPlate, 2)]
  end.

(** The loop returns [false] at the first key whose stock is short. *)
Fixpoint affordAll (inv : Buffer) (cost : list (ItemType * Z)) : bool :=
  match cost with
  | [] => true
  | (item, needed) :: rest =>
      if bufGet inv item <? needed then false else affordAll inv rest
  end.

Definition canAffordBuild (s : GameState) (t : BuildingType) : bool :=
  affordAll (inventory s) (BUILD_COSTS t).

Fixpoint spendAll (inv : Buffer) (cost : list (ItemType * Z)) : Buffer :=
  match cost with
  | [] => inv
  | (item, needed) :: rest => spendAll (bufAdd item (- needed) inv) rest
  end.

Definition spendBuildCost (s : GameState) (t : BuildingType) : GameState :=
  withInventory (spendAll (inventory s) (BUILD_COSTS t)) s.

Definition cloneItemGrid (g : list (list (option Item))) : list (list (option Item)) :=
  map (λ row, map (λ item : option Item,
        match item with Some i => Some (mkItem (item_type i)) | None => None end) row) g.

Definition cloneState (s : GameState) : GameState :=
  mkState (width s) (height s) (tick s)
    (map (λ row, map (λ t : Tile,
        mkTile (terrain t) (resource t)
          match building t with
          | Some b => Some (mkBuilding (type b) (dir b) (progress b)
                              (mkBuffer (iron_ore (buffer b)) (copper_ore (buffer b))
                                 (iron_plate (buffer b)) (copper_plate (buffer b))
                                 (gear (buffer b)) (wire (buffer b))))
          | None => None
          end) row) (tiles s))
    (cloneItemGrid (items s))
    (mkBuffer (iron_ore (inventory s)) (copper_ore (inventory s))
       (iron_plate (inventory s)) (copper_plate (inventory s))
       (gear (inventory s)) (wire (inventory s)))
    (mkStats (ironMined (stats s)) (copperMined (stats s)) (ironPlates (stats s))
       (copperPlates (stats s)) (gearsCrafted (stats s)) (wiresCrafted (stats s))).

(** [placeBuilding]: [None] is the [TypeError] of [next.tiles[y][x]] on a
    grid smaller than [width] x [height]. *)
Definition placeBuilding (s : GameState) (x y : Z) (tool : Tool) (d : Direction)
  : option GameState :=
  if (x <? 0) || (y <? 0) || (width s <=? x) || (height s <=? y) then Some s
  else
    let next := cloneState s in
    match tool with
    | Erase =>
        _ ← tileAt next x y;
        Some (modTile x y (setBuilding None) next)
    | Build t =>
        if negb (canAffordBuild next t) then Some s
        else
          let next := spendBuildCost next t in
          _ ← tileAt next x y;
          let next := modTile x y (setBuilding (Some (mkBuilding t d 0 createBuffer))) next in
          if negb (isBelt t) then setItemAt x y None next else Some next
    end.

(** ** Tick engine, phase A: mines and processors *)

Definition bumpIronMined (st : Stats) : Stats :=
  mkStats (ironMined st + 1) (copperMined st) (ironPlates st) (copperPlates st)
    (gearsCrafted st) (wiresCrafted st).
Definition bumpCopperMined (st : Stats) : Stats :=
  mkStats (ironMined st) (copperMined st + 1) (ironPlates st) (copperPlates st)
    (gearsCrafted st) (wiresCrafted st).
Definition bumpIronPlates (st : Stats) : Stats :=
  mkStats (ironMined st) (copperMined st) (ironPlates st + 1) (copperPlates st)
    (gearsCrafted st) (wiresCrafted st).
Definition bumpCopperPlates (st : Stats) : Stats :=
  mkStats (ironMined st) (copperMined st) (ironPlates st) (copperPlates st + 1)
    (gearsCrafted st) (wiresCrafted st).
Definition bumpGearsCrafted (st : Stats) : Stats :=
  mkStats (ironMined st) (copperMined st) (ironPlates st) (copperPlates st)
    (gearsCrafted st + 1) (wiresCrafted st).
Definition bumpWiresCrafted (st : Stats) : Stats :=
  mkStats (ironMined st) (copperMined st) (ironPlates st) (copperPlates st)
    (gearsCrafted st) (wiresCrafted st + 1).

Definition modStats (f : Stats → Stats) (s : GameState) : GameState :=
  withStats (f (stats s)) s.

(** The [mine] block, entered with [t] the tile at (x,y) and [b] its
    building. *)
Definition mineTick (x y : Z) (t : Tile) (b : Building) (s : GameState)
  : option GameState :=
  if decide (terrain t = TEmpty) then Some s
  else if resource t <=? 0 then Some s
  else
    let b := setProgress (progress b + 1) b in
    let s := putBuilding x y b s in
    if MINE_TICKS <=? progress b then
      let '(nx, ny) := stepInDir x y (dir b) in
      ok ← canPlaceItem s nx ny;
      if ok : bool then
        let oreType := if decide (terrain t = TIron) then IronOre else CopperOre in
        s ← setItemAt nx ny (Some (mkItem oreType)) s;
        let b := setProgress 0 b in
        let s := putBuilding x y b s in
        let s := modTile x y (setResource (resource t - 1)) s in
        let s := if resource t - 1 <=? 0
                 then modTile x y (setTerrain TEmpty) (modTile x y (setResource 0) s)
                 else s in
        if decide (terrain t = TIron) then Some (modStats bumpIronMined s)
        else Some (modStats bumpCopperMined s)
      else Some s
    else Some s.

(** The [furnace] block: its first [if] pulls an ore from a neighbour
    tile, the rest smelts.  [b] is the building as the reference
    [building] shows it on entry. *)
Definition furnaceIntake (x y : Z) (b : Building) (s : GameState)
  : option (Building * GameState) :=
  if (bufGet (buffer b) IronOre =? 0) && (bufGet (buffer b) CopperOre =? 0) then
    nb ← findNeighborItemByTypes s x y [IronOre; CopperOre];
    match nb with
    | Some (nx, ny) =>
        it ← itemAt s nx ny;
        match it with
        | Some i =>
            s ← setItemAt nx ny None s;
            let b := setBuffer (bufAdd (item_type i) 1 (buffer b)) b in
            let b := setProgress 0 b in
            Some (b, putBuilding x y b s)
        | None => Some (b, s)
        end
    | None => Some (b, s)
    end
  else Some (b, s).

Definition furnaceOutput (x y : Z) (b : Building) (s : GameState)
  : option GameState :=
  let oreType :=
    if 0 <? bufGet (buffer b) IronOre then Some IronOre
    else if 0 <? bufGet (buffer b) CopperOre then Some CopperOre
    else None in
  match oreType with
  | None => Some s
  | Some ore =>
      let b := setProgress (progress b + 1) b in
      let s := putBuilding x y b s in
      if FURNACE_TICKS <=? progress b then
        let '(nx, ny) := stepInDir x y (dir b) in
        ok ← canPlaceItem s nx ny;
        if ok : bool then
          let plateType := if decide (ore = IronOre) then IronPlate else CopperPlate in
          s ← setItemAt nx ny (Some (mkItem plateType)) s;
          let b := setBuffer (bufAdd ore (-1) (buffer b)) b in
          let b := setProgress 0 b in
          let s := putBuilding x y b s in
          if decide (plateType = IronPlate) then Some (modStats bumpIronPlates s)
          else Some (modStats bumpCopperPlates s)
        else Some s
      else Some s
  end.

Definition furnaceTick (x y : Z) (b : Building) (s : GameState)
  : option GameState :=
  '(b, s) ← furnaceIntake x y b s; furnaceOutput x y b s.

(** The [assembler] block, in the same two halves. *)
Definition assemblerIntake (x y : Z) (b : Building) (s : GameState)
  : option (Building * GameState) :=
  if bufGet (buffer b) IronPlate <? 2 then
    nb ← findNeighborItem s x y IronPlate;
    match nb with
    | Some (nx, ny) =>
        s ← setItemAt nx ny None s;
        let b := setBuffer (bufAdd IronPlate 1 (buffer b)) b in
        let b := setProgress 0 b in
        Some (b, putBuilding x y b s)
    | None => Some (b, s)
    end
  else Some (b, s).

Definition assemblerOutput (x y : Z) (b : Building) (s : GameState)
  : option GameState :=
  if 2 <=? bufGet (buffer b) IronPlate then
    let b := setProgress (progress b + 1) b in
    let s := putBuilding x y b s in
    if ASSEMBLER_TICKS <=? progress b then
      let '(nx, ny) := stepInDir x y (dir b) in
      ok ← canPlaceItem s nx ny;
      if ok : bool then
        s ← setItemAt nx ny (Some (mkItem Gear)) s;
        let b := setBuffer (bufAdd IronPlate (-2) (buffer b)) b in
        let b := setProgress 0 b in
        let s := putBuilding x y b s in
        Some (modStats bumpGearsCrafted s)
      else Some s
    else Some s
  else Some s.

Definition assemblerTick (x y : Z) (b : Building) (s : GameState)
  : option GameState :=
  '(b, s) ← assemblerIntake x y b s; assemblerOutput x y b s.

(** The [wire-mill] block, in the same two halves. *)
Definition wireMillIntake (x y : Z) (b : Building) (s : GameState)
  : option (Building * GameState) :=
  if bufGet (buffer b) CopperPlate <? 1 then
    nb ← findNeighborItem s x y CopperPlate;
    match nb with
    | Some (nx, ny) =>
        s ← setItemAt nx ny None s;
        let b := setBuffer (bufAdd CopperPlate 1 (buffer b)) b in
        let b := setProgress 0 b in
        Some (b, putBuilding x y b s)
    | None => Some (b, s)
    end
  else Some (b, s).

Definition wireMillOutput (x y : Z) (b : Building) (s : GameState)
  : option GameState :=
  if 1 <=? bufGet (buffer b) CopperPlate then
    let b := setProgress (progress b + 1) b in
    let s := putBuilding x y b s in
    if WIRE_MILL_TICKS <=? progress b then
      let '(nx, ny) := stepInDir x y (dir b) in
      ok ← canPlaceItem s nx ny;
      if ok : bool then
        s ← setItemAt nx ny (Some (mkItem Wire)) s;
        let b := setBuffer (bufAdd CopperPlate (-1) (buffer b)) b in
        let b := setProgress 0 b in
        let s := putBuilding x y b s in
        Some (modStats bumpWiresCrafted s)
      else Some s
    else Some s
  else Some s.

Definition wireMillTick (x y : Z) (b : Building) (s : GameState)
  : option GameState :=
  '(b, s) ← wireMillIntake x y b s; wireMillOutput x y b s.

(** The [hub] block. *)
Definition hubTick (x y : Z) (s : GameState) : option GameState :=
  nb ← findNeighborItemAny s x y;
  match nb with
  | Some (nx, ny) =>
      it ← itemAt s nx ny;
      match it with
      | Some i =>
          s ← setItemAt nx ny None s;
          Some (creditInventory (item_type i) s)
      | None => Some s
      end
  | None => Some s
  end.

(** Body of the first double loop at (x,y).  The source tests
    [building.type] in five successive [if]s; the type of a building is
    never assigned, so at most one of them runs. *)
Definition produceAt (x y : Z) (s : GameState) : option GameState :=
  t ← tileAt s x y;
  match building t with
  | None => Some s
  | Some b =>
      match type b with
      | Mine => mineTick x y t b s
      | Furnace => furnaceTick x y b s
      | Assembler => assemblerTick x y b s
      | WireMill => wireMillTick x y b s
      | Hub => hubTick x y s
      | Belt | Chest => Some s
      end
  end.

(** ** Tick engine, phase B: belts *)

(** State of the second double loop: [next] (its tiles and inventory are
    still assigned to) and the grid [moved]. *)
Definition BeltState : Type := GameState * list (list (option Item)).

(** [moved[y][x] = null] *)
Definition clearMoved (x y : Z) (st : BeltState) : option BeltState :=
  m ← itemSet st.2 x y None; Some (st.1, m).

(** Acceptance of [item] by the processor [db] standing on (nx,ny). *)
Definition feedBuilding (nx ny : Z) (db : Building) (k : ItemType)
    (s : GameState) : GameState :=
  let db := setBuffer (bufAdd k 1 (buffer db)) db in
  let db := setProgress 0 db in
  putBuilding nx ny db s.

Definition moveAt (x y : Z) (st : BeltState) : option BeltState :=
  let '(s, moved) := st in
  oi ← itemAt s x y;
  match oi with
  | None => Some st
  | Some item =>
      t ← tileAt s x y;
      match building t with
      | None => Some st
      | Some b =>
          if negb (isBelt (type b)) then Some st
          else
            let '(nx, ny) := stepInDir x y (dir b) in
            if negb (inBounds s nx ny) then Some st
            else
              dt ← tileAt s nx ny;
              if isNonBelt (building dt) then
                match building dt with
                | None => Some st
                | Some db =>
                    match type db with
                    | Chest | Hub =>
                        clearMoved x y (creditInventory (item_type item) s, moved)
                    | Furnace =>
                        if (bool_decide (item_type item = IronOre)
                            || bool_decide (item_type item = CopperOre))
                           && (bufGet (buffer db) IronOre =? 0)
                           && (bufGet (buffer db) CopperOre =? 0)
                        then clearMoved x y (feedBuilding nx ny db (item_type item) s, moved)
                        else Some st
                    | Assembler =>
                        if bool_decide (item_type item = IronPlate)
                           && (bufGet (buffer db) IronPlate <? 2)
                        then clearMoved x y (feedBuilding nx ny db IronPlate s, moved)
                        else Some st
                    | WireMill =>
                        if bool_decide (item_type item = CopperPlate)
                           && (bufGet (buffer db) CopperPlate <? 1)
                        then clearMoved x y (feedBuilding nx ny db CopperPlate s, moved)
                        else Some st
                    | Mine | Belt => Some st
                    end
                end
              else
                m ← itemGet moved nx ny;
                match m with
                | None =>
                    moved ← itemSet moved nx ny (Some item);
                    clearMoved x y (s, moved)
                | Some _ => Some st
                end
      end
  end.

(** ** The two scans and [stepGame] *)

(** [for (let i = 0; i < n; i += 1) body], over the list of the values
    [i] takes. *)
Fixpoint forEach {I S : Type} (body : I → S → option S) (l : list I) (s : S)
  : option S :=
  match l with
  | [] => Some s
  | i :: l => s' ← body i s; forEach body l s'
  end.

Definition scanGrid {S : Type} (w h : Z) (body : Z → Z → S → option S) (s : S)
  : option S :=
  forEach (λ y, forEach (λ x, body x y) (seqZ 0 w)) (seqZ 0 h) s.

Definition production (s : GameState) : option GameState :=
  scanGrid (width s) (height s) produceAt s.

Definition transport (s : GameState) : option BeltState :=
  scanGrid (width s) (height s) moveAt (s, cloneItemGrid (items s)).

Definition stepGame (state : GameState) : option GameState :=
  let next := cloneState state in
  let next := withTick (tick next + 1) next in
  next ← production next;
  '(next, moved) ← transport next;
  Some (withItems moved next).

(** ** Snapshot normaliser

    A stored snapshot is untyped: tags are strings, and every field the
    source reads behind [??] or [?.], or copies as it finds it ([width],
    [height]), may be absent ([None] stands for both [undefined] and
    [null]).  Count records ([buffer], [inventory], [stats]) are objects
    read by key.  The arrays [tiles] and [items] and the tags themselves
    are read unguarded by the source and are taken as present. *)
Module Raw.
Local Open Scope string_scope.

Record Building := mkBuilding {
  type : string; dir : string; progress : option Z;
  buffer : option (gmap string Z) }.

Record Tile := mkTile {
  terrain : string; resource : option Z; building : option Building }.

Record Item := mkItem { item_type : string }.

Record GameState := mkState {
  width : option Z; height : option Z; tick : option Z;
  tiles : list (list Tile);
  items : list (list (option Item));
  inventory : option (gmap string Z);
  stats : option (gmap string Z) }.

(** [a ?? b] *)
Definition nullish {A} (a : option A) (b : A) : A := default b a.

Definition normalizeTerrain (terrain : string) : string :=
  if decide (terrain = "ore") then "iron" else terrain.

Definition normalizeBuilding (type : string) : string := type.

Definition normalizeItemType (type : string) : option string :=
  if decide (type = "ore") then Some "iron-ore"
  else if decide (type = "plate") then Some "iron-plate"
  else if decide (type = "gear") then Some "gear"
  else if decide (type ∈ ["iron-ore"; "copper-ore"; "iron-plate";
                          "copper-plate"; "wire"])
  then Some type
  else None.

Definition createBuffer : gmap string Z :=
  <["iron-ore" := 0]> (<["copper-ore" := 0]> (<["iron-plate" := 0]>
    (<["copper-plate" := 0]> (<["gear" := 0]> (<["wire" := 0]> ∅))))).

(** [next[k] += v], on a key that [next] has. *)
Definition addTo (k : string) (v : Z) (next : gmap string Z) : gmap string Z :=
  <[k := nullish (next !! k) 0 + v]> next.

Definition normalizeBuffer (buffer : gmap string Z) : gmap string Z :=
  let next := createBuffer in
  let next := addTo "iron-ore"
                (nullish (buffer !! "iron-ore") (nullish (buffer !! "ore") 0)) next in
  let next := addTo "copper-ore" (nullish (buffer !! "copper-ore") 0) next in
  let next := addTo "iron-plate"
                (nullish (buffer !! "iron-plate") (nullish (buffer !! "plate") 0)) next in
  let next := addTo "copper-plate" (nullish (buffer !! "copper-plate") 0) next in
  let next := addTo "gear" (nullish (buffer !! "gear") 0) next in
  let next := addTo "wire" (nullish (buffer !! "wire") 0) next in
  next.

Definition normalizeInventory (seed : gmap string Z) : gmap string Z :=
  normalizeBuffer seed.

Definition normalizeTile (tile : Tile) : Tile :=
  mkTile (normalizeTerrain (terrain tile))
    (Some (nullish (resource tile)
             (if decide (terrain tile = "empty") then 0 else 40)))
    match building tile with
    | Some b =>
        Some (mkBuilding (normalizeBuilding (type b)) (dir b)
                (Some (nullish (progress b) 0))
                (Some (normalizeBuffer (nullish (buffer b) createBuffer))))
    | None => None
    end.

Definition normalizeItem (item : option Item) : option Item :=
  match item with
  | None => None
  | Some i =>
      match normalizeItemType (item_type i) with
      | Some type => Some (mkItem type)
      | None => None
      end
  end.

(** [stats?.k] *)
Definition statOf (stats : option (gmap string Z)) (k : string) : option Z :=
  stats ≫= (.!! k).

Definition normalizeStats (stats : option (gmap string Z)) : gmap string Z :=
  <["ironMined" := nullish (statOf stats "ironMined")
                     (nullish (statOf stats "oreMined") 0)]>
  (<["copperMined" := nullish (statOf stats "copperMined") 0]>
  (<["ironPlates" := nullish (statOf stats "ironPlates")
                       (nullish (statOf stats "platesSmelted") 0)]>
  (<["copperPlates" := nullish (statOf stats "copperPlates") 0]>
  (<["gearsCrafted" := nullish (statOf stats "gearsCrafted") 0]>
  (<["wiresCrafted" := nullish (statOf stats "wiresCrafted") 0]> ∅))))).

Definition normalizeState (state : GameState) : GameState :=
  mkState (width state) (height state)
    (Some (nullish (tick state) 0))
    (map (λ row, map normalizeTile row) (tiles state))
    (map (λ row, map normalizeItem row) (items state))
    (Some (normalizeInventory (nullish (inventory state) ∅)))
    (Some (normalizeStats (stats state))).
End Raw.

(** ** Well-formed worlds and the item count *)

(** Both grids are [height] rows of [width] cells. *)
Definition gridDims {A} (w h : Z) (g : list (list A)) : Prop :=
  length g = Z.to_nat h ∧ Forall (λ row, length row = Z.to_nat w) g.

Definition wf (s : GameState) : Prop :=
  gridDims (width s) (height s) (tiles s) ∧
  gridDims (width s) (height s) (items s).

#[global] Instance gridDims_dec {A} w h (g : list (list A)) : Decision (gridDims w h g).
Proof. unfold gridDims. apply _. Defined.
#[global] Instance wf_dec s : Decision (wf s).
Proof. unfold wf. apply _. Defined.

Fixpoint sumWith {A} (f : A → Z) (l : list A) : Z :=
  match l with
  | [] => 0
  | a :: l => f a + sumWith f l
  end.

Definition gridSum {A} (f : A → Z) (g : list (list A)) : Z :=
  sumWith (sumWith f) g.

Definition bufTotal (b : Buffer) : Z :=
  iron_ore b + copper_ore b + iron_plate b + copper_plate b + gear b + wire b.

Definition itemCount (o : option Item) : Z :=
  match o with Some _ => 1 | None => 0 end.

Definition tileCount (t : Tile) : Z :=
  match building t with Some b => bufTotal (buffer b) | None => 0 end.

(** Ground items + building buffers + inventory. *)
Definition totalItems (s : GameState) : Z :=
  gridSum itemCount (items s) + gridSum tileCount (tiles s) + bufTotal (inventory s).

(** Ores mined so far, less gears crafted so far. *)
Definition netProduced (st : Stats) : Z :=
  ironMined st + copperMined st - gearsCrafted st.

(** [n] successive ticks. *)
Fixpoint stepN (n : nat) (s : GameState) : option GameState :=
  match n with
  | O => Some s
  | S n => s' ← stepGame s; stepN n s'
  end.

(** A world of empty tiles with the starter inventory: what
    [createInitialState] builds before it seeds the ore patches. *)
Definition blankState (w h : Z) : GameState :=
  mkState w h 0
    (replicate (Z.to_nat h) (replicate (Z.to_nat w) (mkTile TEmpty 0 None)))
    (replicate (Z.to_nat h) (replicate (Z.to_nat w) None))
    (mkBuffer 0 0 16 8 4 0) (mkStats 0 0 0 0 0 0).

(** The coordinates in the order the two nested loops visit them. *)
Definition coords (w h : Z) : list (Z * Z) :=
  y ← seqZ 0 h; (λ x, (x, y)) <$> seqZ 0 w.

(** (x1,y1) is scanned before (x2,y2). *)
Definition rowMajorLt (p q : Z * Z) : Prop :=
  p.2 < q.2 ∨ (p.2 = q.2 ∧ p.1 < q.1).

(** Assignment of a whole cell of the item grid, total on a grid that
    has the cell. *)
Definition putItem (x y : Z) (v : option Item) (s : GameState) : GameState :=
  withItems (gridAlter (λ _, v) (items s) x y) s.

(** The relation every loop body of [stepGame] maintains between the
    world it starts from and the world it leaves. *)
Record keeps (s s' : GameState) : Prop := mkKeeps {
  keeps_wf : wf s';
  keeps_width : width s' = width s;
  keeps_height : height s' = height s;
  keeps_tick : tick s' = tick s;
  keeps_balance :
    totalItems s' - netProduced (stats s') = totalItems s - netProduced (stats s);
  keeps_inventory : ∀ k, bufGet (inventory s) k ≤ bufGet (inventory s') k
}.

(** A processor's two halves: the building [b] passed between them is
    the one stored at (x,y). *)
Definition holds (x y : Z) (b : Building) (s : GameState) : Prop :=
  ∃ t, tileAt s x y = Some t ∧ building t = Some b.

(** Phase B assigns to the buffer and progress of furnaces, assemblers
    and wire mills only. *)
Definition isProcessor (t : BuildingType) : bool :=
  match t with Furnace | Assembler | WireMill => true | _ => false end.

Definition fedOnly (t t' : Tile) : Prop :=
  terrain t' = terrain t ∧ resource t' = resource t ∧
  match building t, building t' with
  | None, None => True
  | Some b, Some b' =>
      type b' = type b ∧ dir b' = dir b ∧ (isProcessor (type b) = false → b' = b)
  | _, _ => False
  end.

(** What the second loop may change in [next]. *)
Record fed (s s' : GameState) : Prop := mkFed {
  fed_wf : wf s';
  fed_width : width s' = width s;
  fed_height : height s' = height s;
  fed_tick : tick s' = tick s;
  fed_items : items s' = items s;
  fed_stats : stats s' = stats s;
  fed_inventory : ∀ k, bufGet (inventory s) k ≤ bufGet (inventory s') k;
  fed_tiles : ∀ x y t, tileAt s x y = Some t →
                ∃ t', tileAt s' x y = Some t' ∧ fedOnly t t'
}.

(** The belt at (x,y) holds [it] and points at the in-bounds tile
    (nx,ny), whose tile is [dt]. *)
Definition beltFeeds (s : GameState) (x y : Z) (it : Item) (nx ny : Z) (dt : Tile)
  : Prop :=
  gridGet (items s) x y = Some (Some it) ∧
  (∃ t b, tileAt s x y = Some t ∧ building t = Some b ∧ type b = Belt ∧
          stepInDir x y (dir b) = (nx, ny)) ∧
  inBounds s nx ny = true ∧ tileAt s nx ny = Some dt.

(** The three outcomes of one body of the second loop. *)
Inductive moveCase (x y : Z) (s : GameState) (m : list (list (option Item)))
  : BeltState → Prop :=
  | move_stay :
      (∀ it nx ny dt, beltFeeds s x y it nx ny dt →
         isNonBelt (building dt) = false → ∃ o, gridGet m nx ny = Some (Some o)) →
      moveCase x y s m (s, m)
  | move_deliver it nx ny dt s' :
      beltFeeds s x y it nx ny dt → isNonBelt (building dt) = true →
      fed s s' →
      gridSum tileCount (tiles s') + bufTotal (inventory s') =
        gridSum tileCount (tiles s) + bufTotal (inventory s) + 1 →
      moveCase x y s m (s', gridAlter (λ _, None) m x y)
  | move_advance it nx ny dt :
      beltFeeds s x y it nx ny dt → isNonBelt (building dt) = false →
      gridGet m nx ny = Some None →
      moveCase x y s m
        (s, gridAlter (λ _, None) (gridAlter (λ _, Some it) m nx ny) x y).

(** The invariant of the second loop, entered from [s0], once the cells
    of [pre] are scanned: an item not yet scanned is still where the
    snapshot has it, and the count over [moved], the buffers and the
    inventory is the one of [s0]. *)
Record beltInv (s0 : GameState) (pre : list (Z * Z)) (st : BeltState) : Prop :=
  mkBeltInv {
  bi_fed : fed s0 st.1;
  bi_dims : gridDims (width s0) (height s0) st.2;
  bi_pending : ∀ x y it, (x, y) ∉ pre →
      gridGet (items s0) x y = Some (Some it) → gridGet st.2 x y = Some (Some it);
  bi_count :
    gridSum itemCount st.2 + gridSum tileCount (tiles st.1) +
      bufTotal (inventory st.1) = totalItems s0
}.

(** The belt at (x,y) carries [it] towards (nx,ny), a tile in bounds
    that holds no building or a belt. *)
Definition feeder (s : GameState) (x y : Z) (it : Item) (nx ny : Z) : Prop :=
  ∃ dt, beltFeeds s x y it nx ny dt ∧ isNonBelt (building dt) = false.


(** Phase A at (x,y) assigns to no tile but the one at (x,y), and there
    it leaves the building's type and direction as they are. *)
Definition sameKind (t t' : Tile) : Prop :=
  type <$> building t' = type <$> building t ∧
  dir <$> building t' = dir <$> building t.

Definition frame (x y : Z) (s s' : GameState) : Prop :=
  (∀ x0 y0, (x0, y0) ≠ (x, y) → tileAt s' x0 y0 = tileAt s x0 y0) ∧
  (∀ t, tileAt s x y = Some t → ∃ t', tileAt s' x y = Some t' ∧ sameKind t t').

Definition cellStep (x y : Z) (s s' : GameState) : Prop :=
  keeps s s' ∧ frame x y s s'.

(** The cells of [l] visited before the first visit of [q]. *)
Fixpoint before (q : Z * Z) (l : list (Z * Z)) : list (Z * Z) :=
  match l with
  | [] => []
  | p :: l => if decide (p = q) then [] else p :: before q l
  end.

(** The world [next] of [stepGame w] as its first loop arrives at (x,y). *)
Definition stateAt (w : GameState) (x y : Z) : option GameState :=
  forEach (λ p, produceAt p.1 p.2)
    (before (x, y) (coords (width w) (height w)))
    (withTick (tick (cloneState w) + 1) (cloneState w)).

(** What [BUILD_COSTS t] asks of item [k]. *)
Definition costOf (t : BuildingType) (k : ItemType) : Z :=
  sumWith (λ c : ItemType * Z, if decide (c.1 = k) then c.2 else 0) (BUILD_COSTS t).

(** ** Worlds used as examples *)

Definition belt (d : Direction) : Building := mkBuilding Belt d 0 createBuffer.

(** An assembler about to finish a gear, facing a free tile. *)
Definition assemblerWorld : GameState :=
  modTile 0 0
    (setBuilding (Some (mkBuilding Assembler Right 7 (mkBuffer 0 0 2 0 0 0))))
    (blankState 2 1).

(** Belts at (1,0) and (1,2) both point at the belt (1,1), which carries
    a gear towards the free tile (2,1). *)
Definition crossWorld : GameState :=
  putItem 1 0 (Some (mkItem IronOre))
    (putItem 1 2 (Some (mkItem CopperOre))
       (putItem 1 1 (Some (mkItem Gear))
          (putBuilding 1 0 (belt Down)
             (putBuilding 1 2 (belt Up)
                (putBuilding 1 1 (belt Right) (blankState 3 3)))))).

(** Belts at (0,0) and (2,0) both point at the free tile (1,0). *)
Definition jamWorld : GameState :=
  putItem 0 0 (Some (mkItem IronOre))
    (putItem 2 0 (Some (mkItem CopperOre))
       (putBuilding 0 0 (belt Right)
          (putBuilding 2 0 (belt Left) (blankState 3 1)))).

(** The empty 3 x 3 world with one unit of iron ore under (1,1). *)
Definition ironWorld : GameState :=
  modTile 1 1 (λ t, mkTile TIron 1 (building t)) (blankState 3 3).

(** A mine at full progress that faces the upper edge of the grid. *)
Definition stalledWorld : GameState :=
  modTile 0 0 (λ _, mkTile TIron 5 (Some (mkBuilding Mine Up 4 createBuffer)))
    (blankState 2 2).

(** A mine at full progress whose target (1,0) holds an item. *)
Definition blockedWorld : GameState :=
  putItem 1 0 (Some (mkItem Gear))
    (modTile 0 0 (λ _, mkTile TCopper 5 (Some (mkBuilding Mine Right 6 createBuffer)))
       (blankState 2 2)).

(** A world with nothing in stock. *)
Definition brokeWorld : GameState :=
  withInventory createBuffer (blankState 3 3).

(** The belt at (0,0) carries an iron ore into the furnace at (1,0). *)
Definition furnaceWorld : GameState :=
  putItem 0 0 (Some (mkItem IronOre))
    (putBuilding 0 0 (belt Right)
       (putBuilding 1 0 (mkBuilding Furnace Right 3 createBuffer) (blankState 3 1))).

(** ** Sound worlds

    What the generator establishes and every tick and every placement
    keeps: no count is negative, a processor holds no more input than
    its intake tests let in, and a tile is empty ground exactly when it
    has no resource left. *)
Definition bufNonneg (b : Buffer) : Prop :=
  0 ≤ iron_ore b ∧ 0 ≤ copper_ore b ∧ 0 ≤ iron_plate b ∧
  0 ≤ copper_plate b ∧ 0 ≤ gear b ∧ 0 ≤ wire b.

(** The intake tests of both loops: a furnace takes an ore when it holds
    none, an assembler a plate below two, a wire mill a plate below
    one. *)
Definition withinCapacity (b : Building) : Prop :=
  match type b with
  | Furnace => iron_ore (buffer b) + copper_ore (buffer b) ≤ 1
  | Assembler => iron_plate (buffer b) ≤ 2
  | WireMill => copper_plate (buffer b) ≤ 1
  | _ => True
  end.

Definition buildingOk (b : Building) : Prop :=
  0 ≤ progress b ∧ bufNonneg (buffer b) ∧ withinCapacity b.

Definition tileOk (t : Tile) : Prop :=
  0 ≤ resource t ∧ (terrain t = TEmpty ↔ resource t = 0) ∧
  match building t with Some b => buildingOk b | None => True end.

Definition statsLe (a b : Stats) : Prop :=
  ironMined a ≤ ironMined b ∧ copperMined a ≤ copperMined b ∧
  ironPlates a ≤ ironPlates b ∧ copperPlates a ≤ copperPlates b ∧
  gearsCrafted a ≤ gearsCrafted b ∧ wiresCrafted a ≤ wiresCrafted b.

Definition statsNonneg (a : Stats) : Prop := statsLe (mkStats 0 0 0 0 0 0) a.

Definition valid (s : GameState) : Prop :=
  wf s ∧ 0 ≤ tick s ∧
  (∀ x y t, tileAt s x y = Some t → tileOk t) ∧
  bufNonneg (inventory s) ∧ statsNonneg (stats s).

Definition isMine (ob : option Building) : bool :=
  match ob with Some b => bool_decide (type b = Mine) | None => false end.

(** What a tick may do to one tile: the building stays of its type and
    direction, the resource does not rise, the terrain changes only to
    empty, and only under a mine. *)
Definition tileStep (t t' : Tile) : Prop :=
  sameKind t t' ∧
  resource t' ≤ resource t ∧
  (terrain t' = terrain t ∨ terrain t' = TEmpty) ∧
  (isMine (building t) = false → terrain t' = terrain t ∧ resource t' = resource t) ∧
  (tileOk t → tileOk t').

(** The counters and the tile at (x,y) over one body of the first loop. *)
Record tidy (x y : Z) (s s' : GameState) : Prop := mkTidy {
  tidy_stats : statsLe (stats s) (stats s');
  tidy_tile : ∀ t, tileAt s x y = Some t →
                ∃ t', tileAt s' x y = Some t' ∧ tileStep t t'
}.

(** Every tile over a run of either loop. *)
Definition tilesStep (s s' : GameState) : Prop :=
  ∀ x y t, tileAt s x y = Some t → ∃ t', tileAt s' x y = Some t' ∧ tileStep t t'.

(** ** Neighbours and belts, item by item *)

(** The neighbour of (x,y) in direction [d] is in bounds and holds an
    item that passes [p]. *)
Definition neighborHit (p : Item → bool) (s : GameState) (x y : Z) (d : Direction)
  : Prop :=
  ∃ i, inBounds s (stepInDir x y d).1 (stepInDir x y d).2 = true ∧
       gridGet (items s) (stepInDir x y d).1 (stepInDir x y d).2 = Some (Some i) ∧
       p i = true.

(** [r] is the first neighbour of (x,y), in the order of [DIRECTIONS],
    whose item passes [p]; no result when there is none. *)
Definition firstHit (p : Item → bool) (s : GameState) (x y : Z)
    (r : option (option (Z * Z))) : Prop :=
  (r = Some None ∧ ∀ d, d ∈ DIRECTIONS → ¬ neighborHit p s x y d) ∨
  (∃ pre d post,
     DIRECTIONS = pre ++ d :: post ∧
     r = Some (Some (stepInDir x y d)) ∧
     neighborHit p s x y d ∧
     ∀ d', d' ∈ pre → ¬ neighborHit p s x y d').

(** What the second loop keeps about where items are, once the cells of
    [pre] are scanned: an item that no belt of [s0] carries towards a
    tile in bounds has not moved, and an item of the moved grid either
    was on its tile or came from a belt that feeds the tile. *)
Definition carryInv (s0 : GameState) (st : BeltState) : Prop :=
  (∀ x y it,
     gridGet (items s0) x y = Some (Some it) →
     (∀ nx ny dt, ¬ beltFeeds s0 x y it nx ny dt) →
     gridGet st.2 x y = Some (Some it)) ∧
  (∀ x y it,
     gridGet st.2 x y = Some (Some it) →
     gridGet (items s0) x y = Some (Some it) ∨
     ∃ px py, feeder s0 px py it x y).

(** ** Rotation and the click handler *)

(** [DIRECTIONS.indexOf(dir)] *)
Fixpoint indexOf (d : Direction) (l : list Direction) : Z :=
  match l with
  | [] => -1
  | d' :: l =>
      if decide (d' = d) then 0
      else let i := indexOf d l in if i <? 0 then -1 else i + 1
  end.

(** [nextDir]; [None] is the [undefined] of a read outside the array.
    The remainder of JavaScript's [%] takes the sign of the dividend. *)
Definition nextDir (d : Direction) : option Direction :=
  jsGet DIRECTIONS (Z.rem (indexOf d DIRECTIONS + 1) (Z.of_nat (length DIRECTIONS))).

(** The state updater of [handlePlace] in [GameApp], on the current
    world [prev] ([None] before the save has loaded): the new world and
    the notice it sets ([Some None] for [setBuildNotice(null)], [None]
    when it sets none). *)
Definition handlePlace (prev : option GameState) (x y : Z) (activeTool : Tool)
    (activeDir : Direction)
  : option (option GameState * option (option string)) :=
  match prev with
  | None => Some (None, None)
  | Some p =>
      if match activeTool with
         | Erase => false
         | Build t => negb (canAffordBuild p t)
         end
      then Some (Some p, Some (Some "Not enough resources in stockpile."%string))
      else s ← placeBuilding p x y activeTool activeDir; Some (Some s, Some None)
  end.

(** ** World generator

    [createInitialState] draws from [Math.random] and tests
    [Math.hypot(x, y) <= radius + 0.2] in floating point.  Both are
    taken as given: [rnd n k] is the value of
    [Math.floor(Math.random() * k)] at the [n]-th draw of the call, and
    [inDisc x y radius] the outcome of the test.  The generator threads
    the number of draws made so far. *)
Section generator.
Variable rnd : nat → Z → Z.
Variable inDisc : Z → Z → Z → bool.

Definition Seeding : Type := list (list Tile) * nat.

(** Body of the two inner loops of [seedOre] at offset (x,y); [None] is
    the [TypeError] of [tiles[dy][dx].terrain] on a missing tile. *)
Definition seedCell (width height : Z) (terrain : TerrainType)
    (cx cy radius richness x y : Z) (g : Seeding) : option Seeding :=
  let dx := cx + x in
  let dy := cy + y in
  if (0 <=? dx) && (dx <? width) && (0 <=? dy) && (dy <? height)
     && inDisc x y radius then
    _ ← gridGet g.1 dx dy;
    Some (gridAlter (λ t, setResource (richness + rnd g.2 20) (setTerrain terrain t))
            g.1 dx dy,
          S g.2)
  else Some g.

(** One round of the outer loop of [seedOre]. *)
Definition seedPatch (width height : Z) (terrain : TerrainType) (g : Seeding)
  : option Seeding :=
  let n := g.2 in
  let cx := 3 + rnd n (width - 6) in
  let cy := 3 + rnd (n + 1) (height - 6) in
  let radius := 2 + rnd (n + 2) 3 in
  let richness := 25 + rnd (n + 3) 25 in
  forEach (λ y, forEach (λ x, seedCell width height terrain cx cy radius richness x y)
                  (seqZ (- radius) (2 * radius + 1)))
    (seqZ (- radius) (2 * radius + 1)) (g.1, (n + 4)%nat).

Definition seedOre (width height : Z) (terrain : TerrainType) (patches : Z)
    (g : Seeding) : option Seeding :=
  forEach (λ _ : Z, seedPatch width height terrain) (seqZ 0 patches) g.

Definition seedResourcePatches (width height : Z) (g : Seeding) : option Seeding :=
  g ← seedOre width height TIron 4 g; seedOre width height TCopper 4 g.

Definition createInitialState (width height : Z) : option GameState :=
  let tiles := replicate (Z.to_nat height)
                 (replicate (Z.to_nat width) (mkTile TEmpty 0 None)) in
  let items := replicate (Z.to_nat height) (replicate (Z.to_nat width) None) in
  g ← seedResourcePatches width height (tiles, 0%nat);
  Some (mkState width height 0 g.1 items
          (mkBuffer 0 0 16 8 4 0) (mkStats 0 0 0 0 0 0)).
End generator.

(** A tile as the generator leaves it: bare ground, or a patch of 25 to
    68 units of ore; no building. *)
Definition freshTile (t : Tile) : Prop :=
  building t = None ∧
  ((terrain t = TEmpty ∧ resource t = 0) ∨
   (terrain t ≠ TEmpty ∧ 25 ≤ resource t ≤ 68)).

Definition freshGrid (width height : Z) (g : list (list Tile)) : Prop :=
  gridDims width height g ∧ ∀ x y t, gridGet g x y = Some t → freshTile t.

(** The events [GameApp] applies to the world: the timer's [stepGame]
    and the clicks that reach [placeBuilding]. *)
Inductive Event :=
  | Tick
  | Click (x y : Z) (tool : Tool) (d : Direction).

Definition applyEvent (e : Event) (s : GameState) : option GameState :=
  match e with
  | Tick => stepGame s
  | Click x y tool d => placeBuilding s x y tool d
  end.

(** ** Snapshots of typed worlds

    The object a world of the current format is stored as: every field
    present, the tags spelled as the type declarations list them. *)
Module Snapshot.
Local Open Scope string_scope.

Definition ofDirection (d : Direction) : string :=
  match d with Up => "up" | Right => "right" | Down => "down" | Left => "left" end.

Definition ofTerrain (t : TerrainType) : string :=
  match t with TEmpty => "empty" | TIron => "iron" | TCopper => "copper" end.

Definition ofBuildingType (t : BuildingType) : string :=
  match t with
  | Mine => "mine" | Belt => "belt" | Furnace => "furnace"
  | Assembler => "assembler" | WireMill => "wire-mill" | Hub => "hub"
  | Chest => "chest"
  end.

Definition ofItemType (t : ItemType) : string :=
  match t with
  | IronOre => "iron-ore" | CopperOre => "copper-ore"
  | IronPlate => "iron-plate" | CopperPlate => "copper-plate"
  | Gear => "gear" | Wire => "wire"
  end.

Definition ofBuffer (b : Buffer) : gmap string Z :=
  <["wire" := wire b]> (<["gear" := gear b]>
  (<["copper-plate" := copper_plate b]> (<["iron-plate" := iron_plate b]>
  (<["copper-ore" := copper_ore b]> (<["iron-ore" := iron_ore b]> ∅))))).

Definition ofStats (st : Stats) : gmap string Z :=
  <["ironMined" := ironMined st]> (<["copperMined" := copperMined st]>
  (<["ironPlates" := ironPlates st]> (<["copperPlates" := copperPlates st]>
  (<["gearsCrafted" := gearsCrafted st]> (<["wiresCrafted" := wiresCrafted st]> ∅))))).

Definition ofBuilding (b : Building) : Raw.Building :=
  Raw.mkBuilding (ofBuildingType (type b)) (ofDirection (dir b))
    (Some (progress b)) (Some (ofBuffer (buffer b))).

Definition ofTile (t : Tile) : Raw.Tile :=
  Raw.mkTile (ofTerrain (terrain t)) (Some (resource t))
    (ofBuilding <$> building t).

Definition ofItem (i : Item) : Raw.Item := Raw.mkItem (ofItemType (item_type i)).

Definition ofState (s : GameState) : Raw.GameState :=
  Raw.mkState (Some (width s)) (Some (height s)) (Some (tick s))
    (map (λ row, map ofTile row) (tiles s))
    (map (λ row, map (fmap ofItem) row) (items s))
    (Some (ofBuffer (inventory s)))
    (Some (ofStats (stats s))).











End Snapshot.

(** ** Further worlds used as examples *)

(** The belt at (1,0) carries an iron plate into the assembler at (0,0). *)
Definition plateWorld : GameState :=
  putItem 1 0 (Some (mkItem IronPlate)) (putBuilding 1 0 (belt Left) assemblerWorld).

(** A wire mill about to put out a wire. *)
Definition millWorld : GameState :=
  putBuilding 0 0 (mkBuilding WireMill Right 4 (mkBuffer 0 0 0 1 0 0)) (blankState 2 1).


(** Mines at (0,0) and (2,0), both one tick from emitting, both aimed
    at the free tile (1,0). *)
Definition twoMinesWorld : GameState :=
  modTile 0 0 (λ _, mkTile TIron 5 (Some (mkBuilding Mine Right 3 createBuffer)))
    (modTile 2 0 (λ _, mkTile TCopper 5 (Some (mkBuilding Mine Left 3 createBuffer)))
       (blankState 3 1)).

(** The mine of the scenario, one tick from emitting. *)
Definition readyWorld : GameState :=
  putBuilding 1 1 (mkBuilding Mine Right 3 createBuffer) ironWorld.

(** The state of the second loop of [stepGame w] as it arrives at (x,y):
    [next] and the grid [moved]. *)
Definition beltStateAt (w : GameState) (x y : Z) : option BeltState :=
  s ← production (withTick (tick (cloneState w) + 1) (cloneState w));
  forEach (λ p, moveAt p.1 p.2) (before (x, y) (coords (width s) (height s)))
    (s, cloneItemGrid (items s)).

(** After the second loop has passed (x,y) and left its slot of the
    moved grid empty, the slot stays empty unless a belt of [s0] aimed
    at (x,y) has put its item there. *)
Definition refilled (s0 : GameState) (m : list (list (option Item))) (x y : Z) : Prop :=
  gridGet m x y = Some None ∨
  ∃ px py it, feeder s0 px py it x y ∧ gridGet m x y = Some (Some it).

(** The belt at (0,0) carries a gear into the chest at (1,0). *)
Definition chestWorld : GameState :=
  putItem 0 0 (Some (mkItem Gear))
    (putBuilding 0 0 (belt Right)
       (putBuilding 1 0 (mkBuilding Chest Up 0 createBuffer) (blankState 2 1))).

(** A furnace about to put out a plate while the belt at (0,0) brings
    the next ore. *)
Definition feedWorld : GameState :=
  putItem 0 0 (Some (mkItem IronOre))
    (putBuilding 0 0 (belt Right)
       (putBuilding 1 0 (mkBuilding Furnace Right 5 (mkBuffer 0 1 0 0 0 0))
          (blankState 3 1))).

(** A save of the first format with the legacy counters [oreMined] and
    [platesSmelted], one of them beside its current name. *)
Definition legacyStats : Raw.GameState :=
  Raw.mkState (Some 1) (Some 1) None [[Raw.mkTile "ore" None None]]
    [[Some (Raw.mkItem "ore")]] None
    (Some (<["oreMined" := 7]> (<["platesSmelted" := 3]>
             (<["ironPlates" := 5]> ∅)))).

(** A furnace about to put out an iron plate. *)
Definition smeltWorld : GameState :=
  putBuilding 0 0 (mkBuilding Furnace Right 5 (mkBuffer 1 0 0 0 0 0)) (blankState 2 1).

(** A hub at the corner (0,0) with a gear lying right of it. *)
Definition hubWorld : GameState :=
  putItem 1 0 (Some (mkItem Gear))
    (putBuilding 0 0 (mkBuilding Hub Up 0 createBuffer) (blankState 2 1)).

(** * Properties *)

(** ** Arrays and grids *)

Lemma jsGet_Some {A} (l : list A) i a :
  jsGet l i = Some a ↔ 0 ≤ i ∧ l !! Z.to_nat i = Some a.
Proof.
  unfold jsGet. destruct (decide (0 ≤ i)); split; try done.
  - by intros [??].
  - by intros [??].
Qed.

Lemma sumWith_alter {A} (m : A → Z) (f : A → A) (l : list A) i :
  sumWith m (alter f i l) =
  sumWith m l + match l !! i with Some a => m (f a) - m a | None => 0 end.
Proof.
  revert i. induction l as [|a l IH]; intros [|i]; simpl; try lia.
  specialize (IH i). unfold alter in IH. rewrite IH. lia.
Qed.

Section grids.
Context {A : Type}.
Implicit Types (g : list (list A)) (x y : Z).

Lemma gridGet_Some g x y a :
  gridGet g x y = Some a ↔
  0 ≤ x ∧ 0 ≤ y ∧ ∃ row, g !! Z.to_nat y = Some row ∧ row !! Z.to_nat x = Some a.
Proof.
  unfold gridGet. split.
  - intros H. apply bind_Some in H as (row & Hr & Hc).
    apply jsGet_Some in Hr as [??]. apply jsGet_Some in Hc as [??]. eauto 6.
  - intros (Hx & Hy & row & Hr & Hc). apply bind_Some. exists row.
    split; apply jsGet_Some; done.
Qed.

Lemma gridGet_alter (f : A → A) g x y x' y' :
  gridGet (gridAlter f g x y) x' y' =
  if decide (x' = x ∧ y' = y) then f <$> gridGet g x y else gridGet g x' y'.
Proof.
  unfold gridAlter, gridGet, jsGet.
  destruct (decide (0 ≤ x ∧ 0 ≤ y)) as [[Hx Hy]|Hneg].
  - destruct (decide (x' = x ∧ y' = y)) as [[-> ->]|Hne].
    + rewrite !decide_True by done. rewrite list_lookup_alter_eq.
      destruct (g !! Z.to_nat y) as [row|]; simpl; [|done].
      rewrite !decide_True by done. by rewrite list_lookup_alter_eq.
    + destruct (decide (0 ≤ y')); [|done].
      destruct (decide (y' = y)) as [->|Hy'].
      * rewrite list_lookup_alter_eq.
        destruct (g !! Z.to_nat y) as [row|]; simpl; [|done].
        destruct (decide (0 ≤ x')); [|done].
        rewrite list_lookup_alter_ne; [done|]. intros ?. apply Hne. split; lia.
      * rewrite list_lookup_alter_ne; [done|]. lia.
  - destruct (decide (x' = x ∧ y' = y)) as [[-> ->]|Hne]; [|done].
    destruct (decide (0 ≤ y)); [|done].
    destruct (g !! Z.to_nat y) as [row|]; simpl; [|done].
    rewrite decide_False; [done|]. intros ?. apply Hneg. done.
Qed.

Lemma gridDims_alter (f : A → A) w h g x y :
  gridDims w h g → gridDims w h (gridAlter f g x y).
Proof.
  intros [Hl Hrows]. unfold gridAlter. case_decide; [|done]. split.
  - by rewrite length_alter.
  - apply Forall_alter; [done|]. intros row _ Hrow. by rewrite length_alter.
Qed.

Lemma gridGet_dims w h g x y :
  gridDims w h g → 0 ≤ x < w → 0 ≤ y < h → is_Some (gridGet g x y).
Proof.
  intros [Hl Hrows] Hx Hy.
  destruct (lookup_lt_is_Some_2 g (Z.to_nat y)) as [row Hrow]; [lia|].
  assert (length row = Z.to_nat w) as Hw.
  { eapply (Forall_lookup_1 _ _ _ _ Hrows Hrow). }
  destruct (lookup_lt_is_Some_2 row (Z.to_nat x)) as [a Ha]; [lia|].
  exists a. apply gridGet_Some. split; [lia|]. split; [lia|]. eauto.
Qed.

Lemma gridGet_range w h g x y a :
  gridDims w h g → gridGet g x y = Some a → (0 ≤ x < w) ∧ (0 ≤ y < h).
Proof.
  intros [Hl Hrows] (Hx & Hy & row & Hrow & Ha)%gridGet_Some.
  assert (length row = Z.to_nat w) as Hw.
  { eapply (Forall_lookup_1 _ _ _ _ Hrows Hrow). }
  apply lookup_lt_Some in Hrow, Ha. lia.
Qed.

Lemma gridSum_alter (m : A → Z) (f : A → A) g x y :
  gridSum m (gridAlter f g x y) =
  gridSum m g + match gridGet g x y with Some a => m (f a) - m a | None => 0 end.
Proof.
  unfold gridSum, gridAlter, gridGet, jsGet.
  destruct (decide (0 ≤ x ∧ 0 ≤ y)) as [[Hx Hy]|Hneg].
  - rewrite sumWith_alter, !decide_True by done.
    destruct (g !! Z.to_nat y) as [row|]; simpl; [|done].
    rewrite sumWith_alter, decide_True by done.
    destruct (row !! Z.to_nat x); simpl; lia.
  - destruct (decide (0 ≤ y)); simpl; [|lia].
    destruct (g !! Z.to_nat y) as [row|]; simpl; [|lia].
    rewrite decide_False; [simpl; lia|]. intros ?. apply Hneg. done.
Qed.
End grids.

Lemma gridGet_alter_ne {A} (f : A → A) (g : list (list A)) x y x' y' :
  (x', y') ≠ (x, y) → gridGet (gridAlter f g x y) x' y' = gridGet g x' y'.
Proof.
  intros Hne. rewrite gridGet_alter. apply decide_False. intros [-> ->]. done.
Qed.

Lemma gridGet_alter_eq {A} (f : A → A) (g : list (list A)) x y :
  gridGet (gridAlter f g x y) x y = f <$> gridGet g x y.
Proof. rewrite gridGet_alter. by apply decide_True. Qed.

Lemma itemGet_in w h (g : list (list (option Item))) x y :
  gridDims w h g → 0 ≤ x < w → 0 ≤ y < h → itemGet g x y = gridGet g x y.
Proof.
  intros Hd Hx Hy. destruct (gridGet_dims _ _ _ _ _ Hd Hx Hy) as [a Ha].
  rewrite Ha. apply gridGet_Some in Ha as (_ & _ & row & Hrow & Hc).
  unfold itemGet, jsGet. rewrite !decide_True by lia. rewrite Hrow. simpl.
  rewrite decide_True by lia. by rewrite Hc.
Qed.

Lemma itemSet_in w h (g : list (list (option Item))) x y v :
  gridDims w h g → 0 ≤ x < w → 0 ≤ y < h →
  itemSet g x y v = Some (gridAlter (λ _, v) g x y).
Proof.
  intros Hd Hx Hy. destruct (gridGet_dims _ _ _ _ _ Hd Hx Hy) as [a Ha].
  apply gridGet_Some in Ha as (_ & _ & row & Hrow & Hc).
  unfold itemSet, gridAlter, jsGet. rewrite !decide_True by lia.
  rewrite Hrow. simpl. f_equal.
  apply list_eq. intros j. destruct (decide (j = Z.to_nat y)) as [->|Hj].
  - rewrite list_lookup_alter_eq, list_lookup_insert_eq by by eapply lookup_lt_Some.
    rewrite Hrow. simpl. f_equal. unfold jsSet.
    rewrite decide_True by lia. rewrite decide_True by by eapply lookup_lt_Some.
    apply list_eq. intros k. destruct (decide (k = Z.to_nat x)) as [->|Hk].
    + rewrite list_lookup_alter_eq, list_lookup_insert_eq by by eapply lookup_lt_Some.
      by rewrite Hc.
    + by rewrite list_lookup_alter_ne, list_lookup_insert_ne.
  - by rewrite list_lookup_alter_ne, list_lookup_insert_ne.
Qed.

(** ** Reads and writes on a well-formed world *)

Lemma inBounds_range s x y :
  inBounds s x y = true ↔ (0 ≤ x < width s) ∧ (0 ≤ y < height s).
Proof. unfold inBounds. rewrite !andb_true_iff. lia. Qed.

Lemma itemAt_in s x y :
  wf s → inBounds s x y = true → itemAt s x y = gridGet (items s) x y.
Proof.
  intros [_ Hi] [??]%inBounds_range. by eapply itemGet_in.
Qed.

Lemma setItemAt_in s x y v :
  wf s → inBounds s x y = true → setItemAt x y v s = Some (putItem x y v s).
Proof.
  intros [_ Hi] [??]%inBounds_range. unfold setItemAt, putItem.
  by erewrite itemSet_in.
Qed.

Lemma tileAt_in s x y :
  wf s → inBounds s x y = true → is_Some (tileAt s x y).
Proof.
  intros [Ht _] [??]%inBounds_range. by eapply gridGet_dims.
Qed.

Lemma itemCell_in s x y :
  wf s → inBounds s x y = true → is_Some (gridGet (items s) x y).
Proof.
  intros [_ Hi] [??]%inBounds_range. by eapply gridGet_dims.
Qed.

Lemma tileAt_inBounds s x y t :
  wf s → tileAt s x y = Some t → inBounds s x y = true.
Proof.
  intros [Ht _] H. apply inBounds_range. by eapply gridGet_range.
Qed.

Lemma canPlaceItem_total s x y :
  wf s → is_Some (canPlaceItem s x y).
Proof.
  intros Hwf. unfold canPlaceItem.
  destruct (inBounds s x y) eqn:Hb; simpl; [|by eexists].
  destruct (tileAt_in _ _ _ Hwf Hb) as [t ->]. simpl.
  destruct (isNonBelt (building t)); [by eexists|].
  rewrite itemAt_in by done.
  destruct (itemCell_in _ _ _ Hwf Hb) as [it ->]. by eexists.
Qed.

Lemma canPlaceItem_true s x y :
  wf s → canPlaceItem s x y = Some true →
  inBounds s x y = true ∧ gridGet (items s) x y = Some None ∧
  ∃ t, tileAt s x y = Some t ∧ isNonBelt (building t) = false.
Proof.
  intros Hwf. unfold canPlaceItem.
  destruct (inBounds s x y) eqn:Hb; simpl; [|done].
  destruct (tileAt_in _ _ _ Hwf Hb) as [t Ht]. rewrite Ht. simpl.
  destruct (isNonBelt (building t)) eqn:Hnb; [done|].
  rewrite itemAt_in by done.
  destruct (itemCell_in _ _ _ Hwf Hb) as [it Hit]. rewrite Hit. simpl.
  intros [= Hd%bool_decide_eq_true]. subst it. eauto.
Qed.

Lemma findNeighborWith_total p s x y dirs :
  wf s → is_Some (findNeighborWith p s x y dirs).
Proof.
  intros Hwf. induction dirs as [|d ds IH]; simpl; [by eexists|].
  destruct (stepInDir x y d) as [nx ny].
  destruct (inBounds s nx ny) eqn:Hb; simpl; [|done].
  rewrite itemAt_in by done.
  destruct (itemCell_in _ _ _ Hwf Hb) as [it ->]. simpl.
  destruct it as [i|]; [|done]. destruct (p i); [by eexists|done].
Qed.

Lemma findNeighborWith_found p s x y dirs nx ny :
  wf s → findNeighborWith p s x y dirs = Some (Some (nx, ny)) →
  inBounds s nx ny = true ∧
  ∃ i, gridGet (items s) nx ny = Some (Some i) ∧ p i = true.
Proof.
  intros Hwf. induction dirs as [|d ds IH]; simpl; [done|].
  destruct (stepInDir x y d) as [mx my].
  destruct (inBounds s mx my) eqn:Hb; simpl; [|done].
  rewrite itemAt_in by done.
  destruct (itemCell_in _ _ _ Hwf Hb) as [it Hit]. rewrite Hit. simpl.
  destruct it as [i|]; [|done]. destruct (p i) eqn:Hp; [|done].
  intros [= -> ->]. eauto.
Qed.

(** ** What one tick preserves *)

Lemma keeps_refl s : wf s → keeps s s.
Proof. intros. by split. Qed.

Lemma keeps_trans s1 s2 s3 : keeps s1 s2 → keeps s2 s3 → keeps s1 s3.
Proof.
  intros [] []. split; try congruence.
  intros k. etrans; eauto.
Qed.

Lemma bufTotal_add k n b : bufTotal (bufAdd k n b) = bufTotal b + n.
Proof. destruct k; unfold bufTotal; simpl; lia. Qed.

Lemma bufGet_add k k' n b :
  bufGet (bufAdd k n b) k' = if decide (k' = k) then bufGet b k' + n else bufGet b k'.
Proof. destruct k, k'; simpl; try done. Qed.

Ltac st_simpl :=
  cbn [width height tick tiles items inventory stats
       withTiles withItems withInventory withStats withTick
       modTile putItem putBuilding creditInventory modStats feedBuilding
       terrain resource building setBuilding setResource setTerrain
       type dir progress buffer setProgress setBuffer] in *.

Ltac grid_simpl :=
  repeat first
    [ rewrite gridSum_alter
    | rewrite gridGet_alter
    | match goal with
      | |- context [decide (?a = ?b ∧ ?c = ?d)] =>
          first [ rewrite (decide_True (P := a = b ∧ c = d)) by (split; reflexivity)
                | rewrite (decide_False (P := a = b ∧ c = d)) by lia ]
      end
    | rewrite bufTotal_add ].

(** Closes [keeps s s'] for [s'] a chain of updates of [s], from the
    cells of [s] that the chain reads, found among the hypotheses. *)
Ltac keeps_tac :=
  split; unfold wf, totalItems, netProduced, tileAt in *; st_simpl;
  [ split; repeat apply gridDims_alter; tauto
  | reflexivity | reflexivity | reflexivity
  | grid_simpl;
    repeat match goal with
           | H : gridGet _ _ _ = Some _ |- _ => rewrite H; clear H
           | H : gridGet _ _ _ = _ |- _ => rewrite !H; clear H
           end;
    cbn [fmap option_fmap option_map]; unfold tileCount, itemCount; st_simpl;
    repeat match goal with
           | H : building _ = _ |- _ => rewrite !H; clear H
           end;
    rewrite ?bufTotal_add; unfold bufTotal; simpl; try lia
  | intros k; rewrite ?bufGet_add; repeat case_decide; lia ].

Lemma sameKind_refl t : sameKind t t.
Proof. by split. Qed.

Lemma frame_refl x y s : frame x y s s.
Proof. split; [done|]. eauto using sameKind_refl. Qed.

Lemma frame_trans x y s1 s2 s3 : frame x y s1 s2 → frame x y s2 s3 → frame x y s1 s3.
Proof.
  intros [Ho Hs] [Ho' Hs']. split.
  - intros x0 y0 Hne. rewrite Ho', Ho; done.
  - intros t Ht. destruct (Hs t Ht) as (t2 & Ht2 & [??]).
    destruct (Hs' t2 Ht2) as (t3 & Ht3 & [??]).
    exists t3. split; [done|]. split; congruence.
Qed.

Lemma cellStep_refl x y s : wf s → cellStep x y s s.
Proof. intros. split; [by apply keeps_refl|apply frame_refl]. Qed.

Lemma cellStep_trans x y s1 s2 s3 :
  cellStep x y s1 s2 → cellStep x y s2 s3 → cellStep x y s1 s3.
Proof. intros [??] [??]. split; eauto using keeps_trans, frame_trans. Qed.

(** Closes [frame x y s s'] for [s'] a chain of updates of [s]. *)
Ltac frame_tac :=
  split;
  [ intros ? ? ?; unfold tileAt; st_simpl;
    rewrite ?gridGet_alter_ne by done; reflexivity
  | let t0 := fresh "t0" in
    let Ht0 := fresh "Ht0" in
    intros t0 Ht0; unfold tileAt in *; st_simpl; rewrite ?gridGet_alter_eq;
    rewrite Ht0; simplify_eq; simpl; eexists; split; [reflexivity|];
    unfold sameKind; st_simpl;
    repeat match goal with
           | H : building _ = _ |- _ => rewrite !H; clear H
           end;
    simpl; done ].

Ltac cell_tac := split; [keeps_tac | frame_tac].

Lemma mineTick_keeps x y t b s :
  wf s → tileAt s x y = Some t → building t = Some b →
  ∃ s', mineTick x y t b s = Some s' ∧ cellStep x y s s'.
Proof.
  intros Hwf Ht Hb. unfold mineTick.
  destruct (decide (terrain t = TEmpty)); [eauto using cellStep_refl|].
  destruct (resource t <=? 0); [eauto using cellStep_refl|].
  set (b1 := setProgress (progress b + 1) b).
  set (s1 := putBuilding x y b1 s).
  assert (wf s1) as Hwf1.
  { destruct Hwf. split; [by apply gridDims_alter|done]. }
  destruct (MINE_TICKS <=? progress b1).
  2:{ eexists; split; [done|]. subst s1 b1. cell_tac. }
  destruct (stepInDir x y (dir b1)) as [nx ny] eqn:Hdir.
  destruct (canPlaceItem_total s1 nx ny Hwf1) as [ok Hok]. rewrite Hok. simpl.
  destruct ok.
  2:{ eexists; split; [done|]. subst s1 b1. cell_tac. }
  apply canPlaceItem_true in Hok as (Hin & Hit & _); [|done].
  rewrite setItemAt_in by done. simpl.
  assert (nx ≠ x ∨ ny ≠ y) as Hne.
  { destruct (dir b1); simpl in Hdir; injection Hdir; lia. }
  subst s1 b1.
  destruct (resource t - 1 <=? 0), (decide (terrain t = TIron));
    (eexists; split; [done|]); cell_tac.
Qed.

Lemma wf_putBuilding x y b s : wf s → wf (putBuilding x y b s).
Proof. intros [??]. split; [by apply gridDims_alter|done]. Qed.

Lemma wf_putItem x y v s : wf s → wf (putItem x y v s).
Proof. intros [??]. split; [done|by apply gridDims_alter]. Qed.

Lemma stepInDir_moves x y d nx ny :
  stepInDir x y d = (nx, ny) → nx ≠ x ∨ ny ≠ y.
Proof. destruct d; simpl; intros [= <- <-]; lia. Qed.

Ltac intake_none :=
  eexists _, _; split; [done|]; split; [by apply cellStep_refl|done].

Ltac intake_some Ht :=
  eexists _, _; split; [done|]; split;
  [ cell_tac
  | eexists; split;
    [unfold tileAt in *; st_simpl; grid_simpl; by rewrite Ht | done] ].

Lemma furnaceIntake_keeps x y b s :
  wf s → holds x y b s →
  ∃ b1 s1, furnaceIntake x y b s = Some (b1, s1) ∧ cellStep x y s s1 ∧ holds x y b1 s1.
Proof.
  intros Hwf Hh. pose proof Hh as (t & Ht & Hb). unfold furnaceIntake.
  destruct ((bufGet (buffer b) IronOre =? 0) && (bufGet (buffer b) CopperOre =? 0));
    [|intake_none].
  unfold findNeighborItemByTypes.
  destruct (findNeighborWith_total (λ i, bool_decide (item_type i ∈ [IronOre; CopperOre]))
              s x y DIRECTIONS Hwf) as [nb Hnb].
  rewrite Hnb. simpl. destruct nb as [[nx ny]|]; [|intake_none].
  apply findNeighborWith_found in Hnb as (Hin & i & Hi & _); [|done].
  rewrite itemAt_in, Hi by done. simpl.
  rewrite setItemAt_in by done. simpl. intake_some Ht.
Qed.

Lemma assemblerIntake_keeps x y b s :
  wf s → holds x y b s →
  ∃ b1 s1, assemblerIntake x y b s = Some (b1, s1) ∧ cellStep x y s s1 ∧ holds x y b1 s1.
Proof.
  intros Hwf Hh. pose proof Hh as (t & Ht & Hb). unfold assemblerIntake.
  destruct (bufGet (buffer b) IronPlate <? 2); [|intake_none].
  unfold findNeighborItem.
  destruct (findNeighborWith_total (λ i, bool_decide (item_type i = IronPlate))
              s x y DIRECTIONS Hwf) as [nb Hnb].
  rewrite Hnb. simpl. destruct nb as [[nx ny]|]; [|intake_none].
  apply findNeighborWith_found in Hnb as (Hin & i & Hi & _); [|done].
  rewrite setItemAt_in by done. simpl. intake_some Ht.
Qed.

Lemma wireMillIntake_keeps x y b s :
  wf s → holds x y b s →
  ∃ b1 s1, wireMillIntake x y b s = Some (b1, s1) ∧ cellStep x y s s1 ∧ holds x y b1 s1.
Proof.
  intros Hwf Hh. pose proof Hh as (t & Ht & Hb). unfold wireMillIntake.
  destruct (bufGet (buffer b) CopperPlate <? 1); [|intake_none].
  unfold findNeighborItem.
  destruct (findNeighborWith_total (λ i, bool_decide (item_type i = CopperPlate))
              s x y DIRECTIONS Hwf) as [nb Hnb].
  rewrite Hnb. simpl. destruct nb as [[nx ny]|]; [|intake_none].
  apply findNeighborWith_found in Hnb as (Hin & i & Hi & _); [|done].
  rewrite setItemAt_in by done. simpl. intake_some Ht.
Qed.

(** The emission half of a processor, once the cycle test and
    [canPlaceItem] are decided. *)
Ltac output_tac Hwf Ht :=
  match goal with
  | |- context [if ?c <=? progress ?b then _ else _] =>
      destruct (c <=? progress b);
      [|eexists; split; [done|]; cell_tac]
  end;
  match goal with
  | |- context [stepInDir ?x ?y ?d] =>
      let Hdir := fresh "Hdir" in
      let nx := fresh "nx" in
      let ny := fresh "ny" in
      destruct (stepInDir x y d) as [nx ny] eqn:Hdir;
      pose proof (stepInDir_moves _ _ _ _ _ Hdir)
  end;
  match goal with
  | |- context [canPlaceItem ?s1 ?mx ?my] =>
      let Hok := fresh "Hok" in
      let ok := fresh "ok" in
      destruct (canPlaceItem_total s1 mx my (wf_putBuilding _ _ _ _ Hwf)) as [ok Hok];
      rewrite Hok; simpl; destruct ok;
      [ apply canPlaceItem_true in Hok as (? & ? & _);
        [|by apply wf_putBuilding];
        rewrite setItemAt_in by (done || by apply wf_putBuilding); simpl
      | eexists; split; [done|]; cell_tac ]
  end.

Lemma furnaceOutput_keeps x y b s :
  wf s → holds x y b s → ∃ s', furnaceOutput x y b s = Some s' ∧ cellStep x y s s'.
Proof.
  intros Hwf (t & Ht & Hb). unfold furnaceOutput.
  destruct (if 0 <? bufGet (buffer b) IronOre then Some IronOre
            else if 0 <? bufGet (buffer b) CopperOre then Some CopperOre
            else None) as [ore|]; [|eauto using cellStep_refl].
  cbv zeta. output_tac Hwf Ht.
  destruct (decide ((if decide (ore = IronOre) then IronPlate else CopperPlate) = IronPlate));
    (eexists; split; [done|]); cell_tac.
Qed.

Lemma assemblerOutput_keeps x y b s :
  wf s → holds x y b s → ∃ s', assemblerOutput x y b s = Some s' ∧ cellStep x y s s'.
Proof.
  intros Hwf (t & Ht & Hb). unfold assemblerOutput.
  destruct (2 <=? bufGet (buffer b) IronPlate); [|eauto using cellStep_refl].
  cbv zeta. output_tac Hwf Ht.
  eexists; split; [done|]; cell_tac.
Qed.

Lemma wireMillOutput_keeps x y b s :
  wf s → holds x y b s → ∃ s', wireMillOutput x y b s = Some s' ∧ cellStep x y s s'.
Proof.
  intros Hwf (t & Ht & Hb). unfold wireMillOutput.
  destruct (1 <=? bufGet (buffer b) CopperPlate); [|eauto using cellStep_refl].
  cbv zeta. output_tac Hwf Ht.
  eexists; split; [done|]; cell_tac.
Qed.

Lemma hubTick_keeps x y s :
  wf s → ∃ s', hubTick x y s = Some s' ∧ cellStep x y s s'.
Proof.
  intros Hwf. unfold hubTick, findNeighborItemAny.
  destruct (findNeighborWith_total (λ _, true) s x y DIRECTIONS Hwf) as [nb Hnb].
  rewrite Hnb. simpl. destruct nb as [[nx ny]|]; [|eauto using cellStep_refl].
  apply findNeighborWith_found in Hnb as (Hin & i & Hi & _); [|done].
  rewrite itemAt_in, Hi by done. simpl.
  rewrite setItemAt_in by done. simpl.
  eexists; split; [done|]. cell_tac.
Qed.

Lemma produceAt_keeps x y s :
  wf s → inBounds s x y = true → ∃ s', produceAt x y s = Some s' ∧ cellStep x y s s'.
Proof.
  intros Hwf Hin. unfold produceAt.
  destruct (tileAt_in _ _ _ Hwf Hin) as [t Ht]. rewrite Ht. simpl.
  destruct (building t) as [b|] eqn:Hb; [|eauto using cellStep_refl].
  assert (holds x y b s) as Hh by (by exists t).
  destruct (type b); eauto using cellStep_refl, mineTick_keeps, hubTick_keeps.
  - unfold furnaceTick.
    destruct (furnaceIntake_keeps x y b s Hwf Hh) as (b1 & s1 & -> & Hk & Hh1). simpl.
    destruct (furnaceOutput_keeps x y b1 s1 (keeps_wf _ _ (proj1 Hk)) Hh1) as (s' & -> & Hk').
    eauto using cellStep_trans.
  - unfold assemblerTick.
    destruct (assemblerIntake_keeps x y b s Hwf Hh) as (b1 & s1 & -> & Hk & Hh1). simpl.
    destruct (assemblerOutput_keeps x y b1 s1 (keeps_wf _ _ (proj1 Hk)) Hh1) as (s' & -> & Hk').
    eauto using cellStep_trans.
  - unfold wireMillTick.
    destruct (wireMillIntake_keeps x y b s Hwf Hh) as (b1 & s1 & -> & Hk & Hh1). simpl.
    destruct (wireMillOutput_keeps x y b1 s1 (keeps_wf _ _ (proj1 Hk)) Hh1) as (s' & -> & Hk').
    eauto using cellStep_trans.
Qed.

(** ** The scan order *)

Lemma forEach_app {I S} (body : I → S → option S) l1 l2 s :
  forEach body (l1 ++ l2) s = forEach body l1 s ≫= forEach body l2.
Proof.
  revert s. induction l1 as [|i l1 IH]; intros s; simpl; [done|].
  destruct (body i s) as [s'|]; simpl; [apply IH|done].
Qed.

Lemma scanGrid_coords {S} w h (body : Z → Z → S → option S) s :
  scanGrid w h body s = forEach (λ p, body p.1 p.2) (coords w h) s.
Proof.
  unfold scanGrid, coords. revert s.
  induction (seqZ 0 h) as [|y ys IH]; intros s; [done|].
  rewrite bind_cons, forEach_app. simpl.
  assert (∀ l s, forEach (λ x, body x y) l s =
                 forEach (λ p, body p.1 p.2) ((λ x, (x, y)) <$> l) s) as Hrow.
  { induction l as [|x l IHl]; intros s0; simpl; [done|].
    destruct (body x y s0); simpl; [apply IHl|done]. }
  rewrite Hrow. destruct (forEach _ (_ <$> _) s); simpl; [apply IH|done].
Qed.

(** An invariant indexed by the cells already scanned. *)
Lemma forEach_prefix {I S} (P : list I → S → Prop) (body : I → S → option S) l s :
  P [] s →
  (∀ pre i post s, l = pre ++ i :: post → P pre s →
     ∃ s', body i s = Some s' ∧ P (pre ++ [i]) s') →
  ∃ s', forEach body l s = Some s' ∧ P l s'.
Proof.
  revert P s. induction l as [|i l IH]; intros P s H0 Hstep; simpl; [eauto|].
  destruct (Hstep [] i l s eq_refl H0) as (s1 & -> & H1). simpl.
  apply (IH (λ pre, P (i :: pre))); [done|].
  intros pre j post s2 -> H2. apply (Hstep (i :: pre) j post); done.
Qed.

Lemma elem_of_coords w h x y :
  (x, y) ∈ coords w h ↔ (0 ≤ x < w) ∧ (0 ≤ y < h).
Proof.
  unfold coords. rewrite list_elem_of_bind. split.
  - intros (y' & (x' & [= -> ->] & Hx)%list_elem_of_fmap & Hy).
    apply elem_of_seqZ in Hx, Hy. lia.
  - intros [Hx Hy]. exists y. split; [|apply elem_of_seqZ; lia].
    apply list_elem_of_fmap. exists x. split; [done|apply elem_of_seqZ; lia].
Qed.

Lemma seqZ_sorted m n : StronglySorted Z.lt (seqZ m n).
Proof.
  remember (Z.to_nat n) as k eqn:Hk. revert m n Hk.
  induction k as [|k IH]; intros m n Hk.
  - rewrite seqZ_nil by lia. constructor.
  - rewrite seqZ_cons by lia. constructor; [apply IH; lia|].
    apply Forall_forall. intros z Hz%elem_of_seqZ. lia.
Qed.

Lemma coords_sorted w h : StronglySorted rowMajorLt (coords w h).
Proof.
  unfold coords. generalize (seqZ_sorted 0 h).
  induction 1 as [|y ys Hs IH Hall]; [constructor|].
  rewrite bind_cons. apply StronglySorted_app. split_and!; [| |done].
  - intros p q (x & -> & _)%list_elem_of_fmap
      (y' & (x' & -> & _)%list_elem_of_fmap & Hy')%list_elem_of_bind.
    left. simpl. by eapply (proj1 (Forall_forall _ _) Hall).
  - clear. generalize (seqZ_sorted 0 w).
    induction 1 as [|x xs Hxs IHx Hallx]; [constructor|].
    csimpl. constructor; [done|].
    apply Forall_forall. intros q (x' & -> & Hx')%list_elem_of_fmap.
    right. simpl. split; [done|]. by eapply (proj1 (Forall_forall _ _) Hallx).
Qed.

Lemma rowMajorLt_irrefl p : ¬ rowMajorLt p p.
Proof. unfold rowMajorLt. lia. Qed.

Lemma rowMajorLt_asym p q : rowMajorLt p q → ¬ rowMajorLt q p.
Proof. unfold rowMajorLt. lia. Qed.

(** At the turn of [q], the cells scanned so far are those before [q]. *)
Lemma coords_turn w h pre q post p :
  coords w h = pre ++ q :: post →
  (p ∈ pre ↔ p ∈ coords w h ∧ rowMajorLt p q).
Proof.
  intros Heq. pose proof (coords_sorted w h) as Hs. rewrite Heq in Hs.
  apply StronglySorted_app in Hs as (Hpq & _ & Hq).
  apply StronglySorted_cons in Hq as [Hq _].
  rewrite Heq, elem_of_app, elem_of_cons. split.
  - intros Hp. split; [by left|]. apply Hpq; [done|by left].
  - intros [[Hp|[->|Hp]] Hlt]; [done|by apply rowMajorLt_irrefl in Hlt|].
    exfalso. eapply rowMajorLt_asym; [done|].
    by eapply (proj1 (Forall_forall _ _) Hq).
Qed.

Lemma coords_turn_in w h pre q post :
  coords w h = pre ++ q :: post → q ∈ coords w h ∧ q ∉ pre.
Proof.
  intros Heq. split; [rewrite Heq, elem_of_app, elem_of_cons; auto|].
  intros [_ Hlt]%(coords_turn _ _ _ _ _ _ Heq). by apply rowMajorLt_irrefl in Hlt.
Qed.

(** ** Phase A as a whole *)

Lemma production_keeps s :
  wf s → ∃ s', production s = Some s' ∧ keeps s s'.
Proof.
  intros Hwf. unfold production. rewrite scanGrid_coords.
  apply (forEach_prefix (λ _ s', keeps s s')); [by apply keeps_refl|].
  intros pre [x y] post s1 Heq Hk. simpl.
  destruct (coords_turn_in _ _ _ _ _ Heq) as [Hin%elem_of_coords _].
  destruct (produceAt_keeps x y s1) as (s2 & -> & Hk2 & _).
  - by destruct Hk.
  - apply inBounds_range. destruct Hk as [_ -> -> _ _ _]. done.
  - eauto using keeps_trans.
Qed.

(** ** Phase B, one belt at a time *)

Lemma fedOnly_refl t : fedOnly t t.
Proof. unfold fedOnly. destruct (building t); auto. Qed.

Lemma fedOnly_trans t1 t2 t3 : fedOnly t1 t2 → fedOnly t2 t3 → fedOnly t1 t3.
Proof.
  unfold fedOnly. intros (? & ? & H12) (? & ? & H23).
  split; [congruence|]. split; [congruence|].
  destruct (building t1) as [b1|], (building t2) as [b2|], (building t3) as [b3|];
    try done.
  destruct H12 as (Ht & Hd & Hb), H23 as (Ht' & Hd' & Hb').
  split; [congruence|]. split; [congruence|].
  intros Hp. specialize (Hb Hp). subst b2. by apply Hb'.
Qed.

Lemma fed_refl s : wf s → fed s s.
Proof. intros. split; try done. eauto using fedOnly_refl. Qed.

Lemma fed_trans s1 s2 s3 : fed s1 s2 → fed s2 s3 → fed s1 s3.
Proof.
  intros [] []. split; try congruence.
  - intros k. etrans; eauto.
  - intros x y t Ht. destruct (fed_tiles0 x y t Ht) as (t2 & Ht2 & ?).
    destruct (fed_tiles1 x y t2 Ht2) as (t3 & ? & ?).
    eauto using fedOnly_trans.
Qed.

Lemma fed_credit k s : wf s → fed s (creditInventory k s).
Proof.
  intros Hwf. split; try done.
  - intros k'. simpl. rewrite bufGet_add. case_decide; lia.
  - eauto using fedOnly_refl.
Qed.

Lemma fed_feed nx ny dt db k s :
  wf s → tileAt s nx ny = Some dt → building dt = Some db →
  isProcessor (type db) = true → fed s (feedBuilding nx ny db k s).
Proof.
  intros Hwf Hdt Hdb Hp. split; try done.
  - by apply wf_putBuilding.
  - intros x y t Ht. unfold tileAt, feedBuilding in *. st_simpl.
    rewrite gridGet_alter. case_decide as Hxy.
    + destruct Hxy as [-> ->]. rewrite Hdt in *. simplify_eq. simpl.
      eexists. split; [done|]. unfold fedOnly. st_simpl. rewrite Hdb.
      repeat split. intros ?. congruence.
    + eauto using fedOnly_refl.
Qed.

Lemma count_credit k s :
  gridSum tileCount (tiles (creditInventory k s)) +
    bufTotal (inventory (creditInventory k s)) =
  gridSum tileCount (tiles s) + bufTotal (inventory s) + 1.
Proof. simpl. rewrite bufTotal_add. lia. Qed.

Lemma count_feed nx ny dt db k s :
  tileAt s nx ny = Some dt → building dt = Some db →
  gridSum tileCount (tiles (feedBuilding nx ny db k s)) +
    bufTotal (inventory (feedBuilding nx ny db k s)) =
  gridSum tileCount (tiles s) + bufTotal (inventory s) + 1.
Proof.
  intros Hdt Hdb. unfold tileAt in *. st_simpl. rewrite gridSum_alter, Hdt.
  unfold tileCount. st_simpl. rewrite Hdb, bufTotal_add. lia.
Qed.

Lemma beltFeeds_inv s x y it nx ny dt it0 t b mx my :
  beltFeeds s x y it nx ny dt →
  gridGet (items s) x y = Some (Some it0) → tileAt s x y = Some t →
  building t = Some b → stepInDir x y (dir b) = (mx, my) →
  it = it0 ∧ type b = Belt ∧ nx = mx ∧ ny = my ∧ inBounds s mx my = true ∧
  tileAt s mx my = Some dt.
Proof.
  intros (Hit & (t' & b' & Ht' & Hb' & Hty & Hdir) & Hin & Hdt) Hit0 Ht Hb Hd.
  simplify_eq. rewrite Hdir in Hd. by injection Hd as <- <-.
Qed.

Lemma clearMoved_in x y s m :
  gridDims (width s) (height s) m → inBounds s x y = true →
  clearMoved x y (s, m) = Some (s, gridAlter (λ _, None) m x y).
Proof.
  intros Hd [??]%inBounds_range. unfold clearMoved. simpl.
  by erewrite itemSet_in.
Qed.

Ltac accept_or_stay :=
  match goal with
  | |- context [if ?c then clearMoved _ _ _ else _] =>
      destruct c; [|by eexists; split]
  end.

Lemma moveAt_case x y s m :
  wf s → gridDims (width s) (height s) m → inBounds s x y = true →
  ∃ st', moveAt x y (s, m) = Some st' ∧ moveCase x y s m st'.
Proof.
  intros Hwf Hm Hin. unfold moveAt.
  rewrite itemAt_in by done.
  destruct (itemCell_in _ _ _ Hwf Hin) as [oi Hoi]. rewrite Hoi. simpl.
  destruct oi as [item|].
  2:{ eexists; split; [done|]. apply move_stay. intros ???? (? & _). congruence. }
  destruct (tileAt_in _ _ _ Hwf Hin) as [t Ht]. rewrite Ht. simpl.
  destruct (building t) as [b|] eqn:Hb.
  2:{ eexists; split; [done|]. apply move_stay.
      intros ???? (_ & (? & ? & ? & ? & _) & _). congruence. }
  destruct (stepInDir x y (dir b)) as [nx ny] eqn:Hdir.
  assert (∀ it mx my dt, beltFeeds s x y it mx my dt →
            it = item ∧ type b = Belt ∧ mx = nx ∧ my = ny ∧
            inBounds s nx ny = true ∧ tileAt s nx ny = Some dt) as Hinv.
  { intros. by eapply beltFeeds_inv. }
  destruct (isBelt (type b)) eqn:Hbelt; simpl.
  2:{ eexists; split; [done|]. apply move_stay.
      intros ???? (_ & Hty & _)%Hinv. rewrite Hty in Hbelt. done. }
  assert (type b = Belt) as Hty by (by destruct (type b)).
  destruct (inBounds s nx ny) eqn:Hin'; simpl.
  2:{ eexists; split; [done|]. apply move_stay.
      intros ???? (_ & _ & _ & _ & ? & _)%Hinv. done. }
  destruct (tileAt_in _ _ _ Hwf Hin') as [dt Hdt]. rewrite Hdt. simpl.
  assert (beltFeeds s x y item nx ny dt) as Hfeeds.
  { split; [done|]. split; [|done]. eauto 10. }
  destruct (isNonBelt (building dt)) eqn:Hnb.
  - assert (moveCase x y s m (s, m)) as Hstay.
    { apply move_stay. intros ???? (_ & _ & _ & _ & _ & Hdt')%Hinv.
      rewrite Hdt in Hdt'. injection Hdt' as <-. by rewrite Hnb. }
    destruct (building dt) as [db|] eqn:Hdb; [|done].
    destruct (type db) eqn:Htdb; try (by eexists; split).
    + accept_or_stay.
      rewrite clearMoved_in by done.
      eexists; split; [done|].
      eapply (move_deliver _ _ _ _ item nx ny dt); [done|by rewrite Hdb| |].
      * eapply fed_feed; eauto. by rewrite Htdb.
      * by eapply count_feed.
    + accept_or_stay.
      rewrite clearMoved_in by done.
      eexists; split; [done|].
      eapply (move_deliver _ _ _ _ item nx ny dt); [done|by rewrite Hdb| |].
      * eapply fed_feed; eauto. by rewrite Htdb.
      * by eapply count_feed.
    + accept_or_stay.
      rewrite clearMoved_in by done.
      eexists; split; [done|].
      eapply (move_deliver _ _ _ _ item nx ny dt); [done|by rewrite Hdb| |].
      * eapply fed_feed; eauto. by rewrite Htdb.
      * by eapply count_feed.
    + rewrite clearMoved_in by done.
      eexists; split; [done|].
      eapply (move_deliver _ _ _ _ item nx ny dt);
        [done|by rewrite Hdb|by apply fed_credit|by apply count_credit].
    + rewrite clearMoved_in by done.
      eexists; split; [done|].
      eapply (move_deliver _ _ _ _ item nx ny dt);
        [done|by rewrite Hdb|by apply fed_credit|by apply count_credit].
  - pose proof Hin' as [??]%inBounds_range.
    erewrite itemGet_in by done.
    destruct (gridGet_dims _ _ m nx ny Hm) as [o Ho]; [done..|]. rewrite Ho. simpl.
    destruct o as [o|].
    + eexists; split; [done|]. apply move_stay.
      intros ???? (_ & _ & -> & -> & _)%Hinv _. eauto.
    + erewrite itemSet_in by done. simpl.
      rewrite clearMoved_in by (done || by apply gridDims_alter).
      eexists; split; [done|]. by eapply move_advance.
Qed.

(** ** Phase B as a whole *)

Lemma cloneItemGrid_id g : cloneItemGrid g = g.
Proof.
  unfold cloneItemGrid. induction g as [|row g IH]; simpl; [done|].
  rewrite IH. f_equal. induction row as [|[[]|] row IHr]; simpl; by rewrite ?IHr.
Qed.

Lemma cloneState_id s : cloneState s = s.
Proof.
  destruct s as [w h tk ts its [] []]. unfold cloneState. simpl.
  rewrite cloneItemGrid_id. f_equal.
  induction ts as [|row ts IH]; simpl; [done|]. rewrite IH. f_equal.
  induction row as [|[tr r [[ty d pr []]|]] row IHr]; simpl; by rewrite ?IHr.
Qed.

Lemma beltInv_step s0 pre x y post s m st' :
  coords (width s0) (height s0) = pre ++ (x, y) :: post →
  beltInv s0 pre (s, m) → moveCase x y s m st' →
  beltInv s0 (pre ++ [(x, y)]) st'.
Proof.
  intros Heq [Hfed Hdims Hpend Hcount] Hcase. simpl in *.
  destruct (coords_turn_in _ _ _ _ _ Heq) as [_ Hfresh].
  assert (∀ x' y', (x', y') ∉ pre ++ [(x, y)] →
            ((x', y') ∉ pre) ∧ (¬ (x' = x ∧ y' = y))) as Hnot.
  { intros x' y'. rewrite elem_of_app, list_elem_of_singleton.
    intros Hn. split; [tauto|]. intros [-> ->]. tauto. }
  destruct Hcase as [Hocc | it nx ny dt s' Hfeeds Hnb Hfed' Hcnt
                    | it nx ny dt Hfeeds Hnb Hfree].
  - split; simpl; try done. intros x' y' it' [? _]%Hnot. by apply Hpend.
  - destruct Hfeeds as (Hit & _). rewrite (fed_items _ _ Hfed) in Hit.
    split; simpl.
    + by eapply fed_trans.
    + by apply gridDims_alter.
    + intros x' y' it' [? ?]%Hnot Hit'. rewrite gridGet_alter.
      rewrite decide_False by done. by apply Hpend.
    + rewrite gridSum_alter, (Hpend x y it Hfresh Hit). simpl. lia.
  - destruct Hfeeds as (Hit & (t & b & _ & _ & _ & Hdir) & _).
    rewrite (fed_items _ _ Hfed) in Hit.
    pose proof (stepInDir_moves _ _ _ _ _ Hdir) as Hne.
    split; simpl.
    + done.
    + by do 2 apply gridDims_alter.
    + intros x' y' it' [? ?]%Hnot Hit'. rewrite !gridGet_alter.
      rewrite decide_False by done.
      rewrite decide_False; [by apply Hpend|].
      intros [-> ->]. rewrite (Hpend nx ny it') in Hfree; done.
    + rewrite !gridSum_alter, !gridGet_alter.
      rewrite decide_False by lia.
      rewrite Hfree, (Hpend x y it Hfresh Hit). simpl. lia.
Qed.

(** The second loop runs to its end from any well-formed world, keeping
    [beltInv] and whatever further invariant [Q] each body keeps. *)
Lemma transport_inv s0 (Q : list (Z * Z) → BeltState → Prop) :
  wf s0 →
  Q [] (s0, items s0) →
  (∀ pre x y post s m st',
     coords (width s0) (height s0) = pre ++ (x, y) :: post →
     beltInv s0 pre (s, m) → Q pre (s, m) → moveCase x y s m st' →
     Q (pre ++ [(x, y)]) st') →
  ∃ st', transport s0 = Some st' ∧
         beltInv s0 (coords (width s0) (height s0)) st' ∧
         Q (coords (width s0) (height s0)) st'.
Proof.
  intros Hwf HQ0 HQ. unfold transport. rewrite scanGrid_coords, cloneItemGrid_id.
  apply (forEach_prefix (λ pre st, beltInv s0 pre st ∧ Q pre st)).
  - split; [|done]. split; simpl; [by apply fed_refl|by destruct Hwf|done|done].
  - intros pre [x y] post [s m] Heq [Hinv Hq]. simpl.
    destruct (coords_turn_in _ _ _ _ _ Heq) as [Hin%elem_of_coords _].
    pose proof (bi_fed _ _ _ Hinv) as Hfed. simpl in Hfed.
    destruct (moveAt_case x y s m) as (st' & Hst' & Hcase).
    + by destruct Hfed.
    + rewrite (fed_width _ _ Hfed), (fed_height _ _ Hfed). by destruct Hinv.
    + apply inBounds_range.
      by rewrite (fed_width _ _ Hfed), (fed_height _ _ Hfed).
    + exists st'. split; [done|]. split; [by eapply beltInv_step|by eapply HQ].
Qed.

Lemma transport_keeps s0 :
  wf s0 →
  ∃ s m, transport s0 = Some (s, m) ∧
         beltInv s0 (coords (width s0) (height s0)) (s, m).
Proof.
  intros Hwf.
  destruct (transport_inv s0 (λ _ _, True) Hwf I) as ([s m] & ? & ? & _); eauto.
Qed.

(** ** One tick *)

(** [stepGame] on a well-formed world, phase by phase. *)
Lemma stepGame_phases w :
  wf w →
  ∃ s1 s2 m,
    production (withTick (tick w + 1) w) = Some s1 ∧
    transport s1 = Some (s2, m) ∧
    stepGame w = Some (withItems m s2) ∧
    keeps (withTick (tick w + 1) w) s1 ∧
    beltInv s1 (coords (width s1) (height s1)) (s2, m).
Proof.
  intros Hwf. unfold stepGame. rewrite cloneState_id.
  destruct (production_keeps (withTick (tick w + 1) w)) as (s1 & Hs1 & Hk); [done|].
  destruct (transport_keeps s1 (keeps_wf _ _ Hk)) as (s2 & m & Hs2 & Hinv).
  exists s1, s2, m. rewrite Hs1. simpl. rewrite Hs2. done.
Qed.

Lemma stepGame_keeps w :
  wf w → ∃ w', stepGame w = Some w' ∧ keeps (withTick (tick w + 1) w) w'.
Proof.
  intros Hwf.
  destruct (stepGame_phases w Hwf) as (s1 & s2 & m & _ & _ & -> & Hk & Hinv).
  eexists; split; [done|].
  destruct Hinv as [Hfed Hdims _ Hcount]. simpl in *.
  destruct Hk as [Hwf1 Hw Hh Ht Hbal Hinvt]. simpl in *.
  destruct Hfed as [Hwf2 Hw2 Hh2 Ht2 Hit2 Hst2 Hinv2 _].
  split; simpl; try congruence.
  - destruct Hwf2 as [? _]. split; simpl; [done|]. by rewrite Hw2, Hh2.
  - unfold totalItems at 1. simpl. rewrite Hst2. lia.
  - intros k. etrans; eauto.
Qed.

(** ** Belts that share a destination *)

Lemma isNonBelt_fedOnly t t' :
  fedOnly t t' → isNonBelt (building t') = isNonBelt (building t).
Proof.
  intros (_ & _ & H). destruct (building t), (building t'); try done.
  destruct H as (Hty & _). simpl. by rewrite Hty.
Qed.

Lemma fed_tile_back s s' x y t' :
  wf s → fed s s' → tileAt s' x y = Some t' →
  ∃ t, tileAt s x y = Some t ∧ fedOnly t t'.
Proof.
  intros Hwf Hfed Ht'.
  pose proof (tileAt_inBounds _ _ _ _ (fed_wf _ _ Hfed) Ht') as Hin.
  apply inBounds_range in Hin.
  rewrite (fed_width _ _ Hfed), (fed_height _ _ Hfed) in Hin.
  destruct (tileAt_in s x y Hwf) as [t Ht]; [by apply inBounds_range|].
  destruct (fed_tiles _ _ Hfed x y t Ht) as (t2 & Ht2 & Hfo).
  rewrite Ht' in Ht2. injection Ht2 as <-. eauto.
Qed.

Lemma feeder_fed s s' x y it nx ny :
  wf s → fed s s' → (feeder s x y it nx ny ↔ feeder s' x y it nx ny).
Proof.
  intros Hwf Hfed. unfold feeder, beltFeeds, inBounds.
  rewrite (fed_items _ _ Hfed), (fed_width _ _ Hfed), (fed_height _ _ Hfed).
  split.
  - intros (dt & (Hit & (t & b & Ht & Hb & Hty & Hdir) & Hin & Hdt) & Hnb).
    destruct (fed_tiles _ _ Hfed _ _ _ Ht) as (t' & Ht' & Hfo).
    destruct (fed_tiles _ _ Hfed _ _ _ Hdt) as (dt' & Hdt' & Hfo').
    exists dt'. rewrite (isNonBelt_fedOnly _ _ Hfo'). split; [|done].
    split; [done|]. split; [|done].
    destruct Hfo as (_ & _ & Hfo). rewrite Hb in Hfo.
    destruct (building t') as [b'|] eqn:Hb'; [|done].
    destruct Hfo as (Hty' & Hd' & _).
    exists t', b'. rewrite Hty', Hd'. done.
  - intros (dt' & (Hit & (t' & b' & Ht' & Hb' & Hty & Hdir) & Hin & Hdt') & Hnb).
    destruct (fed_tile_back _ _ _ _ _ Hwf Hfed Ht') as (t & Ht & Hfo).
    destruct (fed_tile_back _ _ _ _ _ Hwf Hfed Hdt') as (dt & Hdt & Hfo').
    exists dt. rewrite <- (isNonBelt_fedOnly _ _ Hfo'). split; [|done].
    split; [done|]. split; [|done].
    destruct Hfo as (_ & _ & Hfo). rewrite Hb' in Hfo.
    destruct (building t) as [b|] eqn:Hb; [|done].
    destruct Hfo as (Hty' & Hd' & _).
    exists t, b. rewrite <- Hty', <- Hd'. done.
Qed.






Section jam.
Context (s0 : GameState) (x1 y1 x2 y2 dx dy : Z) (it1 it2 : Item).
Hypothesis Hwf : wf s0.
Hypothesis Hf1 : feeder s0 x1 y1 it1 dx dy.
Hypothesis Hf2 : feeder s0 x2 y2 it2 dx dy.
Hypothesis Hne : (x1, y1) ≠ (x2, y2).
Hypothesis Hfree : gridGet (items s0) dx dy = Some None.
Hypothesis Hfirst : ∀ x y it,
  feeder s0 x y it dx dy → (x, y) ≠ (x1, y1) → rowMajorLt (x1, y1) (x, y).


End jam.


(** ** Mines *)

Lemma canPlaceItem_free s x y :
  wf s → inBounds s x y = true →
  (∃ dt, tileAt s x y = Some dt ∧ isNonBelt (building dt) = false) →
  gridGet (items s) x y = Some None →
  canPlaceItem s x y = Some true.
Proof.
  intros Hwf Hin (dt & Hdt & Hnb) Hit. unfold canPlaceItem.
  rewrite Hin, Hdt. simpl. rewrite Hnb, itemAt_in, Hit by done. done.
Qed.

Lemma canPlaceItem_blocked s x y :
  wf s →
  inBounds s x y = false ∨
  (∃ dt, tileAt s x y = Some dt ∧ isNonBelt (building dt) = true) ∨
  (∃ it, gridGet (items s) x y = Some (Some it)) →
  canPlaceItem s x y = Some false.
Proof.
  intros Hwf Hcause. unfold canPlaceItem.
  destruct (inBounds s x y) eqn:Hin; simpl; [|done].
  destruct (tileAt_in _ _ _ Hwf Hin) as [t Ht]. rewrite Ht. simpl.
  destruct (isNonBelt (building t)) eqn:Hnb; [done|].
  rewrite itemAt_in by done.
  destruct Hcause as [?|[(dt & Hdt & Hnb')|(it & Hit)]]; [done| |].
  - rewrite Ht in Hdt. injection Hdt as <-. congruence.
  - by rewrite Hit.
Qed.

Lemma mineTick_stall x y t b s nx ny :
  terrain t ≠ TEmpty → 0 < resource t →
  stepInDir x y (dir b) = (nx, ny) →
  canPlaceItem (putBuilding x y (setProgress (progress b + 1) b) s) nx ny = Some false →
  mineTick x y t b s = Some (putBuilding x y (setProgress (progress b + 1) b) s).
Proof.
  intros Hter Hres Hdir Hblocked. unfold mineTick.
  rewrite decide_False by done.
  destruct (resource t <=? 0) eqn:Hr; [lia|].
  cbv zeta. destruct (MINE_TICKS <=? _); [|done].
  simpl dir. rewrite Hdir, Hblocked. done.
Qed.

Lemma isNonBelt_sameKind t t' :
  sameKind t t' → isNonBelt (building t') = isNonBelt (building t).
Proof.
  intros [Hty _]. destruct (building t), (building t'); try done.
  simpl in *. by injection Hty as ->.
Qed.

Lemma sameKind_trans t1 t2 t3 : sameKind t1 t2 → sameKind t2 t3 → sameKind t1 t3.
Proof. intros [??] [??]. split; congruence. Qed.

Lemma fedOnly_mine t t' b :
  fedOnly t t' → building t = Some b → isProcessor (type b) = false → t' = t.
Proof.
  intros (Hter & Hres & Hb) Hbt Hty. rewrite Hbt in Hb.
  destruct t as [tr r ob], t' as [tr' r' [b'|]]; simpl in *; [|done].
  destruct Hb as (_ & _ & Hb). rewrite (Hb Hty). congruence.
Qed.

(** A run of the first loop over any cells of the grid. *)
Lemma produce_list l s :
  wf s → (∀ p, p ∈ l → inBounds s p.1 p.2 = true) →
  ∃ s', forEach (λ p, produceAt p.1 p.2) l s = Some s' ∧ keeps s s' ∧
        (∀ x0 y0, (x0, y0) ∉ l → tileAt s' x0 y0 = tileAt s x0 y0) ∧
        (∀ x0 y0 t, tileAt s x0 y0 = Some t →
           ∃ t', tileAt s' x0 y0 = Some t' ∧ sameKind t t').
Proof.
  revert s. induction l as [|[x y] l IH]; intros s Hwf Hin; simpl.
  { exists s. split_and!; eauto using keeps_refl, sameKind_refl. }
  destruct (produceAt_keeps x y s Hwf) as (s1 & -> & Hk & Hother & Hsame).
  { apply (Hin (x, y)). left. }
  simpl. destruct (IH s1) as (s2 & -> & Hk2 & Hother2 & Hsame2).
  { by destruct Hk. }
  { intros p Hp. unfold inBounds.
    rewrite (keeps_width _ _ Hk), (keeps_height _ _ Hk). apply Hin. by right. }
  exists s2. split_and!; [done|by eapply keeps_trans| |].
  - intros x0 y0 Hn. apply not_elem_of_cons in Hn as [Hn1 Hn2].
    rewrite Hother2, Hother; done.
  - intros x0 y0 t Ht.
    assert (∃ t1, tileAt s1 x0 y0 = Some t1 ∧ sameKind t t1) as (t1 & Ht1 & Hs1).
    { destruct (decide ((x0, y0) = (x, y))) as [[= -> ->]|Hn]; [by apply Hsame|].
      exists t. rewrite Hother by done. eauto using sameKind_refl. }
    destruct (Hsame2 _ _ _ Ht1) as (t2 & ? & ?). eauto using sameKind_trans.
Qed.

Lemma before_split (q : Z * Z) l :
  q ∈ l → ∃ post, l = before q l ++ q :: post.
Proof.
  induction l as [|p l IH]; [by intros ?%elem_of_nil|].
  intros Hq. simpl. destruct (decide (p = q)) as [->|Hne]; [by eexists|].
  apply elem_of_cons in Hq as [?|Hq]; [done|].
  destruct (IH Hq) as [post Hpost]. exists post. simpl. by rewrite <- Hpost.
Qed.

Lemma coords_split w h x y :
  (x, y) ∈ coords w h →
  ∃ post, coords w h = before (x, y) (coords w h) ++ (x, y) :: post ∧
          ((x, y) ∉ before (x, y) (coords w h)) ∧ ((x, y) ∉ post).
Proof.
  intros Hin. destruct (before_split _ _ Hin) as [post Hpost].
  exists post. split; [done|].
  split; [by eapply coords_turn_in|].
  pose proof (coords_sorted w h) as Hs. rewrite Hpost in Hs.
  apply StronglySorted_app in Hs as (_ & _ & Hs).
  apply StronglySorted_cons in Hs as [Hs _].
  intros Hp. eapply rowMajorLt_irrefl.
  by eapply (proj1 (Forall_forall _ _) Hs).
Qed.

(** * The claims *)

(** C7. On every well-formed world [stepGame] returns a world, that
    world's tick is the input's tick plus one, and it is well-formed
    again. *)
Theorem step_tick w :
  wf w → ∃ w', stepGame w = Some w' ∧ tick w' = tick w + 1 ∧ wf w'.
Proof.
  intros Hwf. destruct (stepGame_keeps w Hwf) as (w' & -> & Hk).
  exists w'. split; [done|]. by destruct Hk.
Qed.

Lemma step_tick_witness :
  ∃ w', stepGame crossWorld = Some w' ∧ tick w' = tick crossWorld + 1 ∧ wf w'.
Proof.
  apply (step_tick crossWorld).
  split; (split; [reflexivity|repeat constructor]).
Defined.

(** C10. A tick on a well-formed world never lowers an inventory count. *)
Theorem step_inventory_mono w :
  wf w →
  ∃ w', stepGame w = Some w' ∧
        ∀ k, bufGet (inventory w) k ≤ bufGet (inventory w') k.
Proof.
  intros Hwf. destruct (stepGame_keeps w Hwf) as (w' & -> & Hk).
  exists w'. split; [done|]. by destruct Hk.
Qed.

Lemma step_inventory_mono_witness :
  ∃ w', stepGame jamWorld = Some w' ∧
        ∀ k, bufGet (inventory jamWorld) k ≤ bufGet (inventory w') k.
Proof.
  apply (step_inventory_mono jamWorld).
  split; (split; [reflexivity|repeat constructor]).
Defined.

(** C1, as stated: the item count of a tick changes by the number of
    ores mined in it and by nothing else.  It fails on [assemblerWorld]:
    no mine is there, and the assembler turns two plates into one gear. *)
Lemma conservation_counterexample :
  ¬ (∀ w w', wf w → stepGame w = Some w' →
       totalItems w' - totalItems w =
       (ironMined (stats w') + copperMined (stats w')) -
       (ironMined (stats w) + copperMined (stats w))).
Proof.
  intros H.
  assert (wf assemblerWorld) as Hwf
    by (split; (split; [reflexivity|repeat constructor])).
  destruct (stepGame assemblerWorld) as [w'|] eqn:Hstep; [|by vm_compute in Hstep].
  specialize (H assemblerWorld w' Hwf Hstep).
  vm_compute in Hstep. injection Hstep as <-. vm_compute in H. done.
Qed.

(** C1, amended.  Over one tick of a well-formed world the count of
    ground items, buffered items and inventory changes by +1 for each ore
    mined and by -1 for each gear crafted (two plates become one gear);
    every other move of an item leaves the count as it is. *)
Theorem step_conservation w :
  wf w →
  ∃ w', stepGame w = Some w' ∧
        totalItems w' - totalItems w =
        (ironMined (stats w') + copperMined (stats w')
           - (ironMined (stats w) + copperMined (stats w)))
        - (gearsCrafted (stats w') - gearsCrafted (stats w)).
Proof.
  intros Hwf. destruct (stepGame_keeps w Hwf) as (w' & -> & Hk).
  exists w'. split; [done|]. destruct Hk as [_ _ _ _ Hbal _].
  unfold netProduced, totalItems in *. simpl in Hbal. lia.
Qed.

Lemma step_conservation_witness :
  ∃ w', stepGame assemblerWorld = Some w' ∧
        totalItems w' - totalItems assemblerWorld =
        (ironMined (stats w') + copperMined (stats w')
           - (ironMined (stats assemblerWorld) + copperMined (stats assemblerWorld)))
        - (gearsCrafted (stats w') - gearsCrafted (stats assemblerWorld)).
Proof.
  apply (step_conservation assemblerWorld).
  split; (split; [reflexivity|repeat constructor]).
Defined.




(** C4, as stated: a step leaves the progress of a blocked mine as it
    is.  The mine of [stalledWorld] faces the edge of the grid with
    progress 4; one tick later its progress is 5. *)
Lemma stall_counterexample :
  inBounds stalledWorld 0 (-1) = false ∧
  progress <$> (tileAt stalledWorld 0 0 ≫= building) = Some 4 ∧
  ∃ w', stepGame stalledWorld = Some w' ∧
        progress <$> (tileAt w' 0 0 ≫= building) = Some 5 ∧
        resource <$> tileAt w' 0 0 = Some 5.
Proof.
  split; [reflexivity|]. split; [reflexivity|].
  eexists. split; [vm_compute; reflexivity|]. by split.
Qed.

(** C4, amended.  A mine on an ore tile with resource left, whose
    target is out of bounds, holds a building that is no belt, or holds a
    ground item when the first loop reaches the mine, is not reset by the
    tick and keeps its tile's resource and terrain; its progress is not
    held at four but goes on counting, one more each tick. *)
Theorem mine_stalled w x y t b nx ny :
  wf w → tileAt w x y = Some t → building t = Some b → type b = Mine →
  terrain t ≠ TEmpty → 0 < resource t →
  stepInDir x y (dir b) = (nx, ny) →
  inBounds w nx ny = false ∨
  (∃ dt, tileAt w nx ny = Some dt ∧ isNonBelt (building dt) = true) ∨
  (∃ s1 it, stateAt w x y = Some s1 ∧ gridGet (items s1) nx ny = Some (Some it)) →
  ∃ w', stepGame w = Some w' ∧
        tileAt w' x y =
          Some (mkTile (terrain t) (resource t)
                  (Some (setProgress (progress b + 1) b))).
Proof.
  intros Hwf Ht Hb Hty Hter Hres Hdir Hcause.
  set (w1 := withTick (tick w + 1) w).
  assert (wf w1) as Hwf1 by done.
  assert ((x, y) ∈ coords (width w1) (height w1)) as Hxy.
  { apply elem_of_coords. destruct Hwf as [Hd _]. by eapply gridGet_range. }
  destruct (coords_split _ _ _ _ Hxy) as (post & Hsplit & Hpre & Hpost).
  (* up to the mine *)
  destruct (produce_list (before (x, y) (coords (width w1) (height w1))) w1 Hwf1)
    as (s1 & Hrun1 & Hk1 & Hother1 & Hsame1).
  { intros [px py] Hp. apply inBounds_range, elem_of_coords.
    rewrite Hsplit, elem_of_app. by left. }
  assert (stateAt w x y = Some s1) as Hat.
  { unfold stateAt. by rewrite cloneState_id. }
  pose proof (keeps_wf _ _ Hk1) as Hwfs1.
  assert (tileAt s1 x y = Some t) as Ht1 by (by rewrite Hother1).
  (* the mine's turn *)
  set (b1 := setProgress (progress b + 1) b).
  pose proof (stepInDir_moves _ _ _ _ _ Hdir) as Hmoves.
  assert (produceAt x y s1 = Some (putBuilding x y b1 s1)) as Hturn.
  { unfold produceAt. rewrite Ht1. simpl. rewrite Hb, Hty.
    apply (mineTick_stall x y t b s1 nx ny); [done..|].
    apply canPlaceItem_blocked; [by apply wf_putBuilding|].
    destruct Hcause as [Hout|[(dt & Hdt & Hnb)|(s1' & it & Hat' & Hit)]].
    - left. unfold inBounds in *. simpl.
      by rewrite (keeps_width _ _ Hk1), (keeps_height _ _ Hk1).
    - right; left. destruct (Hsame1 nx ny dt Hdt) as (dt' & Hdt' & Hkind).
      exists dt'. split; [|by rewrite (isNonBelt_sameKind _ _ Hkind)].
      unfold tileAt in *. st_simpl. rewrite gridGet_alter_ne; [done|].
      intros [= -> ->]. lia.
    - right; right. rewrite Hat in Hat'. injection Hat' as <-. eauto. }
  (* after the mine *)
  destruct (produce_list post (putBuilding x y b1 s1) (wf_putBuilding _ _ _ _ Hwfs1))
    as (s3 & Hrun3 & Hk3 & Hother3 & _).
  { intros [px py] Hp. apply inBounds_range. simpl.
    rewrite (keeps_width _ _ Hk1), (keeps_height _ _ Hk1).
    apply elem_of_coords. rewrite Hsplit, elem_of_app, elem_of_cons. auto. }
  assert (production w1 = Some s3) as Hprod.
  { unfold production. rewrite scanGrid_coords, Hsplit, forEach_app, Hrun1.
    simpl. rewrite Hturn. simpl. done. }
  assert (tileAt s3 x y = Some (setBuilding (Some b1) t)) as Ht3.
  { rewrite Hother3 by done. unfold tileAt in *. st_simpl.
    by rewrite gridGet_alter_eq, Ht1. }
  (* the belts *)
  destruct (transport_keeps s3 (keeps_wf _ _ Hk3)) as (s4 & m & Hrun4 & Hinv).
  pose proof (bi_fed _ _ _ Hinv) as Hfed. simpl in Hfed.
  destruct (fed_tiles _ _ Hfed _ _ _ Ht3) as (t4 & Ht4 & Hfo).
  apply (fedOnly_mine _ _ b1) in Hfo; [|done|by simpl; rewrite Hty]. subst t4.
  exists (withItems m s4). split.
  - unfold stepGame. rewrite cloneState_id. fold w1. rewrite Hprod. simpl.
    by rewrite Hrun4.
  - done.
Qed.

Lemma mine_stalled_witness :
  ∃ w', stepGame blockedWorld = Some w' ∧
        tileAt w' 0 0 =
          Some (mkTile TCopper 5 (Some (mkBuilding Mine Right 7 createBuffer))).
Proof.
  apply (mine_stalled blockedWorld 0 0
           (mkTile TCopper 5 (Some (mkBuilding Mine Right 6 createBuffer)))
           (mkBuilding Mine Right 6 createBuffer) 1 0).
  - split; (split; [reflexivity|repeat constructor]).
  - reflexivity.
  - reflexivity.
  - reflexivity.
  - discriminate.
  - simpl. lia.
  - reflexivity.
  - right; right. eexists _, _. split; reflexivity.
Defined.

Lemma affordAll_spec inv cost :
  affordAll inv cost = true ↔
  ∀ item amount, (item, amount) ∈ cost → amount ≤ bufGet inv item.
Proof.
  induction cost as [|[i n] cost IH]; simpl.
  - split; [|done]. by intros _ ?? ?%elem_of_nil.
  - destruct (Z.ltb_spec (bufGet inv i) n).
    + split; [done|]. intros H'. specialize (H' i n (list_elem_of_here _ _)). lia.
    + rewrite IH. split.
      * intros H' item amount [[= -> ->]|?]%elem_of_cons; [lia|by apply H'].
      * intros H' item amount ?. apply H'. by right.
Qed.

Lemma spendAll_costOf inv t k :
  bufGet (spendAll inv (BUILD_COSTS t)) k = bufGet inv k - costOf t k.
Proof. destruct t, k; unfold costOf; simpl; lia. Qed.

(** C5.  [placeBuilding] with a building tool returns its input when the
    cost is not covered; when it is covered and (x,y) lies in a
    well-formed world it takes the cost off the inventory and sets the
    building with progress 0 and an all-zero buffer on the tile; and
    [canAffordBuild] holds exactly when every entry of the cost table is
    covered by the inventory. *)
Theorem place_affordability w x y T d :
  (canAffordBuild w T = false → placeBuilding w x y (Build T) d = Some w) ∧
  (canAffordBuild w T = true → wf w → inBounds w x y = true →
   ∃ w' t, placeBuilding w x y (Build T) d = Some w' ∧
           tileAt w x y = Some t ∧
           (∀ k, bufGet (inventory w') k = bufGet (inventory w) k - costOf T k) ∧
           tileAt w' x y =
             Some (mkTile (terrain t) (resource t)
                     (Some (mkBuilding T d 0 (mkBuffer 0 0 0 0 0 0))))) ∧
  (canAffordBuild w T = true ↔
   ∀ item amount, (item, amount) ∈ BUILD_COSTS T → amount ≤ bufGet (inventory w) item).
Proof.
  split_and!.
  - intros Hno. unfold placeBuilding. rewrite cloneState_id, Hno. simpl.
    by destruct (_ || _).
  - intros Hyes Hwf Hin. unfold placeBuilding. rewrite cloneState_id, Hyes.
    pose proof Hin as [??]%inBounds_range.
    destruct (Z.ltb_spec x 0), (Z.ltb_spec y 0), (Z.leb_spec (width w) x),
      (Z.leb_spec (height w) y); try lia. simpl.
    destruct (tileAt_in _ _ _ Hwf Hin) as [t Ht].
    unfold tileAt, spendBuildCost in *. st_simpl. rewrite !Ht. simpl.
    assert (∀ w1 : GameState,
              tiles w1 = gridAlter
                (setBuilding (Some (mkBuilding T d 0 createBuffer))) (tiles w) x y →
              inventory w1 = spendAll (inventory w) (BUILD_COSTS T) →
              (∀ k, bufGet (inventory w1) k = bufGet (inventory w) k - costOf T k) ∧
              gridGet (tiles w1) x y =
                Some (mkTile (terrain t) (resource t)
                        (Some (mkBuilding T d 0 (mkBuffer 0 0 0 0 0 0))))) as Hres.
    { intros w1 -> ->. split; [intros k; apply spendAll_costOf|].
      by rewrite gridGet_alter_eq, Ht. }
    destruct (isBelt T); simpl.
    + eexists _, t. split; [reflexivity|]. split; [done|]. by apply Hres.
    + rewrite setItemAt_in.
      * eexists _, t. split; [reflexivity|]. split; [done|]. by apply Hres.
      * destruct Hwf as [??]. split; [by apply gridDims_alter|done].
      * done.
  - apply affordAll_spec.
Qed.

Lemma place_affordability_witness :
  placeBuilding brokeWorld 1 1 (Build Belt) Right = Some brokeWorld.
Proof.
  apply (proj1 (place_affordability brokeWorld 1 1 Belt Right)).
  reflexivity.
Defined.

(** ** Snapshot normaliser *)

Lemma lookup_map {A B} (f : A → B) (l : list A) (i : nat) :
  map f l !! i = f <$> l !! i.
Proof. revert i. induction l as [|a l IH]; intros [|i]; simpl; auto. Qed.

Lemma gridGet_map {A B} (f : A → B) (g : list (list A)) x y :
  gridGet (map (λ row, map f row) g) x y = f <$> gridGet g x y.
Proof.
  unfold gridGet, jsGet. destruct (decide (0 ≤ y)); [|done].
  rewrite lookup_map. destruct (g !! Z.to_nat y) as [row|]; simpl; [|done].
  destruct (decide (0 ≤ x)); [|done]. by rewrite lookup_map.
Qed.

Ltac look :=
  repeat first
    [ rewrite lookup_insert_eq
    | rewrite lookup_insert_ne by done
    | rewrite lookup_empty ].

Section buffers.
Local Open Scope string_scope.

Lemma createBuffer_lookup :
  Raw.createBuffer !! "iron-ore" = Some 0 ∧
  Raw.createBuffer !! "copper-ore" = Some 0 ∧
  Raw.createBuffer !! "iron-plate" = Some 0 ∧
  Raw.createBuffer !! "copper-plate" = Some 0 ∧
  Raw.createBuffer !! "gear" = Some 0 ∧
  Raw.createBuffer !! "wire" = Some 0.
Proof. unfold Raw.createBuffer. split_and!; by look. Qed.

(** The six assignments of [normalizeBuffer], each on a slot that holds 0. *)
Lemma normalizeBuffer_eq b :
  Raw.normalizeBuffer b =
  <["wire" := Raw.nullish (b !! "wire") 0]>
  (<["gear" := Raw.nullish (b !! "gear") 0]>
  (<["copper-plate" := Raw.nullish (b !! "copper-plate") 0]>
  (<["iron-plate" := Raw.nullish (b !! "iron-plate") (Raw.nullish (b !! "plate") 0)]>
  (<["copper-ore" := Raw.nullish (b !! "copper-ore") 0]>
  (<["iron-ore" := Raw.nullish (b !! "iron-ore") (Raw.nullish (b !! "ore") 0)]>
     Raw.createBuffer))))).
Proof.
  destruct createBuffer_lookup as (H1 & H2 & H3 & H4 & H5 & H6).
  unfold Raw.normalizeBuffer, Raw.addTo. cbv zeta.
  look. rewrite H1, H2, H3, H4, H5, H6. simpl. by rewrite !Z.add_0_l.
Qed.

Lemma normalizeBuffer_idem b :
  Raw.normalizeBuffer (Raw.normalizeBuffer b) = Raw.normalizeBuffer b.
Proof.
  rewrite (normalizeBuffer_eq (Raw.normalizeBuffer b)).
  rewrite (normalizeBuffer_eq b) at 1 2 3 4 5 6 7 8.
  look. simpl. by rewrite <- normalizeBuffer_eq.
Qed.
End buffers.

Lemma normalizeTerrain_idem t :
  Raw.normalizeTerrain (Raw.normalizeTerrain t) = Raw.normalizeTerrain t.
Proof. unfold Raw.normalizeTerrain. by repeat case_decide. Qed.

Lemma normalizeTile_idem t :
  Raw.normalizeTile (Raw.normalizeTile t) = Raw.normalizeTile t.
Proof.
  destruct t as [tr r ob]. unfold Raw.normalizeTile. simpl.
  rewrite normalizeTerrain_idem. f_equal.
  destruct ob as [[ty d pr bf]|]; simpl; [|done].
  by rewrite normalizeBuffer_idem.
Qed.

Lemma normalizeItemType_idem ty ty' :
  Raw.normalizeItemType ty = Some ty' → Raw.normalizeItemType ty' = Some ty'.
Proof.
  unfold Raw.normalizeItemType.
  repeat case_decide; intros [= <-]; try done;
    repeat case_decide; try done;
    match goal with H : _ ∉ _ |- _ => exfalso; apply H end;
    rewrite !elem_of_cons; auto.
Qed.

Lemma normalizeItem_idem o :
  Raw.normalizeItem (Raw.normalizeItem o) = Raw.normalizeItem o.
Proof.
  destruct o as [[ty]|]; simpl; [|done].
  destruct (Raw.normalizeItemType ty) as [ty'|] eqn:Hty; simpl; [|done].
  by rewrite (normalizeItemType_idem _ _ Hty).
Qed.

Lemma normalizeStats_idem st :
  Raw.normalizeStats (Some (Raw.normalizeStats st)) = Raw.normalizeStats st.
Proof.
  unfold Raw.normalizeStats at 1. unfold Raw.statOf at 1 2 3 4 5 6 7 8. simpl.
  unfold Raw.normalizeStats. by simplify_map_eq.
Qed.

Lemma map_map_idem {A} (f : A → A) (g : list (list A)) :
  (∀ a, f (f a) = f a) →
  map (λ row, map f row) (map (λ row, map f row) g) = map (λ row, map f row) g.
Proof.
  intros Hf. rewrite map_map. apply map_ext. intros row.
  rewrite map_map. by apply map_ext.
Qed.

(** C8.  Normalising a normalised snapshot changes nothing. *)
Theorem normalize_idempotent w :
  Raw.normalizeState (Raw.normalizeState w) = Raw.normalizeState w.
Proof.
  destruct w as [wd ht tk ts its inv st]. unfold Raw.normalizeState. simpl.
  rewrite (map_map_idem _ _ normalizeTile_idem).
  rewrite (map_map_idem _ _ normalizeItem_idem).
  unfold Raw.normalizeInventory. by rewrite normalizeBuffer_idem, normalizeStats_idem.
Qed.

(** * Further properties *)

(** ** Sound worlds over a tick *)

Lemma statsLe_refl a : statsLe a a.
Proof. unfold statsLe. lia. Qed.

Lemma statsLe_trans a b c : statsLe a b → statsLe b c → statsLe a c.
Proof. unfold statsLe. lia. Qed.

Lemma tileStep_refl t : tileStep t t.
Proof. unfold tileStep. split_and!; auto using sameKind_refl. lia. Qed.

Lemma isMine_sameKind t t' : sameKind t t' → isMine (building t') = isMine (building t).
Proof.
  intros [Hty _]. destruct (building t), (building t'); try done.
  simpl in *. by injection Hty as ->.
Qed.

Lemma tileStep_trans t1 t2 t3 : tileStep t1 t2 → tileStep t2 t3 → tileStep t1 t3.
Proof.
  intros (Hk & Hr & Ht & Hm & Hok) (Hk' & Hr' & Ht' & Hm' & Hok').
  split_and!.
  - by eapply sameKind_trans.
  - lia.
  - destruct Ht as [E|E], Ht' as [E'|E']; first [left; congruence|right; congruence].
  - intros Hno. destruct (Hm Hno) as [<- <-]. apply Hm'.
    by rewrite (isMine_sameKind _ _ Hk).
  - auto.
Qed.

Lemma tidy_refl x y s : tidy x y s s.
Proof. split; [apply statsLe_refl|]. eauto using tileStep_refl. Qed.

Lemma tidy_trans x y s1 s2 s3 : tidy x y s1 s2 → tidy x y s2 s3 → tidy x y s1 s3.
Proof.
  intros [Hs Ht] [Hs' Ht']. split; [by eapply statsLe_trans|].
  intros t H1. destruct (Ht t H1) as (t2 & H2 & ?).
  destruct (Ht' t2 H2) as (t3 & H3 & ?). eauto using tileStep_trans.
Qed.

Ltac tidy_fin :=
  intros;
  repeat match goal with H : _ ∧ _ |- _ => destruct H end;
  repeat split; intros;
  first [ lia | done | tauto | congruence
        | left; reflexivity | right; reflexivity ].

(** Closes [tidy x y s s'] for [s'] a chain of updates of [s]. *)
Ltac tidy_tac :=
  split;
  [ unfold statsLe, bumpIronMined, bumpCopperMined, bumpIronPlates,
      bumpCopperPlates, bumpGearsCrafted, bumpWiresCrafted; st_simpl; simpl; lia
  | let t0 := fresh "t0" in
    let Ht0 := fresh "Ht0" in
    intros t0 Ht0; unfold tileAt in *; st_simpl; rewrite ?gridGet_alter_eq;
    rewrite Ht0; simplify_eq; simpl; eexists; split; [reflexivity|];
    unfold tileStep, sameKind, tileOk, buildingOk, bufNonneg, withinCapacity, isMine;
    st_simpl;
    repeat match goal with
           | H : building _ = _ |- _ => rewrite !H; clear H
           end;
    repeat match goal with
           | H : type _ = _ |- _ => rewrite !H; clear H
           end;
    simpl; split_and!; tidy_fin ].

Lemma mineTick_tidy x y t b s :
  wf s → tileAt s x y = Some t → building t = Some b → type b = Mine →
  ∃ s', mineTick x y t b s = Some s' ∧ tidy x y s s'.
Proof.
  intros Hwf Ht Hb Hty. unfold mineTick.
  destruct (decide (terrain t = TEmpty)); [eauto using tidy_refl|].
  destruct (Z.leb_spec (resource t) 0); [eauto using tidy_refl|].
  set (b1 := setProgress (progress b + 1) b).
  set (s1 := putBuilding x y b1 s).
  assert (wf s1) as Hwf1 by by apply wf_putBuilding.
  destruct (MINE_TICKS <=? progress b1).
  2:{ eexists; split; [done|]. subst s1 b1. tidy_tac. }
  destruct (stepInDir x y (dir b1)) as [nx ny] eqn:Hdir.
  destruct (canPlaceItem_total s1 nx ny Hwf1) as [ok Hok]. rewrite Hok. simpl.
  destruct ok.
  2:{ eexists; split; [done|]. subst s1 b1. tidy_tac. }
  apply canPlaceItem_true in Hok as (Hin & Hit & _); [|done].
  rewrite setItemAt_in by done. simpl.
  subst s1 b1.
  destruct (Z.leb_spec (resource t - 1) 0), (decide (terrain t = TIron));
    (eexists; split; [done|]); tidy_tac.
Qed.

Ltac tintake_none :=
  eexists _, _; split; [done|]; split; [by apply tidy_refl|done].

Ltac tintake_some Ht :=
  eexists _, _; split; [done|]; split;
  [ tidy_tac
  | split; [|done]; eexists; split;
    [unfold tileAt in *; st_simpl; grid_simpl; by rewrite Ht | done] ].

Lemma furnaceIntake_tidy x y b s :
  wf s → holds x y b s → type b = Furnace →
  ∃ b1 s1, furnaceIntake x y b s = Some (b1, s1) ∧ tidy x y s s1 ∧
           holds x y b1 s1 ∧ type b1 = Furnace.
Proof.
  intros Hwf Hh Hty. pose proof Hh as (t & Ht & Hb). unfold furnaceIntake. simpl.
  destruct (Z.eqb_spec (iron_ore (buffer b)) 0); simpl; [|tintake_none].
  destruct (Z.eqb_spec (copper_ore (buffer b)) 0); simpl; [|tintake_none].
  unfold findNeighborItemByTypes.
  destruct (findNeighborWith_total (λ i, bool_decide (item_type i ∈ [IronOre; CopperOre]))
              s x y DIRECTIONS Hwf) as [nb Hnb].
  rewrite Hnb. simpl. destruct nb as [[nx ny]|]; [|tintake_none].
  apply findNeighborWith_found in Hnb as (Hin & i & Hi & Hp); [|done].
  rewrite itemAt_in, Hi by done. simpl.
  rewrite setItemAt_in by done. simpl.
  destruct (item_type i); try (by vm_compute in Hp); tintake_some Ht.
Qed.

Lemma assemblerIntake_tidy x y b s :
  wf s → holds x y b s → type b = Assembler →
  ∃ b1 s1, assemblerIntake x y b s = Some (b1, s1) ∧ tidy x y s s1 ∧
           holds x y b1 s1 ∧ type b1 = Assembler.
Proof.
  intros Hwf Hh Hty. pose proof Hh as (t & Ht & Hb). unfold assemblerIntake. simpl.
  destruct (Z.ltb_spec (iron_plate (buffer b)) 2); [|tintake_none].
  unfold findNeighborItem.
  destruct (findNeighborWith_total (λ i, bool_decide (item_type i = IronPlate))
              s x y DIRECTIONS Hwf) as [nb Hnb].
  rewrite Hnb. simpl. destruct nb as [[nx ny]|]; [|tintake_none].
  apply findNeighborWith_found in Hnb as (Hin & i & Hi & _); [|done].
  rewrite setItemAt_in by done. simpl. tintake_some Ht.
Qed.

Lemma wireMillIntake_tidy x y b s :
  wf s → holds x y b s → type b = WireMill →
  ∃ b1 s1, wireMillIntake x y b s = Some (b1, s1) ∧ tidy x y s s1 ∧
           holds x y b1 s1 ∧ type b1 = WireMill.
Proof.
  intros Hwf Hh Hty. pose proof Hh as (t & Ht & Hb). unfold wireMillIntake. simpl.
  destruct (Z.ltb_spec (copper_plate (buffer b)) 1); [|tintake_none].
  unfold findNeighborItem.
  destruct (findNeighborWith_total (λ i, bool_decide (item_type i = CopperPlate))
              s x y DIRECTIONS Hwf) as [nb Hnb].
  rewrite Hnb. simpl. destruct nb as [[nx ny]|]; [|tintake_none].
  apply findNeighborWith_found in Hnb as (Hin & i & Hi & _); [|done].
  rewrite setItemAt_in by done. simpl. tintake_some Ht.
Qed.

Ltac toutput_tac Hwf :=
  match goal with
  | |- context [if ?c <=? ?p then _ else _] =>
      destruct (c <=? p);
      [|eexists; split; [done|]; tidy_tac]
  end;
  match goal with
  | |- context [stepInDir ?x ?y ?d] =>
      let nx := fresh "nx" in
      let ny := fresh "ny" in
      destruct (stepInDir x y d) as [nx ny]
  end;
  match goal with
  | |- context [canPlaceItem ?s1 ?mx ?my] =>
      let Hok := fresh "Hok" in
      let ok := fresh "ok" in
      destruct (canPlaceItem_total s1 mx my (wf_putBuilding _ _ _ _ Hwf)) as [ok Hok];
      rewrite Hok; simpl; destruct ok;
      [ apply canPlaceItem_true in Hok as (? & ? & _);
        [|by apply wf_putBuilding];
        rewrite setItemAt_in by (done || by apply wf_putBuilding); simpl
      | eexists; split; [done|]; tidy_tac ]
  end.

Lemma furnaceOutput_tidy x y b s :
  wf s → holds x y b s → type b = Furnace →
  ∃ s', furnaceOutput x y b s = Some s' ∧ tidy x y s s'.
Proof.
  intros Hwf (t & Ht & Hb) Hty. unfold furnaceOutput. simpl.
  destruct (Z.ltb_spec 0 (iron_ore (buffer b)));
    [|destruct (Z.ltb_spec 0 (copper_ore (buffer b)))];
    [| |eauto using tidy_refl];
    cbv zeta; toutput_tac Hwf; simpl; (eexists; split; [done|]); tidy_tac.
Qed.

Lemma assemblerOutput_tidy x y b s :
  wf s → holds x y b s → type b = Assembler →
  ∃ s', assemblerOutput x y b s = Some s' ∧ tidy x y s s'.
Proof.
  intros Hwf (t & Ht & Hb) Hty. unfold assemblerOutput. simpl.
  destruct (Z.leb_spec 2 (iron_plate (buffer b))); [|eauto using tidy_refl].
  cbv zeta. toutput_tac Hwf.
  eexists; split; [done|]; tidy_tac.
Qed.

Lemma wireMillOutput_tidy x y b s :
  wf s → holds x y b s → type b = WireMill →
  ∃ s', wireMillOutput x y b s = Some s' ∧ tidy x y s s'.
Proof.
  intros Hwf (t & Ht & Hb) Hty. unfold wireMillOutput. simpl.
  destruct (Z.leb_spec 1 (copper_plate (buffer b))); [|eauto using tidy_refl].
  cbv zeta. toutput_tac Hwf.
  eexists; split; [done|]; tidy_tac.
Qed.

Lemma hubTick_tidy x y s :
  wf s → ∃ s', hubTick x y s = Some s' ∧ tidy x y s s'.
Proof.
  intros Hwf. unfold hubTick, findNeighborItemAny.
  destruct (findNeighborWith_total (λ _, true) s x y DIRECTIONS Hwf) as [nb Hnb].
  rewrite Hnb. simpl. destruct nb as [[nx ny]|]; [|eauto using tidy_refl].
  apply findNeighborWith_found in Hnb as (Hin & i & Hi & _); [|done].
  rewrite itemAt_in, Hi by done. simpl.
  rewrite setItemAt_in by done. simpl.
  eexists; split; [done|]. split; [apply statsLe_refl|].
  intros t Ht. exists t. split; [done|apply tileStep_refl].
Qed.

Lemma produceAt_tidy x y s :
  wf s → inBounds s x y = true → ∃ s', produceAt x y s = Some s' ∧ tidy x y s s'.
Proof.
  intros Hwf Hin. unfold produceAt.
  destruct (tileAt_in _ _ _ Hwf Hin) as [t Ht]. rewrite Ht. simpl.
  destruct (building t) as [b|] eqn:Hb; [|eauto using tidy_refl].
  assert (holds x y b s) as Hh by (by exists t).
  destruct (type b) eqn:Hty; eauto using tidy_refl, mineTick_tidy, hubTick_tidy.
  - unfold furnaceTick.
    destruct (furnaceIntake_tidy x y b s Hwf Hh Hty) as (b1 & s1 & Hrun & Hk & Hh1 & Hty1).
    destruct (furnaceIntake_keeps x y b s Hwf Hh) as (b1' & s1' & Hrun' & [Hk' _] & _).
    rewrite Hrun in Hrun'. injection Hrun' as <- <-. rewrite Hrun. simpl.
    destruct (furnaceOutput_tidy x y b1 s1 (keeps_wf _ _ Hk') Hh1 Hty1) as (s' & -> & ?).
    eauto using tidy_trans.
  - unfold assemblerTick.
    destruct (assemblerIntake_tidy x y b s Hwf Hh Hty) as (b1 & s1 & Hrun & Hk & Hh1 & Hty1).
    destruct (assemblerIntake_keeps x y b s Hwf Hh) as (b1' & s1' & Hrun' & [Hk' _] & _).
    rewrite Hrun in Hrun'. injection Hrun' as <- <-. rewrite Hrun. simpl.
    destruct (assemblerOutput_tidy x y b1 s1 (keeps_wf _ _ Hk') Hh1 Hty1) as (s' & -> & ?).
    eauto using tidy_trans.
  - unfold wireMillTick.
    destruct (wireMillIntake_tidy x y b s Hwf Hh Hty) as (b1 & s1 & Hrun & Hk & Hh1 & Hty1).
    destruct (wireMillIntake_keeps x y b s Hwf Hh) as (b1' & s1' & Hrun' & [Hk' _] & _).
    rewrite Hrun in Hrun'. injection Hrun' as <- <-. rewrite Hrun. simpl.
    destruct (wireMillOutput_tidy x y b1 s1 (keeps_wf _ _ Hk') Hh1 Hty1) as (s' & -> & ?).
    eauto using tidy_trans.
Qed.

Lemma tilesStep_refl s : tilesStep s s.
Proof. intros x y t Ht. eauto using tileStep_refl. Qed.

Lemma tilesStep_trans s1 s2 s3 : tilesStep s1 s2 → tilesStep s2 s3 → tilesStep s1 s3.
Proof.
  intros H12 H23 x y t Ht. destruct (H12 _ _ _ Ht) as (t2 & Ht2 & ?).
  destruct (H23 _ _ _ Ht2) as (t3 & ? & ?). eauto using tileStep_trans.
Qed.

Lemma produceAt_tilesStep x y s :
  wf s → inBounds s x y = true →
  ∃ s', produceAt x y s = Some s' ∧ keeps s s' ∧
        statsLe (stats s) (stats s') ∧ tilesStep s s'.
Proof.
  intros Hwf Hin.
  destruct (produceAt_keeps x y s Hwf Hin) as (s' & Hrun & Hk & Hother & _).
  destruct (produceAt_tidy x y s Hwf Hin) as (s2 & Hrun2 & Hst & Htile).
  rewrite Hrun in Hrun2. injection Hrun2 as <-.
  exists s'. split_and!; try done.
  intros x0 y0 t Ht. destruct (decide ((x0, y0) = (x, y))) as [[= -> ->]|Hne].
  - by apply Htile.
  - exists t. rewrite Hother by done. split; [done|apply tileStep_refl].
Qed.

Lemma produce_list_tilesStep l s :
  wf s → (∀ p, p ∈ l → inBounds s p.1 p.2 = true) →
  ∃ s', forEach (λ p, produceAt p.1 p.2) l s = Some s' ∧ keeps s s' ∧
        statsLe (stats s) (stats s') ∧ tilesStep s s'.
Proof.
  revert s. induction l as [|[x y] l IH]; intros s Hwf Hin; simpl.
  { exists s. split_and!; eauto using keeps_refl, statsLe_refl, tilesStep_refl. }
  destruct (produceAt_tilesStep x y s Hwf) as (s1 & -> & Hk & Hst & Hts).
  { apply (Hin (x, y)). left. }
  simpl. destruct (IH s1) as (s2 & -> & Hk2 & Hst2 & Hts2).
  { by destruct Hk. }
  { intros p Hp. unfold inBounds.
    rewrite (keeps_width _ _ Hk), (keeps_height _ _ Hk). apply Hin. by right. }
  exists s2. split_and!; eauto using keeps_trans, statsLe_trans, tilesStep_trans.
Qed.

Lemma production_tilesStep s :
  wf s →
  ∃ s', production s = Some s' ∧ keeps s s' ∧
        statsLe (stats s) (stats s') ∧ tilesStep s s'.
Proof.
  intros Hwf. unfold production. rewrite scanGrid_coords.
  apply produce_list_tilesStep; [done|].
  intros [x y] Hp%elem_of_coords. by apply inBounds_range.
Qed.

(** A processor fed by a belt. *)
Lemma feed_tilesStep nx ny dt db k s :
  tileAt s nx ny = Some dt → building dt = Some db →
  (buildingOk db →
   buildingOk (setProgress 0 (setBuffer (bufAdd k 1 (buffer db)) db))) →
  tilesStep s (feedBuilding nx ny db k s).
Proof.
  intros Hdt Hdb Hok x y t Ht. unfold tileAt, feedBuilding in *. st_simpl.
  rewrite gridGet_alter. case_decide as Hxy; [|eauto using tileStep_refl].
  destruct Hxy as [-> ->]. rewrite Hdt in *. simplify_eq. simpl.
  eexists. split; [done|].
  unfold tileStep, sameKind, tileOk, isMine. st_simpl. rewrite Hdb. simpl.
  split_and!; try done; try lia; try (by left).
  intros (? & ? & ?). split_and!; try done. by apply Hok.
Qed.

Ltac accept_or_stay' :=
  match goal with
  | |- context [if ?c then clearMoved _ _ _ else _] =>
      destruct c eqn:?; [|eexists; split; [done|apply tilesStep_refl]]
  end.

Lemma moveAt_tilesStep x y s m :
  wf s → gridDims (width s) (height s) m → inBounds s x y = true →
  ∃ st', moveAt x y (s, m) = Some st' ∧ tilesStep s st'.1.
Proof.
  intros Hwf Hm Hin. unfold moveAt.
  rewrite itemAt_in by done.
  destruct (itemCell_in _ _ _ Hwf Hin) as [oi Hoi]. rewrite Hoi. simpl.
  destruct oi as [item|]; [|eexists; split; [done|apply tilesStep_refl]].
  destruct (tileAt_in _ _ _ Hwf Hin) as [t Ht]. rewrite Ht. simpl.
  destruct (building t) as [b|] eqn:Hb; [|eexists; split; [done|apply tilesStep_refl]].
  destruct (stepInDir x y (dir b)) as [nx ny] eqn:Hdir.
  destruct (isBelt (type b)) eqn:Hbelt; simpl;
    [|eexists; split; [done|apply tilesStep_refl]].
  destruct (inBounds s nx ny) eqn:Hin'; simpl;
    [|eexists; split; [done|apply tilesStep_refl]].
  destruct (tileAt_in _ _ _ Hwf Hin') as [dt Hdt]. rewrite Hdt. simpl.
  destruct (isNonBelt (building dt)) eqn:Hnb.
  - destruct (building dt) as [db|] eqn:Hdb; [|done].
    destruct (type db) eqn:Htdb;
      try (eexists; split; [done|apply tilesStep_refl]).
    + accept_or_stay'. rewrite clearMoved_in by done.
      eexists; split; [done|]. simpl. eapply feed_tilesStep; [done..|].
      repeat match goal with H : _ && _ = true |- _ => apply andb_true_iff in H as [??] end.
      repeat match goal with H : (_ =? _) = true |- _ => apply Z.eqb_eq in H end.
      unfold buildingOk, bufNonneg, withinCapacity. simpl. rewrite Htdb.
      simpl in *. destruct (item_type item); simpl in *; try done;
        intros (?&(?&?&?&?&?&?)&?); split_and!; lia.
    + accept_or_stay'. rewrite clearMoved_in by done.
      eexists; split; [done|]. simpl. eapply feed_tilesStep; [done..|].
      repeat match goal with H : _ && _ = true |- _ => apply andb_true_iff in H as [??] end.
      repeat match goal with H : (_ <? _) = true |- _ => apply Z.ltb_lt in H end.
      unfold buildingOk, bufNonneg, withinCapacity. simpl. rewrite Htdb.
      simpl in *. intros (?&(?&?&?&?&?&?)&?); split_and!; lia.
    + accept_or_stay'. rewrite clearMoved_in by done.
      eexists; split; [done|]. simpl. eapply feed_tilesStep; [done..|].
      repeat match goal with H : _ && _ = true |- _ => apply andb_true_iff in H as [??] end.
      repeat match goal with H : (_ <? _) = true |- _ => apply Z.ltb_lt in H end.
      unfold buildingOk, bufNonneg, withinCapacity. simpl. rewrite Htdb.
      simpl in *. intros (?&(?&?&?&?&?&?)&?); split_and!; lia.
    + rewrite clearMoved_in by done.
      eexists; split; [done|]. intros x0 y0 t0 Ht0. exists t0.
      split; [done|apply tileStep_refl].
    + rewrite clearMoved_in by done.
      eexists; split; [done|]. intros x0 y0 t0 Ht0. exists t0.
      split; [done|apply tileStep_refl].
  - pose proof Hin' as [??]%inBounds_range.
    erewrite itemGet_in by done.
    destruct (gridGet_dims _ _ m nx ny Hm) as [o Ho]; [done..|]. rewrite Ho. simpl.
    destruct o as [o|]; [eexists; split; [done|apply tilesStep_refl]|].
    erewrite itemSet_in by done. simpl.
    rewrite clearMoved_in by (done || by apply gridDims_alter).
    eexists; split; [done|apply tilesStep_refl].
Qed.

(** [transport_inv], with the run of [moveAt] at hand in the step. *)
Lemma transport_run s0 (Q : list (Z * Z) → BeltState → Prop) :
  wf s0 →
  Q [] (s0, items s0) →
  (∀ pre x y post s m st',
     coords (width s0) (height s0) = pre ++ (x, y) :: post →
     beltInv s0 pre (s, m) → Q pre (s, m) →
     moveAt x y (s, m) = Some st' → moveCase x y s m st' →
     Q (pre ++ [(x, y)]) st') →
  ∃ st', transport s0 = Some st' ∧
         beltInv s0 (coords (width s0) (height s0)) st' ∧
         Q (coords (width s0) (height s0)) st'.
Proof.
  intros Hwf HQ0 HQ. unfold transport. rewrite scanGrid_coords, cloneItemGrid_id.
  apply (forEach_prefix (λ pre st, beltInv s0 pre st ∧ Q pre st)).
  - split; [|done]. split; simpl; [by apply fed_refl|by destruct Hwf|done|done].
  - intros pre [x y] post [s m] Heq [Hinv Hq]. simpl.
    destruct (coords_turn_in _ _ _ _ _ Heq) as [Hin%elem_of_coords _].
    pose proof (bi_fed _ _ _ Hinv) as Hfed. simpl in Hfed.
    destruct (moveAt_case x y s m) as (st' & Hst' & Hcase).
    + by destruct Hfed.
    + rewrite (fed_width _ _ Hfed), (fed_height _ _ Hfed). by destruct Hinv.
    + apply inBounds_range.
      by rewrite (fed_width _ _ Hfed), (fed_height _ _ Hfed).
    + exists st'. split; [done|]. split; [by eapply beltInv_step|by eapply HQ].
Qed.

Lemma transport_tilesStep s0 :
  wf s0 →
  ∃ s m, transport s0 = Some (s, m) ∧
         beltInv s0 (coords (width s0) (height s0)) (s, m) ∧ tilesStep s0 s.
Proof.
  intros Hwf.
  destruct (transport_run s0 (λ _ st, tilesStep s0 st.1) Hwf) as ([s m] & ? & ? & ?).
  - apply tilesStep_refl.
  - intros pre x y post s m st' Heq Hinv Hq Hrun _. simpl in Hq.
    pose proof (bi_fed _ _ _ Hinv) as Hfed. simpl in Hfed.
    destruct (coords_turn_in _ _ _ _ _ Heq) as [Hin%elem_of_coords _].
    destruct (moveAt_tilesStep x y s m) as (st2 & Hrun2 & Hts).
    + by destruct Hfed.
    + rewrite (fed_width _ _ Hfed), (fed_height _ _ Hfed). by destruct Hinv.
    + apply inBounds_range.
      by rewrite (fed_width _ _ Hfed), (fed_height _ _ Hfed).
    + rewrite Hrun in Hrun2. injection Hrun2 as <-. by eapply tilesStep_trans.
  - eauto.
Qed.

(** One tick, with everything the two loops keep. *)
Lemma stepGame_summary w :
  wf w →
  ∃ w', stepGame w = Some w' ∧ keeps (withTick (tick w + 1) w) w' ∧
        statsLe (stats w) (stats w') ∧ tilesStep w w'.
Proof.
  intros Hwf.
  destruct (production_tilesStep (withTick (tick w + 1) w) Hwf)
    as (s1 & Hs1 & Hk1 & Hst1 & Hts1).
  destruct (transport_tilesStep s1 (keeps_wf _ _ Hk1)) as (s2 & m & Hs2 & Hinv & Hts2).
  destruct (stepGame_keeps w Hwf) as (w' & Hstep & Hk).
  exists w'. split; [done|]. split; [done|].
  unfold stepGame in Hstep. rewrite cloneState_id, Hs1 in Hstep. simpl in Hstep.
  rewrite Hs2 in Hstep. simpl in Hstep. injection Hstep as <-.
  pose proof (bi_fed _ _ _ Hinv) as Hfed. simpl in Hfed. split.
  - simpl. by rewrite (fed_stats _ _ Hfed).
  - intros x y t Ht. destruct (Hts1 x y t Ht) as (t1 & Ht1 & ?).
    destruct (Hts2 x y t1 Ht1) as (t2 & Ht2 & ?).
    exists t2. split; [done|by eapply tileStep_trans].
Qed.

Lemma stepGame_valid w :
  valid w → ∃ w', stepGame w = Some w' ∧ valid w'.
Proof.
  intros (Hwf & Htick & Htiles & Hinv & Hstats).
  destruct (stepGame_summary w Hwf) as (w' & Hstep & Hk & Hst & Hts).
  exists w'. split; [done|]. destruct Hk as [Hwf' _ _ Htk _ Hmono]. simpl in *.
  split_and!; [done|lia| | |].
  - intros x y t' Ht'.
    assert (inBounds w x y = true) as Hin.
    { pose proof (tileAt_inBounds _ _ _ _ Hwf' Ht') as Hin.
      destruct (stepGame_keeps w Hwf) as (w2 & Hstep2 & [_ Hw Hh _ _ _]).
      rewrite Hstep in Hstep2. injection Hstep2 as <-.
      unfold inBounds in *. simpl in *. by rewrite <- Hw, <- Hh. }
    destruct (tileAt_in _ _ _ Hwf Hin) as [t Ht].
    destruct (Hts _ _ _ Ht) as (t2 & Ht2 & (_ & _ & _ & _ & Hok)).
    rewrite Ht' in Ht2. injection Ht2 as <-. apply Hok. by eapply Htiles.
  - destruct Hinv as (?&?&?&?&?&?).
    pose proof (Hmono IronOre). pose proof (Hmono CopperOre).
    pose proof (Hmono IronPlate). pose proof (Hmono CopperPlate).
    pose proof (Hmono Gear). pose proof (Hmono Wire).
    unfold bufNonneg. simpl in *. lia.
  - unfold statsNonneg, statsLe in *. simpl in *. lia.
Qed.

(** X1.  A tick of a sound world returns a sound world: it raises no
    error, and no count, progress or resource turns negative, no
    processor is overfilled, and ore terrain still has resource. *)
Theorem step_valid w :
  valid w → ∃ w', stepGame w = Some w' ∧ valid w'.
Proof. apply stepGame_valid. Qed.

(** X2.  No counter of [stats] ever goes down in a tick. *)
Theorem step_stats_mono w :
  wf w → ∃ w', stepGame w = Some w' ∧ statsLe (stats w) (stats w').
Proof.
  intros Hwf. destruct (stepGame_summary w Hwf) as (w' & ? & _ & ? & _). eauto.
Qed.

(** X3.  A tick builds nothing, removes nothing and turns nothing: every
    tile keeps its building, of the same type and direction, or keeps
    having none. *)
Theorem step_buildings_fixed w :
  wf w →
  ∃ w', stepGame w = Some w' ∧
        ∀ x y t, tileAt w x y = Some t →
          ∃ t', tileAt w' x y = Some t' ∧
                type <$> building t' = type <$> building t ∧
                dir <$> building t' = dir <$> building t.
Proof.
  intros Hwf. destruct (stepGame_summary w Hwf) as (w' & ? & _ & _ & Hts).
  exists w'. split; [done|]. intros x y t Ht.
  destruct (Hts x y t Ht) as (t' & ? & [??] & _). eauto.
Qed.

(** X4.  A tick never raises the resource of a tile and changes terrain
    only to empty; a tile that holds no mine keeps both, and a tile with
    no building is left as it is. *)
Theorem step_terrain w :
  wf w →
  ∃ w', stepGame w = Some w' ∧
        ∀ x y t, tileAt w x y = Some t →
          ∃ t', tileAt w' x y = Some t' ∧
                resource t' ≤ resource t ∧
                (terrain t' = terrain t ∨ terrain t' = TEmpty) ∧
                (isMine (building t) = false →
                 terrain t' = terrain t ∧ resource t' = resource t) ∧
                (building t = None → t' = t).
Proof.
  intros Hwf. destruct (stepGame_summary w Hwf) as (w' & ? & _ & _ & Hts).
  exists w'. split; [done|]. intros x y t Ht.
  destruct (Hts x y t Ht) as (t' & ? & [Hty _] & ? & ? & Hm & _).
  exists t'. split_and!; try done.
  intros Hb. rewrite Hb in *. destruct (Hm eq_refl) as [??].
  destruct t as [tr r ob], t' as [tr' r' [b'|]]; simpl in *; [done|].
  congruence.
Qed.

Lemma forEach_fixed {I S} (body : I → S → option S) l s :
  (∀ i, i ∈ l → body i s = Some s) → forEach body l s = Some s.
Proof.
  induction l as [|i l IH]; intros H; simpl; [done|].
  rewrite (H i) by left. simpl. apply IH. intros j Hj. apply H. by right.
Qed.

(** X5.  A world without buildings is inert: a tick only advances its
    tick counter. *)
Theorem step_inert w :
  wf w → (∀ x y t, tileAt w x y = Some t → building t = None) →
  stepGame w = Some (withTick (tick w + 1) w).
Proof.
  intros Hwf Hnone. unfold stepGame. rewrite cloneState_id. cbv zeta.
  set (w1 := withTick (tick w + 1) w).
  assert (production w1 = Some w1) as ->.
  { unfold production. rewrite scanGrid_coords. apply forEach_fixed.
    intros [x y] Hp%elem_of_coords. simpl. unfold produceAt.
    destruct (tileAt_in w1 x y Hwf) as [t Ht]; [by apply inBounds_range|].
    rewrite Ht. simpl. by rewrite (Hnone x y t Ht). }
  simpl.
  assert (transport w1 = Some (w1, items w1)) as ->.
  { unfold transport. rewrite scanGrid_coords, cloneItemGrid_id.
    apply forEach_fixed. intros [x y] Hp%elem_of_coords. simpl.
    assert (inBounds w1 x y = true) as Hin by by apply inBounds_range.
    rewrite itemAt_in by done.
    destruct (itemCell_in w1 x y Hwf Hin) as [oi ->]. simpl.
    destruct oi; [|done].
    destruct (tileAt_in w1 x y Hwf Hin) as [t Ht].
    rewrite Ht. simpl. by rewrite (Hnone x y t Ht). }
  simpl. by destruct w.
Qed.

(** n ticks in a row. *)
Lemma stepN_app n m w :
  stepN (n + m) w = stepN n w ≫= stepN m.
Proof.
  revert w. induction n as [|n IH]; intros w; simpl; [done|].
  destruct (stepGame w) as [w1|]; simpl; [apply IH|done].
Qed.

(** X6.  Ticks compose: n ticks on a well-formed world return a
    well-formed world whose tick counter is n higher, whose inventory
    counts and stats are not lower, and whose item count has changed by
    the ores mined less the gears crafted. *)
Theorem stepN_keeps n w :
  wf w →
  ∃ w', stepN n w = Some w' ∧ wf w' ∧ tick w' = tick w + Z.of_nat n ∧
        width w' = width w ∧ height w' = height w ∧
        (∀ k, bufGet (inventory w) k ≤ bufGet (inventory w') k) ∧
        statsLe (stats w) (stats w') ∧
        totalItems w' - totalItems w = netProduced (stats w') - netProduced (stats w).
Proof.
  revert w. induction n as [|n IH]; intros w Hwf.
  - exists w. simpl. split_and!; try done; try lia; apply statsLe_refl.
  - destruct (stepGame_summary w Hwf) as (w1 & Hstep & Hk & Hst & _).
    destruct Hk as [Hwf1 Hw Hh Htk Hbal Hinv]. simpl in *.
    destruct (IH w1 Hwf1) as (w' & Hrun & ? & ? & ? & ? & Hinv' & ? & ?).
    exists w'. rewrite Hstep. simpl. split_and!; try done; try lia.
    + intros k. etrans; [apply Hinv|apply Hinv'].
    + by eapply statsLe_trans.
    + unfold totalItems in *. simpl in *. lia.
Qed.

(** ** Neighbour search and item provenance *)

Lemma findNeighborWith_spec p s x y dirs :
  wf s →
  (findNeighborWith p s x y dirs = Some None ∧
   ∀ d, d ∈ dirs → ¬ neighborHit p s x y d) ∨
  (∃ pre d post,
     dirs = pre ++ d :: post ∧
     findNeighborWith p s x y dirs = Some (Some (stepInDir x y d)) ∧
     neighborHit p s x y d ∧
     ∀ d', d' ∈ pre → ¬ neighborHit p s x y d').
Proof.
  intros Hwf. induction dirs as [|d ds IH]; simpl.
  { left. split; [done|]. by intros d ?%elem_of_nil. }
  unfold neighborHit in *.
  destruct (stepInDir x y d) as [nx ny] eqn:Hdir.
  assert (∀ P : Prop,
            ¬ (∃ i, inBounds s (stepInDir x y d).1 (stepInDir x y d).2 = true ∧
                    gridGet (items s) (stepInDir x y d).1 (stepInDir x y d).2
                      = Some (Some i) ∧ p i = true) →
            (findNeighborWith p s x y ds = Some None ∧
              (∀ d0, d0 ∈ d :: ds →
                 ¬ (∃ i, inBounds s (stepInDir x y d0).1 (stepInDir x y d0).2 = true ∧
                         gridGet (items s) (stepInDir x y d0).1 (stepInDir x y d0).2
                           = Some (Some i) ∧ p i = true))) ∨
            (∃ pre d0 post,
               d :: ds = pre ++ d0 :: post ∧
               findNeighborWith p s x y ds = Some (Some (stepInDir x y d0)) ∧
               (∃ i, inBounds s (stepInDir x y d0).1 (stepInDir x y d0).2 = true ∧
                     gridGet (items s) (stepInDir x y d0).1 (stepInDir x y d0).2
                       = Some (Some i) ∧ p i = true) ∧
               ∀ d', d' ∈ pre →
                 ¬ (∃ i, inBounds s (stepInDir x y d').1 (stepInDir x y d').2 = true ∧
                         gridGet (items s) (stepInDir x y d').1 (stepInDir x y d').2
                           = Some (Some i) ∧ p i = true))) as Hskip.
  { intros _ Hmiss. destruct IH as [[Hnone Hall]|(pre & d0 & post & -> & Hrun & Hhit & Hpre)].
    - left. split; [done|]. intros d0 [->|?]%elem_of_cons; auto.
    - right. exists (d :: pre), d0, post. split; [done|]. split; [done|].
      split; [done|]. intros d' [->|?]%elem_of_cons; auto. }
  destruct (inBounds s nx ny) eqn:Hb; simpl.
  2:{ apply (Hskip True). rewrite Hdir. simpl. intros (i & ? & _). congruence. }
  rewrite itemAt_in by done.
  destruct (itemCell_in _ _ _ Hwf Hb) as [it Hit]. rewrite Hit. simpl.
  destruct it as [i|].
  2:{ apply (Hskip True). rewrite Hdir. simpl. intros (i & _ & ? & _). congruence. }
  destruct (p i) eqn:Hp.
  2:{ apply (Hskip True). rewrite Hdir. simpl. intros (i' & _ & ? & ?). congruence. }
  right. exists [], d, ds. split; [done|]. rewrite Hdir. simpl.
  split; [done|]. split; [eauto|]. by intros d' ?%elem_of_nil.
Qed.

Lemma beltFeeds_fed_back s s' x y it nx ny dt' :
  wf s → fed s s' → beltFeeds s' x y it nx ny dt' →
  ∃ dt, beltFeeds s x y it nx ny dt ∧
        isNonBelt (building dt) = isNonBelt (building dt').
Proof.
  intros Hwf Hfed. unfold beltFeeds, inBounds.
  rewrite (fed_items _ _ Hfed), (fed_width _ _ Hfed), (fed_height _ _ Hfed).
  intros (Hit & (t' & b' & Ht' & Hb' & Hty & Hdir) & Hin & Hdt').
  destruct (fed_tile_back _ _ _ _ _ Hwf Hfed Ht') as (t & Ht & Hfo).
  destruct (fed_tile_back _ _ _ _ _ Hwf Hfed Hdt') as (dt & Hdt & Hfo').
  exists dt. rewrite <- (isNonBelt_fedOnly _ _ Hfo'). split; [|done].
  split; [done|]. split; [|done].
  destruct Hfo as (_ & _ & Hfo). rewrite Hb' in Hfo.
  destruct (building t) as [b|] eqn:Hb; [|done].
  destruct Hfo as (Hty' & Hd' & _).
  exists t, b. rewrite <- Hty', <- Hd'. done.
Qed.

Lemma carryInv_step s0 pre x y s m st' :
  wf s0 → beltInv s0 pre (s, m) → carryInv s0 (s, m) → moveCase x y s m st' →
  carryInv s0 st'.
Proof.
  intros Hwf [Hfed _ _ _] [Hstay Hfrom] Hcase. simpl in *.
  destruct Hcase as [Hocc | it nx ny dt s' Hfeeds Hnb Hfed' Hcnt
                    | it nx ny dt Hfeeds Hnb Hfree].
  - done.
  - destruct (beltFeeds_fed_back _ _ _ _ _ _ _ _ Hwf Hfed Hfeeds) as (dt0 & Hf0 & _).
    split; simpl.
    + intros x' y' it' Hit' Hno. rewrite gridGet_alter.
      rewrite decide_False; [by apply Hstay|].
      intros [-> ->]. pose proof Hf0 as (Hit0 & _).
      rewrite Hit' in Hit0. injection Hit0 as ->. by eapply Hno.
    + intros x' y' it'. rewrite gridGet_alter.
      destruct (decide (x' = x ∧ y' = y)) as [[-> ->]|Hne].
      * destruct (gridGet m x y); simpl; intros [=].
      * apply Hfrom.
  - destruct (beltFeeds_fed_back _ _ _ _ _ _ _ _ Hwf Hfed Hfeeds) as (dt0 & Hf0 & Hnb0).
    split; simpl.
    + intros x' y' it' Hit' Hno. rewrite !gridGet_alter.
      rewrite decide_False.
      2:{ intros [-> ->]. pose proof Hf0 as (Hit0 & _).
          rewrite Hit' in Hit0. injection Hit0 as ->. by eapply Hno. }
      rewrite decide_False; [by apply Hstay|].
      intros [-> ->]. rewrite (Hstay nx ny it') in Hfree; done.
    + intros x' y' it'. rewrite !gridGet_alter.
      destruct (decide (x' = x ∧ y' = y)) as [[-> ->]|Hne].
      { rewrite Hfree.
        destruct (decide (x = nx ∧ y = ny)); destruct (gridGet m x y); simpl;
          intros [=]. }
      destruct (decide (x' = nx ∧ y' = ny)) as [[-> ->]|Hne'].
      * rewrite Hfree. simpl. intros [= <-]. right. exists x, y, dt0.
        split; [done|congruence].
      * apply Hfrom.
Qed.

Lemma transport_carry s :
  wf s →
  ∃ s' m, transport s = Some (s', m) ∧
          beltInv s (coords (width s) (height s)) (s', m) ∧ carryInv s (s', m).
Proof.
  intros Hwf.
  destruct (transport_inv s (λ _ st, carryInv s st) Hwf) as ([s' m] & ? & ? & ?).
  - split; simpl; [done|]. intros; by left.
  - intros pre x y post s1 m st' _ Hinv Hq Hcase. by eapply carryInv_step.
  - eauto.
Qed.

(** X7.  Where the items lie after a tick, against the world [s1] the
    first loop leaves: an item on the ground either lay on its tile
    already or was carried there by a belt of [s1] aimed at the tile,
    and an item that no belt carries towards a tile in bounds has not
    moved. *)
Theorem step_item_provenance w :
  wf w →
  ∃ s1 w', production (withTick (tick w + 1) w) = Some s1 ∧
    stepGame w = Some w' ∧
    (∀ x y it, gridGet (items w') x y = Some (Some it) →
       gridGet (items s1) x y = Some (Some it) ∨ ∃ px py, feeder s1 px py it x y) ∧
    (∀ x y it, gridGet (items s1) x y = Some (Some it) →
       (∀ nx ny dt, ¬ beltFeeds s1 x y it nx ny dt) →
       gridGet (items w') x y = Some (Some it)).
Proof.
  intros Hwf.
  destruct (stepGame_phases w Hwf) as (s1 & s2 & m & Hs1 & Hs2 & Hstep & Hk & _).
  destruct (transport_carry s1 (keeps_wf _ _ Hk)) as (s' & m' & Hrun & _ & Hstay & Hfrom).
  rewrite Hs2 in Hrun. injection Hrun as <- <-.
  exists s1, (withItems m s2). done.
Qed.

(** X8.  The three neighbour searches return the first of the tiles
    above, right of, below and left of (x,y) that is in bounds and holds
    an item they accept, and nothing when no such tile exists. *)
Theorem findNeighbor_first s x y :
  wf s →
  (∀ ty, firstHit (λ i, bool_decide (item_type i = ty)) s x y
           (findNeighborItem s x y ty)) ∧
  (∀ tys, firstHit (λ i, bool_decide (item_type i ∈ tys)) s x y
            (findNeighborItemByTypes s x y tys)) ∧
  firstHit (λ _, true) s x y (findNeighborItemAny s x y).
Proof.
  intros Hwf. split_and!; intros; by apply findNeighborWith_spec.
Qed.

(** ** Placement *)

(** [placeBuilding] on a well-formed world, the clone dropped. *)
Lemma placeBuilding_wf s x y tool d :
  wf s →
  placeBuilding s x y tool d =
  Some (if inBounds s x y then
          match tool with
          | Erase => modTile x y (setBuilding None) s
          | Build t =>
              if canAffordBuild s t then
                let s1 := modTile x y (setBuilding (Some (mkBuilding t d 0 createBuffer)))
                            (spendBuildCost s t) in
                if isBelt t then s1 else putItem x y None s1
              else s
          end
        else s).
Proof.
  intros Hwf. unfold placeBuilding. rewrite cloneState_id.
  destruct (inBounds s x y) eqn:Hin.
  - pose proof Hin as [??]%inBounds_range.
    destruct (Z.ltb_spec x 0), (Z.ltb_spec y 0), (Z.leb_spec (width s) x),
      (Z.leb_spec (height s) y); try lia. simpl.
    destruct (tileAt_in _ _ _ Hwf Hin) as [t Ht].
    destruct tool as [T|]; [|by rewrite Ht].
    destruct (canAffordBuild s T); simpl; [|done].
    unfold tileAt, spendBuildCost in *. st_simpl. rewrite Ht. simpl.
    destruct (isBelt T); simpl; [done|].
    rewrite setItemAt_in; [done| |done].
    destruct Hwf as [??]. split; [by apply gridDims_alter|done].
  - assert ((x <? 0) || (y <? 0) || (width s <=? x) || (height s <=? y) = true)
      as ->; [|done].
    unfold inBounds in Hin.
    destruct (Z.ltb_spec x 0), (Z.leb_spec 0 x), (Z.ltb_spec y 0), (Z.leb_spec 0 y),
      (Z.leb_spec (width s) x), (Z.ltb_spec x (width s)),
      (Z.leb_spec (height s) y), (Z.ltb_spec y (height s)); simpl in *; try done; lia.
Qed.

Lemma costOf_nonneg t k : 0 ≤ costOf t k.
Proof. destruct t, k; unfold costOf; simpl; lia. Qed.

Lemma costOf_afford s t k :
  canAffordBuild s t = true → 0 ≤ bufGet (inventory s) k →
  costOf t k ≤ bufGet (inventory s) k.
Proof.
  unfold canAffordBuild. intros H Hk.
  destruct t; simpl in H;
    repeat match type of H with
           | context [?a <? ?b] => destruct (Z.ltb_spec a b); [done|]
           end;
    destruct k; unfold costOf; simpl in *; lia.
Qed.

Lemma bufNonneg_get b : bufNonneg b ↔ ∀ k, 0 ≤ bufGet b k.
Proof.
  unfold bufNonneg. split.
  - intros (?&?&?&?&?&?) []; simpl; done.
  - intros H. split_and!;
      [apply (H IronOre)|apply (H CopperOre)|apply (H IronPlate)
      |apply (H CopperPlate)|apply (H Gear)|apply (H Wire)].
Qed.

Lemma placeBuilding_frame s x y tool d :
  wf s →
  ∃ s', placeBuilding s x y tool d = Some s' ∧
        wf s' ∧ width s' = width s ∧ height s' = height s ∧
        tick s' = tick s ∧ stats s' = stats s ∧
        (∀ k, bufGet (inventory s') k ≤ bufGet (inventory s) k) ∧
        (∀ x0 y0, (x0, y0) ≠ (x, y) →
           tileAt s' x0 y0 = tileAt s x0 y0 ∧
           gridGet (items s') x0 y0 = gridGet (items s) x0 y0) ∧
        (∀ t, tileAt s x y = Some t →
           ∃ t', tileAt s' x y = Some t' ∧
                 terrain t' = terrain t ∧ resource t' = resource t).
Proof.
  intros Hwf. rewrite placeBuilding_wf by done. eexists; split; [reflexivity|].
  assert (∀ k, bufGet (inventory s) k ≤ bufGet (inventory s) k) as Hrefl by (intros; lia).
  assert (∀ t, tileAt s x y = Some t →
            ∃ t', tileAt s x y = Some t' ∧
                 terrain t' = terrain t ∧ resource t' = resource t) as Hsame by eauto.
  destruct (inBounds s x y) eqn:Hin; [|done].
  destruct tool as [T|].
  - destruct (canAffordBuild s T) eqn:Haff; [|done].
    assert (∀ k, bufGet (spendAll (inventory s) (BUILD_COSTS T)) k
                 ≤ bufGet (inventory s) k) as Hinv.
    { intros k. rewrite spendAll_costOf. pose proof (costOf_nonneg T k). lia. }
    destruct Hwf as [Ht Hi].
    destruct (isBelt T); unfold tileAt, spendBuildCost; st_simpl.
    + split; [split; [by apply gridDims_alter|done]|].
      split_and!; try done.
      * intros x0 y0 Hne. by rewrite gridGet_alter_ne.
      * intros t Hxy. rewrite gridGet_alter_eq, Hxy. simpl. eauto.
    + split; [split; by apply gridDims_alter|].
      split_and!; try done.
      * intros x0 y0 Hne. by rewrite !gridGet_alter_ne.
      * intros t Hxy. rewrite gridGet_alter_eq, Hxy. simpl. eauto.
  - destruct Hwf as [Ht Hi]. unfold tileAt; st_simpl.
    split; [split; [by apply gridDims_alter|done]|].
    split_and!; try done.
    + intros x0 y0 Hne. by rewrite gridGet_alter_ne.
    + intros t Hxy. rewrite gridGet_alter_eq, Hxy. simpl. eauto.
Qed.

(** X10.  Erasing gives nothing back: the building on (x,y) is gone with
    whatever it held, the inventory and the items on the ground are as
    they were, and erasing again changes nothing. *)
Theorem erase_no_refund s x y d :
  wf s →
  ∃ s', placeBuilding s x y Erase d = Some s' ∧
        inventory s' = inventory s ∧ items s' = items s ∧
        (∀ t, tileAt s x y = Some t →
           tileAt s' x y = Some (mkTile (terrain t) (resource t) None)) ∧
        placeBuilding s' x y Erase d = Some s'.
Proof.
  intros Hwf. rewrite placeBuilding_wf by done.
  destruct (inBounds s x y) eqn:Hin.
  2:{ eexists; split; [reflexivity|]. split_and!; try done.
      - intros t Ht. apply tileAt_inBounds in Ht; [congruence|done].
      - rewrite placeBuilding_wf by done. by rewrite Hin. }
  eexists; split; [reflexivity|]. split_and!; try done.
  - intros t Ht. unfold tileAt in *. st_simpl. by rewrite gridGet_alter_eq, Ht.
  - rewrite placeBuilding_wf.
    2:{ destruct Hwf. split; [by apply gridDims_alter|done]. }
    unfold inBounds in *. st_simpl. rewrite Hin. f_equal.
    destruct s as [w h tk ts its inv st]. unfold modTile, withTiles. simpl. f_equal.
    unfold gridAlter. case_decide; [|done].
    rewrite list_alter_alter_eq. apply list_alter_ext; [|done].
    intros row _. simpl. rewrite list_alter_alter_eq. by apply list_alter_ext.
Qed.

Lemma placeBuilding_valid s x y tool d :
  valid s → ∃ s', placeBuilding s x y tool d = Some s' ∧ valid s'.
Proof.
  intros (Hwf & Htick & Htiles & Hinv & Hstats).
  destruct (placeBuilding_frame s x y tool d Hwf)
    as (s' & Hrun & Hwf' & Hw & Hh & Htk & Hst & _ & Hother & Hhere).
  exists s'. split; [done|].
  rewrite placeBuilding_wf in Hrun by done. injection Hrun as Hs'.
  split_and!; [done|lia| | |by rewrite Hst].
  - intros x0 y0 t' Ht'.
    destruct (decide ((x0, y0) = (x, y))) as [[= -> ->]|Hne].
    2:{ destruct (Hother x0 y0 Hne) as [Heq _]. rewrite Heq in Ht'. eauto. }
    assert (inBounds s x y = true) as Hin.
    { apply tileAt_inBounds in Ht'; [|done].
      unfold inBounds in *. by rewrite <- Hw, <- Hh. }
    destruct (tileAt_in _ _ _ Hwf Hin) as [t Ht].
    pose proof (Htiles x y t Ht) as (Hr & Hte & Hb).
    rewrite Hin in Hs'. subst s'.
    destruct tool as [T|].
    + destruct (canAffordBuild s T); [|rewrite Ht in Ht'; injection Ht' as <-; done].
      assert (t' = mkTile (terrain t) (resource t)
                     (Some (mkBuilding T d 0 createBuffer))) as ->.
      { unfold tileAt, spendBuildCost in *.
        destruct (isBelt T); st_simpl; rewrite gridGet_alter_eq, Ht in Ht';
          by injection Ht' as <-. }
      split_and!; try done.
      unfold buildingOk, bufNonneg, withinCapacity. simpl.
      split_and!; try lia. destruct T; simpl; first [lia|done].
    + unfold tileAt in *. st_simpl. rewrite gridGet_alter_eq, Ht in Ht'.
      injection Ht' as <-. done.
  - apply bufNonneg_get. intros k.
    apply bufNonneg_get with (k := k) in Hinv as Hk.
    subst s'. destruct (inBounds s x y); [|done].
    destruct tool as [T|]; [|done].
    destruct (canAffordBuild s T) eqn:Haff; [|done].
    pose proof (costOf_afford s T k Haff Hk).
    assert (bufGet (spendAll (inventory s) (BUILD_COSTS T)) k =
            bufGet (inventory s) k - costOf T k) as Hsp by apply spendAll_costOf.
    destruct (isBelt T); unfold spendBuildCost; st_simpl; lia.
Qed.

(** X9.  A placement, whatever the tool and wherever the click, raises
    no error on a well-formed world and touches nothing but the tile and
    the ground slot at (x,y) and the inventory: the size, the tick, the
    stats, the terrain and resource under the building and every other
    tile and item are as before, and no inventory count goes up. *)
Theorem place_frame s x y tool d :
  wf s →
  ∃ s', placeBuilding s x y tool d = Some s' ∧
        wf s' ∧ width s' = width s ∧ height s' = height s ∧
        tick s' = tick s ∧ stats s' = stats s ∧
        (∀ k, bufGet (inventory s') k ≤ bufGet (inventory s) k) ∧
        (∀ x0 y0, (x0, y0) ≠ (x, y) →
           tileAt s' x0 y0 = tileAt s x0 y0 ∧
           gridGet (items s') x0 y0 = gridGet (items s) x0 y0) ∧
        (∀ t, tileAt s x y = Some t →
           ∃ t', tileAt s' x y = Some t' ∧
                 terrain t' = terrain t ∧ resource t' = resource t).
Proof. apply placeBuilding_frame. Qed.

(** X11.  A placement on a sound world returns a sound world: the
    affordability test keeps every inventory count at zero or above. *)
Theorem place_valid s x y tool d :
  valid s → ∃ s', placeBuilding s x y tool d = Some s' ∧ valid s'.
Proof. apply placeBuilding_valid. Qed.

(** X12.  A building that is not a belt, once paid for, wipes the item
    lying on its tile; a belt leaves the item where it is. *)
Theorem place_ground_item s x y T d :
  wf s → inBounds s x y = true → canAffordBuild s T = true →
  ∃ s', placeBuilding s x y (Build T) d = Some s' ∧
        items s' = if isBelt T then items s
                   else gridAlter (λ _, None) (items s) x y.
Proof.
  intros Hwf Hin Haff. rewrite placeBuilding_wf by done. rewrite Hin, Haff.
  eexists; split; [reflexivity|]. by destruct (isBelt T).
Qed.

(** X13.  The affordability test [handlePlace] makes before it calls
    [placeBuilding] never changes the world that results: the new world
    is the one [placeBuilding] alone returns. *)
Theorem handlePlace_world p x y tool d :
  fst <$> handlePlace (Some p) x y tool d = Some <$> placeBuilding p x y tool d.
Proof.
  unfold handlePlace. destruct tool as [T|]; simpl.
  - destruct (canAffordBuild p T) eqn:Haff; simpl.
    + by destruct (placeBuilding p x y (Build T) d).
    + unfold placeBuilding. rewrite cloneState_id, Haff. simpl.
      by destruct (_ || _).
  - by destruct (placeBuilding p x y Erase d).
Qed.

(** X14.  [nextDir] is a cycle through the four directions: four turns
    lead back, and the directions met on the way are all different. *)
Theorem nextDir_cycle d :
  ∃ d1 d2 d3,
    nextDir d = Some d1 ∧ nextDir d1 = Some d2 ∧ nextDir d2 = Some d3 ∧
    nextDir d3 = Some d ∧ NoDup [d; d1; d2; d3].
Proof.
  destruct d; do 3 eexists; (split_and!; [reflexivity..|]);
    repeat (apply NoDup_cons; split; [rewrite ?elem_of_cons, ?elem_of_nil; intuition congruence|]);
    apply NoDup_nil_2.
Qed.

(** X15.  [nextDir] turns the offset of [stepInDir] by a quarter turn,
    clockwise on the screen. *)
Theorem nextDir_quarter_turn d x y :
  ∃ d', nextDir d = Some d' ∧
        stepInDir x y d' =
          (x - ((stepInDir x y d).2 - y), y + ((stepInDir x y d).1 - x)).
Proof.
  destruct d; eexists; (split; [reflexivity|]); simpl; f_equal; lia.
Qed.

(** X16.  A belt whose item faces an assembler or a wire mill: the
    assembler takes an iron plate while it holds fewer than two, the
    wire mill a copper plate while it holds none; the processor's
    progress goes to 0 and the source slot of the moved grid is cleared.
    Any other item, or a full processor, leaves everything in place. *)
Theorem belt_into_processor s m x y item nx ny dt db :
  wf s → gridDims (width s) (height s) m →
  beltFeeds s x y item nx ny dt → building dt = Some db →
  (type db = Assembler →
   moveAt x y (s, m) =
   Some (if bool_decide (item_type item = IronPlate)
            && (bufGet (buffer db) IronPlate <? 2)
         then (putBuilding nx ny
                 (mkBuilding Assembler (dir db) 0 (bufAdd IronPlate 1 (buffer db))) s,
               gridAlter (λ _, None) m x y)
         else (s, m))) ∧
  (type db = WireMill →
   moveAt x y (s, m) =
   Some (if bool_decide (item_type item = CopperPlate)
            && (bufGet (buffer db) CopperPlate <? 1)
         then (putBuilding nx ny
                 (mkBuilding WireMill (dir db) 0 (bufAdd CopperPlate 1 (buffer db))) s,
               gridAlter (λ _, None) m x y)
         else (s, m))).
Proof.
  intros Hwf Hm (Hit & (t & b & Ht & Hb & Hty & Hdir) & Hin' & Hdt) Hdb.
  assert (inBounds s x y = true) as Hin by by eapply tileAt_inBounds.
  split; intros Hf.
  - unfold moveAt. rewrite itemAt_in, Hit by done. simpl.
    rewrite Ht. simpl. rewrite Hb, Hty. simpl. rewrite Hdir, Hin'. simpl.
    rewrite Hdt. simpl. rewrite Hdb. simpl. rewrite Hf. simpl.
    destruct (_ && _); [|done].
    rewrite clearMoved_in by done. unfold feedBuilding, setProgress, setBuffer.
    simpl. by rewrite Hf.
  - unfold moveAt. rewrite itemAt_in, Hit by done. simpl.
    rewrite Ht. simpl. rewrite Hb, Hty. simpl. rewrite Hdir, Hin'. simpl.
    rewrite Hdt. simpl. rewrite Hdb. simpl. rewrite Hf. simpl.
    destruct (_ && _); [|done].
    rewrite clearMoved_in by done. unfold feedBuilding, setProgress, setBuffer.
    simpl. by rewrite Hf.
Qed.

(** ** World generator and sessions *)

Lemma forEach_inv {I S} (P : S → Prop) (body : I → S → option S) l s :
  P s → (∀ i s, i ∈ l → P s → ∃ s', body i s = Some s' ∧ P s') →
  ∃ s', forEach body l s = Some s' ∧ P s'.
Proof.
  revert s. induction l as [|i l IH]; intros s H0 Hstep; simpl; [eauto|].
  destruct (Hstep i s) as (s1 & -> & H1); [by left|done|]. simpl.
  apply IH; [done|]. intros j s2 Hj. apply Hstep. by right.
Qed.

Section generator_facts.
Variable rnd : nat → Z → Z.
Variable inDisc : Z → Z → Z → bool.
Hypothesis rnd_range : ∀ n k, 0 < k → 0 ≤ rnd n k < k.

Lemma seedCell_fresh width height terrain cx cy radius richness x y g :
  terrain ≠ TEmpty → 25 ≤ richness ≤ 49 →
  freshGrid width height g.1 →
  ∃ g', seedCell rnd inDisc width height terrain cx cy radius richness x y g = Some g' ∧
        freshGrid width height g'.1.
Proof.
  intros Hter Hrich [Hdims Hfresh]. unfold seedCell.
  destruct (_ && _) eqn:Htest; [|eexists; split; [reflexivity|by split]].
  rewrite !andb_true_iff in Htest. destruct Htest as [[[[??]?]?] _].
  destruct (gridGet_dims _ _ g.1 (cx + x) (cy + y) Hdims) as [t Ht]; [lia..|].
  rewrite Ht. simpl. eexists; split; [reflexivity|]. simpl.
  split; [by apply gridDims_alter|].
  intros x0 y0 t0. rewrite gridGet_alter. case_decide as Hxy.
  - rewrite Ht. simpl. intros [= <-].
    destruct (Hfresh _ _ _ Ht) as [Hb _].
    split; [done|]. right. simpl. split; [done|].
    pose proof (rnd_range g.2 20). lia.
  - apply Hfresh.
Qed.

Lemma seedPatch_fresh width height terrain g :
  terrain ≠ TEmpty → freshGrid width height g.1 →
  ∃ g', seedPatch rnd inDisc width height terrain g = Some g' ∧
        freshGrid width height g'.1.
Proof.
  intros Hter Hg. unfold seedPatch.
  pose proof (rnd_range (g.2 + 3) 25).
  apply (forEach_inv (λ g' : Seeding, freshGrid width height g'.1)); [done|].
  intros y g1 _ Hg1.
  apply (forEach_inv (λ g' : Seeding, freshGrid width height g'.1)); [done|].
  intros x g2 _ Hg2. apply seedCell_fresh; [done|lia|done].
Qed.

Lemma seedOre_fresh width height terrain patches g :
  terrain ≠ TEmpty → freshGrid width height g.1 →
  ∃ g', seedOre rnd inDisc width height terrain patches g = Some g' ∧
        freshGrid width height g'.1.
Proof.
  intros Hter Hg. unfold seedOre.
  apply (forEach_inv (λ g' : Seeding, freshGrid width height g'.1)); [done|].
  intros _ g1 _ Hg1. by apply seedPatch_fresh.
Qed.

Lemma blank_fresh width height :
  freshGrid width height
    (replicate (Z.to_nat height) (replicate (Z.to_nat width) (mkTile TEmpty 0 None))).
Proof.
  split.
  - split; [by rewrite length_replicate|].
    apply Forall_replicate. by rewrite length_replicate.
  - intros x y t (_ & _ & row & Hrow & Hc)%gridGet_Some.
    apply lookup_replicate in Hrow as [-> _].
    apply lookup_replicate in Hc as [-> _].
    split; [done|]. by left.
Qed.

Lemma createInitialState_fresh width height :
  ∃ tiles,
    createInitialState rnd inDisc width height =
      Some (mkState width height 0 tiles
              (replicate (Z.to_nat height) (replicate (Z.to_nat width) None))
              (mkBuffer 0 0 16 8 4 0) (mkStats 0 0 0 0 0 0)) ∧
    freshGrid width height tiles.
Proof.
  unfold createInitialState, seedResourcePatches.
  destruct (seedOre_fresh width height TIron 4 (_, 0%nat) ltac:(done)
              (blank_fresh width height)) as (g1 & -> & Hg1). simpl.
  destruct (seedOre_fresh width height TCopper 4 g1 ltac:(done) Hg1)
    as (g2 & -> & Hg2). simpl. eauto.
Qed.
End generator_facts.

Lemma fresh_valid width height tiles :
  freshGrid width height tiles →
  valid (mkState width height 0 tiles
           (replicate (Z.to_nat height) (replicate (Z.to_nat width) None))
           (mkBuffer 0 0 16 8 4 0) (mkStats 0 0 0 0 0 0)).
Proof.
  intros [Hdims Hfresh]. split_and!; simpl; try done; try lia.
  - split; [done|]. simpl. split; [by rewrite length_replicate|].
    apply Forall_replicate. by rewrite length_replicate.
  - intros x y t Ht. unfold tileAt in Ht. simpl in Ht.
    destruct (Hfresh x y t Ht) as [Hb Hore]. unfold tileOk. rewrite Hb.
    destruct Hore as [[Hte Hr]|[Hte Hr]].
    + rewrite Hte, Hr. done.
    + split_and!; try done; try lia. split; [done|lia].
Qed.

(** X17.  Whatever the random draws and the outcome of the disc test,
    [createInitialState] returns a sound world of the size asked for, at
    tick 0, with the starter inventory, zero stats, no item, no building
    and, on every tile, either bare ground or 25 to 68 units of ore. *)
Theorem createInitialState_valid rnd inDisc w h :
  (∀ n k, 0 < k → 0 ≤ rnd n k < k) →
  ∃ s, createInitialState rnd inDisc w h = Some s ∧
       valid s ∧ width s = w ∧ height s = h ∧ tick s = 0 ∧
       inventory s = mkBuffer 0 0 16 8 4 0 ∧
       stats s = mkStats 0 0 0 0 0 0 ∧
       (∀ x y o, gridGet (items s) x y = Some o → o = None) ∧
       (∀ x y t, tileAt s x y = Some t → freshTile t).
Proof.
  intros Hrnd.
  destruct (createInitialState_fresh rnd inDisc Hrnd w h) as (tiles & -> & Hg).
  eexists; split; [reflexivity|]. split; [by apply fresh_valid|].
  simpl. split_and!; try done.
  - intros x y o (_ & _ & row & Hrow & Hc)%gridGet_Some.
    apply lookup_replicate in Hrow as [-> _].
    by apply lookup_replicate in Hc as [-> _].
  - by destruct Hg.
Qed.

(** X18.  No sequence of ticks and clicks leads a sound world to an error
    or to a world that is not sound. *)
Theorem session_valid events s :
  valid s → ∃ s', forEach applyEvent events s = Some s' ∧ valid s'.
Proof.
  intros Hs. apply (forEach_inv valid); [done|].
  intros [|x y tool d] s1 _ Hs1; simpl.
  - by apply stepGame_valid.
  - by apply placeBuilding_valid.
Qed.

(** ** Snapshots of the current format *)

Section snapshots.
Local Open Scope string_scope.

Lemma normalizeBuffer_ofBuffer b :
  Raw.normalizeBuffer (Snapshot.ofBuffer b) = Snapshot.ofBuffer b.
Proof.
  rewrite normalizeBuffer_eq. unfold Snapshot.ofBuffer at 1 2 3 4 5 6 7 8.
  look. simpl. unfold Snapshot.ofBuffer, Raw.createBuffer.
  apply map_eq. intros k. rewrite !lookup_insert.
  repeat case_decide; done.
Qed.

Lemma normalizeStats_ofStats st :
  Raw.normalizeStats (Some (Snapshot.ofStats st)) = Snapshot.ofStats st.
Proof.
  unfold Raw.normalizeStats, Raw.statOf. simpl.
  unfold Snapshot.ofStats. look. done.
Qed.

Lemma normalizeTile_ofTile t : Raw.normalizeTile (Snapshot.ofTile t) = Snapshot.ofTile t.
Proof.
  destruct t as [tr r ob]. unfold Raw.normalizeTile, Snapshot.ofTile. simpl.
  f_equal.
  - by destruct tr.
  - destruct ob as [[ty d pr bf]|]; simpl; [|done].
    unfold Snapshot.ofBuilding. simpl. by rewrite normalizeBuffer_ofBuffer.
Qed.

Lemma normalizeItem_ofItem o :
  Raw.normalizeItem (Snapshot.ofItem <$> o) = Snapshot.ofItem <$> o.
Proof. by destruct o as [[[]]|]. Qed.

Lemma map_map_fixed {A B} (f : B → B) (e : A → B) (g : list (list A)) :
  (∀ a, f (e a) = e a) →
  map (λ row, map f row) (map (λ row, map e row) g) = map (λ row, map e row) g.
Proof.
  intros Hf. rewrite map_map. apply map_ext. intros row.
  rewrite map_map. by apply map_ext.
Qed.

(** X19.  A snapshot of the current format is a fixed point of
    [normalizeState]. *)
Theorem normalize_snapshot s :
  Raw.normalizeState (Snapshot.ofState s) = Snapshot.ofState s.
Proof.
  unfold Raw.normalizeState, Snapshot.ofState. simpl.
  rewrite (map_map_fixed _ _ _ normalizeTile_ofTile).
  rewrite (map_map_fixed _ _ _ normalizeItem_ofItem).
  unfold Raw.normalizeInventory.
  by rewrite normalizeBuffer_ofBuffer, normalizeStats_ofStats.
Qed.

(** X20.  [normalizeBuffer] returns a record of exactly the six item
    kinds: iron-ore and iron-plate fall back on the legacy keys ore and
    plate only when absent themselves, a kind still missing counts 0,
    and every other key of the input is dropped. *)
Theorem normalize_buffer_keys b :
  Raw.normalizeBuffer b !! "iron-ore" =
    Some match b !! "iron-ore" with
         | Some v => v
         | None => default 0 (b !! "ore")
         end ∧
  Raw.normalizeBuffer b !! "iron-plate" =
    Some match b !! "iron-plate" with
         | Some v => v
         | None => default 0 (b !! "plate")
         end ∧
  (∀ k, k ∈ ["copper-ore"; "copper-plate"; "gear"; "wire"] →
        Raw.normalizeBuffer b !! k = Some (default 0 (b !! k))) ∧
  (∀ k, k ∉ ["iron-ore"; "copper-ore"; "iron-plate"; "copper-plate"; "gear"; "wire"] →
        Raw.normalizeBuffer b !! k = None).
Proof.
  rewrite normalizeBuffer_eq. unfold Raw.nullish, Raw.createBuffer. split_and!.
  - look. by destruct (b !! "iron-ore").
  - look. by destruct (b !! "iron-plate").
  - intros k Hk. rewrite !elem_of_cons, elem_of_nil in Hk.
    destruct Hk as [->|[->|[->|[->|[]]]]]; by look.
  - intros k Hk. rewrite !not_elem_of_cons in Hk.
    destruct Hk as (? & ? & ? & ? & ? & ? & _).
    rewrite !lookup_insert. repeat case_decide; done.
Qed.





End snapshots.

(** ** Processors and hubs, cell by cell *)

Lemma canPlaceItem_putBuilding x y b s nx ny :
  (nx, ny) ≠ (x, y) →
  canPlaceItem (putBuilding x y b s) nx ny = canPlaceItem s nx ny.
Proof.
  intros Hne. unfold canPlaceItem, inBounds, tileAt, itemAt. st_simpl.
  by rewrite gridGet_alter_ne.
Qed.

Lemma stepInDir_ne x y d nx ny : stepInDir x y d = (nx, ny) → (nx, ny) ≠ (x, y).
Proof. intros H%stepInDir_moves [= -> ->]. lia. Qed.

(** X26.  An empty furnace takes an ore from the first of the tiles
    above, right, below and left that holds one, and starts on it in the
    same tick: its progress is 1, not 0, when the tick ends.  With no
    ore around it changes nothing. *)
Theorem furnace_pulls s x y t b :
  wf s → tileAt s x y = Some t → building t = Some b → type b = Furnace →
  bufGet (buffer b) IronOre = 0 → bufGet (buffer b) CopperOre = 0 →
  let ore := λ i : Item, bool_decide (item_type i ∈ [IronOre; CopperOre]) in
  (produceAt x y s = Some s ∧
   ∀ d, d ∈ DIRECTIONS → ¬ neighborHit ore s x y d) ∨
  (∃ pre d post i s',
     DIRECTIONS = pre ++ d :: post ∧
     (∀ d', d' ∈ pre → ¬ neighborHit ore s x y d') ∧
     gridGet (items s) (stepInDir x y d).1 (stepInDir x y d).2 = Some (Some i) ∧
     ore i = true ∧
     produceAt x y s = Some s' ∧
     items s' = gridAlter (λ _, None) (items s)
                  (stepInDir x y d).1 (stepInDir x y d).2 ∧
     tileAt s' x y =
       Some (mkTile (terrain t) (resource t)
               (Some (mkBuilding Furnace (dir b) 1
                        (bufAdd (item_type i) 1 (buffer b))))) ∧
     stats s' = stats s ∧ inventory s' = inventory s).
Proof.
  intros Hwf Ht Hb Hty Hfe Hcu ore.
  unfold produceAt. rewrite Ht. simpl. rewrite Hb, Hty.
  unfold furnaceTick, furnaceIntake. rewrite Hfe, Hcu. simpl.
  unfold findNeighborItemByTypes.
  destruct (findNeighborWith_spec ore s x y DIRECTIONS Hwf)
    as [[Hrun Hnone] | (pre & d & post & Heq & Hrun & (i & Hin & Hi & Hp) & Hpre)];
    fold ore; rewrite Hrun; simpl.
  - left. split; [|done]. unfold furnaceOutput. by rewrite Hfe, Hcu.
  - right. exists pre, d, post, i.
    destruct (stepInDir x y d) as [nx ny]. simpl in *.
    rewrite itemAt_in, Hi by done. simpl.
    rewrite setItemAt_in by done. simpl.
    unfold furnaceOutput. simpl.
    assert (item_type i = IronOre ∨ item_type i = CopperOre) as Hkind.
    { unfold ore in Hp. apply bool_decide_eq_true in Hp.
      rewrite !elem_of_cons, elem_of_nil in Hp. tauto. }
    destruct b as [ty dr pr [fe cu ip cp ge wi]]. simpl in *. subst fe cu ty.
    destruct Hkind as [Hk|Hk]; rewrite Hk; simpl;
      (eexists; split_and!; try done);
      unfold tileAt in *; st_simpl; rewrite !gridGet_alter_eq;
      rewrite gridGet_alter_eq || idtac; rewrite ?Ht; simpl; done.
Qed.

(** X27.  [cloneState] and [cloneItemGrid] return a copy equal to their
    argument, field by field. *)
Theorem clone_deep_copy s :
  cloneState s = s ∧ cloneItemGrid (items s) = items s.
Proof. split; [apply cloneState_id|apply cloneItemGrid_id]. Qed.

(** ** Instances *)

Lemma valid_intro s :
  wf s → 0 ≤ tick s → Forall (Forall tileOk) (tiles s) →
  bufNonneg (inventory s) → statsNonneg (stats s) → valid s.
Proof.
  intros Hwf Htick Htiles Hinv Hst. split_and!; try done.
  intros x y t (_ & _ & row & Hrow & Hc)%gridGet_Some.
  rewrite Forall_lookup in Htiles. specialize (Htiles _ _ Hrow).
  rewrite Forall_lookup in Htiles. by eapply Htiles.
Qed.

Lemma blank_no_building w h x y t :
  tileAt (blankState w h) x y = Some t → building t = None.
Proof.
  intros (_ & _ & row & Hrow & Hc)%gridGet_Some. simpl in Hrow.
  apply lookup_replicate in Hrow as [-> _].
  by apply lookup_replicate in Hc as [-> _].
Qed.

Ltac wf_tac := split; (split; [reflexivity|repeat constructor]).

Ltac sound_tac :=
  apply valid_intro;
  [ wf_tac
  | simpl; lia
  | repeat first [apply Forall_nil_2 | apply Forall_cons_2];
    unfold tileOk, buildingOk, bufNonneg, withinCapacity; simpl;
    split_and!; try done; try lia; split; intros; first [done|lia]
  | unfold bufNonneg; simpl; lia
  | unfold statsNonneg, statsLe; simpl; lia ].

Lemma step_valid_witness : ∃ w', stepGame assemblerWorld = Some w' ∧ valid w'.
Proof. apply (step_valid assemblerWorld). sound_tac. Defined.

Lemma step_stats_mono_witness :
  ∃ w', stepGame assemblerWorld = Some w' ∧
        statsLe (stats assemblerWorld) (stats w').
Proof. apply (step_stats_mono assemblerWorld). wf_tac. Defined.

Lemma step_buildings_fixed_witness :
  ∃ w', stepGame crossWorld = Some w' ∧
        ∀ x y t, tileAt crossWorld x y = Some t →
          ∃ t', tileAt w' x y = Some t' ∧
                type <$> building t' = type <$> building t ∧
                dir <$> building t' = dir <$> building t.
Proof. apply (step_buildings_fixed crossWorld). wf_tac. Defined.

Lemma step_terrain_witness :
  ∃ w', stepGame stalledWorld = Some w' ∧
        ∀ x y t, tileAt stalledWorld x y = Some t →
          ∃ t', tileAt w' x y = Some t' ∧
                resource t' ≤ resource t ∧
                (terrain t' = terrain t ∨ terrain t' = TEmpty) ∧
                (isMine (building t) = false →
                 terrain t' = terrain t ∧ resource t' = resource t) ∧
                (building t = None → t' = t).
Proof. apply (step_terrain stalledWorld). wf_tac. Defined.

Lemma step_inert_witness :
  stepGame (blankState 3 3) = Some (withTick (tick (blankState 3 3) + 1) (blankState 3 3)).
Proof.
  apply (step_inert (blankState 3 3)); [wf_tac|].
  intros x y t. apply blank_no_building.
Defined.

Lemma stepN_keeps_witness :
  ∃ w', stepN 3 crossWorld = Some w' ∧ wf w' ∧
        tick w' = tick crossWorld + Z.of_nat 3 ∧
        width w' = width crossWorld ∧ height w' = height crossWorld ∧
        (∀ k, bufGet (inventory crossWorld) k ≤ bufGet (inventory w') k) ∧
        statsLe (stats crossWorld) (stats w') ∧
        totalItems w' - totalItems crossWorld =
          netProduced (stats w') - netProduced (stats crossWorld).
Proof. apply (stepN_keeps 3 crossWorld). wf_tac. Defined.

Lemma step_item_provenance_witness :
  ∃ s1 w', production (withTick (tick crossWorld + 1) crossWorld) = Some s1 ∧
    stepGame crossWorld = Some w' ∧
    (∀ x y it, gridGet (items w') x y = Some (Some it) →
       gridGet (items s1) x y = Some (Some it) ∨ ∃ px py, feeder s1 px py it x y) ∧
    (∀ x y it, gridGet (items s1) x y = Some (Some it) →
       (∀ nx ny dt, ¬ beltFeeds s1 x y it nx ny dt) →
       gridGet (items w') x y = Some (Some it)).
Proof. apply (step_item_provenance crossWorld). wf_tac. Defined.

Lemma findNeighbor_first_witness :
  firstHit (λ _, true) furnaceWorld 1 0 (findNeighborItemAny furnaceWorld 1 0).
Proof.
  apply (proj2 (proj2 (findNeighbor_first furnaceWorld 1 0 ltac:(wf_tac)))).
Defined.

Lemma place_frame_witness :
  ∃ s', placeBuilding crossWorld 0 0 (Build Mine) Up = Some s' ∧
        wf s' ∧ width s' = width crossWorld ∧ height s' = height crossWorld ∧
        tick s' = tick crossWorld ∧ stats s' = stats crossWorld ∧
        (∀ k, bufGet (inventory s') k ≤ bufGet (inventory crossWorld) k) ∧
        (∀ x0 y0, (x0, y0) ≠ (0, 0) →
           tileAt s' x0 y0 = tileAt crossWorld x0 y0 ∧
           gridGet (items s') x0 y0 = gridGet (items crossWorld) x0 y0) ∧
        (∀ t, tileAt crossWorld 0 0 = Some t →
           ∃ t', tileAt s' 0 0 = Some t' ∧
                 terrain t' = terrain t ∧ resource t' = resource t).
Proof. apply (place_frame crossWorld 0 0 (Build Mine) Up). wf_tac. Defined.

Lemma erase_no_refund_witness :
  ∃ s', placeBuilding assemblerWorld 0 0 Erase Up = Some s' ∧
        inventory s' = inventory assemblerWorld ∧ items s' = items assemblerWorld ∧
        (∀ t, tileAt assemblerWorld 0 0 = Some t →
           tileAt s' 0 0 = Some (mkTile (terrain t) (resource t) None)) ∧
        placeBuilding s' 0 0 Erase Up = Some s'.
Proof. apply (erase_no_refund assemblerWorld 0 0 Up). wf_tac. Defined.

Lemma place_valid_witness :
  ∃ s', placeBuilding assemblerWorld 1 0 (Build Belt) Right = Some s' ∧ valid s'.
Proof. apply (place_valid assemblerWorld 1 0 (Build Belt) Right). sound_tac. Defined.

Lemma place_ground_item_witness :
  ∃ s', placeBuilding crossWorld 1 0 (Build Chest) Up = Some s' ∧
        items s' = if isBelt Chest then items crossWorld
                   else gridAlter (λ _, None) (items crossWorld) 1 0.
Proof.
  apply (place_ground_item crossWorld 1 0 Chest Up); [wf_tac|reflexivity..].
Defined.

Lemma belt_into_processor_witness :
  moveAt 1 0 (plateWorld, items plateWorld) = Some (plateWorld, items plateWorld).
Proof.
  assert (wf plateWorld) as Hwf by wf_tac.
  assert (gridDims (width plateWorld) (height plateWorld) (items plateWorld))
    as Hm by (split; [reflexivity|repeat constructor]).
  assert (beltFeeds plateWorld 1 0 (mkItem IronPlate) 0 0
            (mkTile TEmpty 0 (Some (mkBuilding Assembler Right 7 (mkBuffer 0 0 2 0 0 0)))))
    as Hfeeds.
  { split_and!; [reflexivity| |reflexivity..].
    eexists _, _. split_and!; reflexivity. }
  exact (proj1 (belt_into_processor plateWorld (items plateWorld) 1 0
           (mkItem IronPlate) 0 0 _ (mkBuilding Assembler Right 7 (mkBuffer 0 0 2 0 0 0))
           Hwf Hm Hfeeds eq_refl) eq_refl).
Defined.

Lemma createInitialState_valid_witness :
  ∃ s, createInitialState (λ _ _, 0) (λ x y r, 25 * (x * x + y * y) <=? (5 * r + 1) ^ 2)
         24 24 = Some s ∧
       valid s ∧ width s = 24 ∧ height s = 24 ∧ tick s = 0 ∧
       inventory s = mkBuffer 0 0 16 8 4 0 ∧
       stats s = mkStats 0 0 0 0 0 0 ∧
       (∀ x y o, gridGet (items s) x y = Some o → o = None) ∧
       (∀ x y t, tileAt s x y = Some t → freshTile t).
Proof.
  apply (createInitialState_valid (λ _ _, 0)
           (λ x y r, 25 * (x * x + y * y) <=? (5 * r + 1) ^ 2) 24 24).
  intros n k Hk. lia.
Defined.

Lemma session_valid_witness :
  ∃ s', forEach applyEvent [Tick; Click 1 0 (Build Belt) Right; Tick] assemblerWorld
          = Some s' ∧ valid s'.
Proof.
  apply (session_valid [Tick; Click 1 0 (Build Belt) Right; Tick] assemblerWorld).
  sound_tac.
Defined.

Lemma normalize_buffer_keys_witness :
  Raw.normalizeBuffer (<["ore" := 3]> ∅) !! "ore"%string = None.
Proof.
  apply (proj2 (proj2 (proj2 (normalize_buffer_keys (<["ore"%string := 3]> ∅))))).
  rewrite !not_elem_of_cons. split_and!; try discriminate.
  apply not_elem_of_nil.
Defined.


Lemma furnace_pulls_witness :
  let ore := λ i : Item, bool_decide (item_type i ∈ [IronOre; CopperOre]) in
  (produceAt 1 0 furnaceWorld = Some furnaceWorld ∧
   ∀ d, d ∈ DIRECTIONS → ¬ neighborHit ore furnaceWorld 1 0 d) ∨
  (∃ pre d post i s',
     DIRECTIONS = pre ++ d :: post ∧
     (∀ d', d' ∈ pre → ¬ neighborHit ore furnaceWorld 1 0 d') ∧
     gridGet (items furnaceWorld) (stepInDir 1 0 d).1 (stepInDir 1 0 d).2 = Some (Some i) ∧
     ore i = true ∧
     produceAt 1 0 furnaceWorld = Some s' ∧
     items s' = gridAlter (λ _, None) (items furnaceWorld)
                  (stepInDir 1 0 d).1 (stepInDir 1 0 d).2 ∧
     tileAt s' 1 0 =
       Some (mkTile TEmpty 0
               (Some (mkBuilding Furnace Right 1
                        (bufAdd (item_type i) 1 createBuffer)))) ∧
     stats s' = stats furnaceWorld ∧ inventory s' = inventory furnaceWorld).
Proof.
  apply (furnace_pulls furnaceWorld 1 0
           (mkTile TEmpty 0 (Some (mkBuilding Furnace Right 3 createBuffer)))
           (mkBuilding Furnace Right 3 createBuffer)); [wf_tac|reflexivity..].
Defined.

(** X28.  [canPlaceItem] on a well-formed world answers, without error,
    whether (x,y) is in bounds, carries no building other than a belt
    and holds no item. *)
Theorem canPlaceItem_iff s x y :
  wf s →
  ∃ ok, canPlaceItem s x y = Some ok ∧
        (ok = true ↔
         inBounds s x y = true ∧
         (∃ t, tileAt s x y = Some t ∧ isNonBelt (building t) = false) ∧
         gridGet (items s) x y = Some None).
Proof.
  intros Hwf. destruct (canPlaceItem_total s x y Hwf) as [ok Hok].
  exists ok. split; [done|]. split.
  - intros ->. apply canPlaceItem_true in Hok as (? & ? & ?); done.
  - intros (Hin & Ht & Hit).
    rewrite (canPlaceItem_free s x y Hwf Hin Ht Hit) in Hok. by injection Hok.
Qed.

Lemma canPlaceItem_iff_witness :
  ∃ ok, canPlaceItem crossWorld 2 1 = Some ok ∧
        (ok = true ↔
         inBounds crossWorld 2 1 = true ∧
         (∃ t, tileAt crossWorld 2 1 = Some t ∧ isNonBelt (building t) = false) ∧
         gridGet (items crossWorld) 2 1 = Some None).
Proof. apply (canPlaceItem_iff crossWorld 2 1). wf_tac. Defined.

(** ** The turn of one cell within a tick *)

Lemma produce_list_stats l s :
  wf s → (∀ p, p ∈ l → inBounds s p.1 p.2 = true) →
  ∃ s', forEach (λ p, produceAt p.1 p.2) l s = Some s' ∧ keeps s s' ∧
        statsLe (stats s) (stats s') ∧
        (∀ x0 y0, (x0, y0) ∉ l → tileAt s' x0 y0 = tileAt s x0 y0) ∧
        (∀ x0 y0 t, tileAt s x0 y0 = Some t →
           ∃ t', tileAt s' x0 y0 = Some t' ∧ sameKind t t').
Proof.
  intros Hwf Hin.
  destruct (produce_list l s Hwf Hin) as (s' & Hrun & Hk & Hother & Hsame).
  destruct (produce_list_tilesStep l s Hwf Hin) as (s2 & Hrun2 & _ & Hst & _).
  rewrite Hrun in Hrun2. injection Hrun2 as <-. eauto 10.
Qed.

(** The first loop of [stepGame w] split at the turn of (x,y): the
    world [s] it arrives with and, for the world [s1] the body leaves,
    the rest of the tick. *)
Lemma production_turn w x y :
  wf w → inBounds w x y = true →
  ∃ s, stateAt w x y = Some s ∧
       keeps (withTick (tick w + 1) w) s ∧
       statsLe (stats w) (stats s) ∧
       tileAt s x y = tileAt w x y ∧
       (∀ x0 y0 t, tileAt w x0 y0 = Some t →
          ∃ t', tileAt s x0 y0 = Some t' ∧ sameKind t t') ∧
       ∀ s1, produceAt x y s = Some s1 →
         ∃ w', stepGame w = Some w' ∧
               statsLe (stats s1) (stats w') ∧
               (∀ k, bufGet (inventory s1) k ≤ bufGet (inventory w') k) ∧
               ∀ t, tileAt s1 x y = Some t →
                 ∃ t', tileAt w' x y = Some t' ∧ fedOnly t t'.
Proof.
  intros Hwf Hin.
  set (w1 := withTick (tick w + 1) w).
  assert (wf w1) as Hwf1 by done.
  assert ((x, y) ∈ coords (width w1) (height w1)) as Hxy
    by (by apply elem_of_coords, inBounds_range).
  destruct (coords_split _ _ _ _ Hxy) as (post & Hsplit & Hpre & Hpost).
  destruct (produce_list_stats (before (x, y) (coords (width w1) (height w1))) w1 Hwf1)
    as (s & Hrun1 & Hk1 & Hst1 & Hother1 & Hsame1).
  { intros [px py] Hp. apply inBounds_range, elem_of_coords.
    rewrite Hsplit, elem_of_app. by left. }
  exists s. split_and!; try done.
  { unfold stateAt. by rewrite cloneState_id. }
  { by apply Hother1. }
  intros s1 Hturn.
  pose proof (keeps_wf _ _ Hk1) as Hwfs.
  assert (inBounds s x y = true) as Hins.
  { unfold inBounds in *. by rewrite (keeps_width _ _ Hk1), (keeps_height _ _ Hk1). }
  destruct (produceAt_keeps x y s Hwfs Hins) as (s1' & Hturn' & Hk2 & _).
  rewrite Hturn in Hturn'. injection Hturn' as <-.
  destruct (produce_list_stats post s1 (keeps_wf _ _ Hk2))
    as (s3 & Hrun3 & Hk3 & Hst3 & Hother3 & _).
  { intros [px py] Hp. apply inBounds_range.
    rewrite (keeps_width _ _ Hk2), (keeps_height _ _ Hk2),
      (keeps_width _ _ Hk1), (keeps_height _ _ Hk1).
    apply elem_of_coords. rewrite Hsplit, elem_of_app, elem_of_cons. auto. }
  assert (production w1 = Some s3) as Hprod.
  { unfold production. rewrite scanGrid_coords, Hsplit, forEach_app, Hrun1.
    simpl. rewrite Hturn. simpl. done. }
  destruct (transport_keeps s3 (keeps_wf _ _ Hk3)) as (s4 & m & Hrun4 & Hinv).
  pose proof (bi_fed _ _ _ Hinv) as Hfed. simpl in Hfed.
  exists (withItems m s4). split_and!.
  - unfold stepGame. rewrite cloneState_id. fold w1. rewrite Hprod. simpl.
    by rewrite Hrun4.
  - simpl. by rewrite (fed_stats _ _ Hfed).
  - intros k. simpl. etrans; [apply (keeps_inventory _ _ Hk3)|apply (fed_inventory _ _ Hfed)].
  - intros t Ht. simpl.
    apply (fed_tiles _ _ Hfed). by rewrite Hother3.
Qed.

(** ** Mines over a whole tick *)

(** C3, as stated: a mine whose progress reaches four emits when the
    tile ahead is in bounds, carries no building but a belt and holds no
    item.  In [twoMinesWorld] the tile (1,0) is such a tile for both
    mines as the tick begins; the mine at (0,0) is scanned first and
    puts its ore there, and the mine at (2,0) finds the tile taken: it
    emits nothing, is not reset and keeps its resource. *)
Lemma emission_counterexample :
  tileAt twoMinesWorld 2 0 =
    Some (mkTile TCopper 5 (Some (mkBuilding Mine Left 3 createBuffer))) ∧
  stepInDir 2 0 Left = (1, 0) ∧
  inBounds twoMinesWorld 1 0 = true ∧
  tileAt twoMinesWorld 1 0 = Some (mkTile TEmpty 0 None) ∧
  gridGet (items twoMinesWorld) 1 0 = Some None ∧
  ∃ w', stepGame twoMinesWorld = Some w' ∧
        tileAt w' 2 0 =
          Some (mkTile TCopper 5 (Some (mkBuilding Mine Left 4 createBuffer))) ∧
        copperMined (stats w') = 0 ∧
        gridGet (items w') 1 0 = Some (Some (mkItem IronOre)).
Proof.
  split_and!; try reflexivity.
  eexists. split; [vm_compute; reflexivity|]. by split_and!.
Qed.

(** C3, amended.  A mine on an ore tile with resource left adds one to
    its progress every tick; while that stays below four the tick does
    nothing else to it.  From four on, when the tile ahead is in bounds,
    carries no building but a belt and holds no item as the first loop
    reaches the mine, the mine puts one ore of its terrain's kind there,
    the matching mined counter goes up by one, and after the tick the
    mine's progress is 0 and its tile has one unit of resource less, the
    terrain turning empty at zero.  And the scenario: a mine placed at
    (1,1) facing right on an iron tile with one unit has, after four
    ticks, put an iron ore on (2,1), used up the tile and counted one
    iron mined. *)
Theorem mine_emission :
  (∀ w x y t b nx ny,
     wf w → tileAt w x y = Some t → building t = Some b → type b = Mine →
     terrain t ≠ TEmpty → 0 < resource t →
     stepInDir x y (dir b) = (nx, ny) →
     progress b + 1 < MINE_TICKS →
     ∃ w', stepGame w = Some w' ∧
           tileAt w' x y =
             Some (mkTile (terrain t) (resource t)
                     (Some (mkBuilding Mine (dir b) (progress b + 1) (buffer b))))) ∧
  (∀ w x y t b nx ny s,
     wf w → tileAt w x y = Some t → building t = Some b → type b = Mine →
     terrain t ≠ TEmpty → 0 < resource t →
     stepInDir x y (dir b) = (nx, ny) →
     MINE_TICKS ≤ progress b + 1 →
     inBounds w nx ny = true →
     (∃ dt, tileAt w nx ny = Some dt ∧ isNonBelt (building dt) = false) →
     stateAt w x y = Some s →
     gridGet (items s) nx ny = Some None →
     ∃ s1 w',
       produceAt x y s = Some s1 ∧ stepGame w = Some w' ∧
       items s1 =
         gridAlter (λ _, Some (mkItem (if decide (terrain t = TIron) then IronOre
                                       else CopperOre))) (items s) nx ny ∧
       stats s1 =
         (if decide (terrain t = TIron)
          then mkStats (ironMined (stats s) + 1) (copperMined (stats s))
                 (ironPlates (stats s)) (copperPlates (stats s))
                 (gearsCrafted (stats s)) (wiresCrafted (stats s))
          else mkStats (ironMined (stats s)) (copperMined (stats s) + 1)
                 (ironPlates (stats s)) (copperPlates (stats s))
                 (gearsCrafted (stats s)) (wiresCrafted (stats s))) ∧
       (if decide (terrain t = TIron)
        then ironMined (stats w) + 1 ≤ ironMined (stats w')
        else copperMined (stats w) + 1 ≤ copperMined (stats w')) ∧
       tileAt w' x y =
         Some (mkTile (if decide (resource t = 1) then TEmpty else terrain t)
                 (resource t - 1)
                 (Some (mkBuilding Mine (dir b) 0 (buffer b))))) ∧
  (∃ w0 w4,
     placeBuilding ironWorld 1 1 (Build Mine) Right = Some w0 ∧
     stepN 4 w0 = Some w4 ∧
     itemAt w4 2 1 = Some (Some (mkItem IronOre)) ∧
     resource <$> tileAt w4 1 1 = Some 0 ∧
     terrain <$> tileAt w4 1 1 = Some TEmpty ∧
     ironMined (stats w4) = 1).
Proof.
  split_and!.
  - intros w x y t b nx ny Hwf Ht Hb Hty Hter Hres Hdir Hlt.
    assert (inBounds w x y = true) as Hin by (by eapply tileAt_inBounds).
    destruct (production_turn w x y Hwf Hin) as (s & _ & Hk & _ & Hts & _ & Hrest).
    rewrite Ht in Hts.
    assert (produceAt x y s = Some (putBuilding x y (setProgress (progress b + 1) b) s))
      as Hturn.
    { unfold produceAt. rewrite Hts. simpl. rewrite Hb, Hty.
      unfold mineTick. rewrite decide_False by done.
      destruct (resource t <=? 0) eqn:Hr; [lia|]. cbv zeta. simpl dir. simpl progress.
      rewrite Hdir. by destruct (Z.leb_spec MINE_TICKS (progress b + 1)); [lia|]. }
    destruct (Hrest _ Hturn) as (w' & Hstep & _ & _ & Htile).
    exists w'. split; [done|].
    destruct (Htile (setBuilding (Some (setProgress (progress b + 1) b)) t))
      as (t' & Ht' & Hfo).
    { unfold tileAt in *. st_simpl. by rewrite gridGet_alter_eq, Hts. }
    apply (fedOnly_mine _ _ (setProgress (progress b + 1) b)) in Hfo;
      [|done|by simpl; rewrite Hty]. subst t'.
    rewrite Ht'. unfold setBuilding, setProgress. simpl. by rewrite Hty.
  - intros w x y t b nx ny s Hwf Ht Hb Hty Hter Hres Hdir Hge Hinb Hdt Hat Hfree.
    assert (inBounds w x y = true) as Hin by (by eapply tileAt_inBounds).
    destruct (production_turn w x y Hwf Hin)
      as (s' & Hat' & Hk & Hst & Hts & Hsame & Hrest).
    rewrite Hat in Hat'. injection Hat' as <-.
    rewrite Ht in Hts.
    pose proof (keeps_wf _ _ Hk) as Hwfs.
    pose proof (stepInDir_moves _ _ _ _ _ Hdir) as Hne.
    assert (inBounds s nx ny = true) as Hinb'.
    { unfold inBounds in *. by rewrite (keeps_width _ _ Hk), (keeps_height _ _ Hk). }
    assert (∃ s1, produceAt x y s = Some s1 ∧
              items s1 =
                gridAlter (λ _, Some (mkItem (if decide (terrain t = TIron) then IronOre
                                              else CopperOre))) (items s) nx ny ∧
              stats s1 =
                (if decide (terrain t = TIron) then bumpIronMined else bumpCopperMined)
                  (stats s) ∧
              tileAt s1 x y =
                Some (mkTile (if decide (resource t = 1) then TEmpty else terrain t)
                        (resource t - 1) (Some (setProgress 0 b))))
      as (s1 & Hturn & Hitems & Hstats & Htile1).
    { unfold produceAt. rewrite Hts. simpl. rewrite Hb, Hty.
      unfold mineTick. rewrite decide_False by done.
      destruct (resource t <=? 0) eqn:Hr; [lia|]. cbv zeta. simpl dir. simpl progress.
      rewrite Hdir.
      destruct (MINE_TICKS <=? progress b + 1) eqn:Hp; [|lia].
      rewrite canPlaceItem_free.
      2:{ by apply wf_putBuilding. }
      2:{ done. }
      2:{ destruct Hdt as (dt & Hdt & Hnb).
          destruct (Hsame _ _ _ Hdt) as (dt' & Hdt' & Hkind).
          exists dt'. split; [|by rewrite (isNonBelt_sameKind _ _ Hkind)].
          unfold tileAt in *. st_simpl. rewrite gridGet_alter_ne; [done|].
          intros [= -> ->]. lia. }
      2:{ done. }
      simpl. rewrite setItemAt_in by (done || by apply wf_putBuilding). simpl.
      unfold tileAt in *.
      destruct (decide (terrain t = TIron)), (Z.leb_spec (resource t - 1) 0);
        (eexists; split; [reflexivity|]); st_simpl;
        rewrite ?gridGet_alter_eq, Hts; simpl;
        (split; [done|]); (split; [done|]);
        unfold setTerrain, setResource, setBuilding, setProgress; simpl;
        case_decide; try lia; do 2 f_equal; lia. }
    destruct (Hrest _ Hturn) as (w' & Hstep & Hst' & _ & Htile).
    exists s1, w'. split_and!; try done.
    + rewrite Hstats. by destruct (decide (terrain t = TIron)), (stats s).
    + destruct Hst as (? & ? & _), Hst' as (Hi & Hc & _). rewrite Hstats in Hi, Hc.
      destruct (decide (terrain t = TIron)); simpl in *; lia.
    + destruct (Htile _ Htile1) as (t' & Ht' & Hfo).
      apply (fedOnly_mine _ _ (setProgress 0 b)) in Hfo;
        [|done|by simpl; rewrite Hty]. subst t'.
      rewrite Ht'. unfold setProgress. simpl. by rewrite Hty.
  - eexists _, _. split; [vm_compute; reflexivity|].
    split; [vm_compute; reflexivity|]. by vm_compute.
Qed.

Lemma mine_emission_witness :
  ∃ s1 w',
    produceAt 1 1 (withTick 1 readyWorld) = Some s1 ∧
    stepGame readyWorld = Some w' ∧
    items s1 = gridAlter (λ _, Some (mkItem IronOre)) (items readyWorld) 2 1 ∧
    stats s1 = mkStats 1 0 0 0 0 0 ∧
    ironMined (stats readyWorld) + 1 ≤ ironMined (stats w') ∧
    tileAt w' 1 1 = Some (mkTile TEmpty 0 (Some (mkBuilding Mine Right 0 createBuffer))).
Proof.
  apply (proj1 (proj2 mine_emission) readyWorld 1 1
           (mkTile TIron 1 (Some (mkBuilding Mine Right 3 createBuffer)))
           (mkBuilding Mine Right 3 createBuffer) 2 1 (withTick 1 readyWorld)).
  - split; (split; [reflexivity|repeat constructor]).
  - reflexivity.
  - reflexivity.
  - reflexivity.
  - discriminate.
  - simpl. lia.
  - reflexivity.
  - simpl. unfold MINE_TICKS. lia.
  - reflexivity.
  - eexists. split; reflexivity.
  - reflexivity.
  - reflexivity.
Defined.

(** ** The turn of one belt within a tick *)

Lemma moveCase_inventory x y s m st' :
  moveCase x y s m st' → ∀ k, bufGet (inventory s) k ≤ bufGet (inventory st'.1) k.
Proof.
  intros [?|it nx ny dt s' _ _ Hfed _|it nx ny dt _ _ _] k; simpl; try lia.
  apply (fed_inventory _ _ Hfed).
Qed.

(** A run of the second loop over the cells [l] that follow [pre] in the
    scan. *)
Lemma move_list s0 l : ∀ pre post st,
  wf s0 → coords (width s0) (height s0) = pre ++ l ++ post →
  beltInv s0 pre st →
  ∃ st', forEach (λ p, moveAt p.1 p.2) l st = Some st' ∧
         beltInv s0 (pre ++ l) st' ∧
         (∀ k, bufGet (inventory st.1) k ≤ bufGet (inventory st'.1) k) ∧
         (∀ x y it, (x, y) ∈ pre → gridGet st.2 x y = Some (Some it) →
            gridGet st'.2 x y = Some (Some it)) ∧
         (∀ x y, (x, y) ∈ pre → refilled s0 st.2 x y → refilled s0 st'.2 x y).
Proof.
  induction l as [|[x y] l IH]; intros pre post [s m] Hwf Hsplit Hinv.
  { exists (s, m). simpl. rewrite app_nil_r. by split_and!. }
  assert (forEach (λ p, moveAt p.1 p.2) ((x, y) :: l) (s, m) =
          moveAt x y (s, m) ≫= forEach (λ p, moveAt p.1 p.2) l) as -> by done.
  pose proof (bi_fed _ _ _ Hinv) as Hfed. simpl in Hfed.
  destruct (coords_turn_in _ _ _ _ _ Hsplit) as [Hin%elem_of_coords Hfresh].
  destruct (moveAt_case x y s m) as (st1 & Hst1 & Hcase).
  { by destruct Hfed. }
  { rewrite (fed_width _ _ Hfed), (fed_height _ _ Hfed). by destruct Hinv. }
  { apply inBounds_range. by rewrite (fed_width _ _ Hfed), (fed_height _ _ Hfed). }
  rewrite Hst1. simpl.
  pose proof (beltInv_step _ _ _ _ _ _ _ _ Hsplit Hinv Hcase) as Hinv1.
  destruct (IH (pre ++ [(x, y)]) post st1 Hwf) as (st' & Hrun & Hinv' & Hmono & Hkeep & Hfill).
  { by rewrite <- app_assoc. }
  { done. }
  exists st'. split; [done|]. rewrite <- app_assoc in Hinv'. split; [done|].
  assert (∀ x0 y0, (x0, y0) ∈ pre → (x0, y0) ≠ (x, y)) as Hdiff.
  { intros x0 y0 H0 [= -> ->]. done. }
  assert (∀ x0 y0 it, (x0, y0) ∈ pre → gridGet m x0 y0 = Some (Some it) →
            gridGet st1.2 x0 y0 = Some (Some it)) as Hkeep1.
  { intros x0 y0 it H0 Hit. pose proof (Hdiff _ _ H0) as Hne.
    destruct Hcase as [?|? nx ny dt s' _ _ _ _|? nx ny dt _ _ Hfree]; simpl; [done| |].
    - by rewrite gridGet_alter_ne.
    - rewrite gridGet_alter_ne by done. rewrite gridGet_alter_ne; [done|].
      intros [= -> ->]. congruence. }
  split_and!.
  - intros k. etrans; [apply (moveCase_inventory _ _ _ _ _ Hcase)|apply Hmono].
  - intros x0 y0 it H0 Hit. apply Hkeep; [rewrite elem_of_app; by left|].
    by apply Hkeep1.
  - intros x0 y0 H0 Hre. apply Hfill; [rewrite elem_of_app; by left|].
    pose proof (Hdiff _ _ H0) as Hne.
    destruct Hre as [Hnone|(px & py & it & Hf & Hit)].
    2:{ right. exists px, py, it. split; [done|by apply Hkeep1]. }
    destruct Hcase as [?|? nx ny dt s' _ _ _ _|it nx ny dt Hfeeds Hnb Hfree];
      unfold refilled; simpl.
    + by left.
    + left. by rewrite gridGet_alter_ne.
    + rewrite gridGet_alter_ne by done. rewrite gridGet_alter.
      case_decide as Hxy; [|by left]. destruct Hxy as [-> ->].
      right. exists x, y, it. rewrite Hfree. split; [|done].
      apply (feeder_fed s0 s); [done|done|]. by exists dt.
Qed.

(** The second loop of [stepGame w] split at the turn of (x,y). *)
Lemma transport_turn w x y s m :
  wf w → beltStateAt w x y = Some (s, m) → inBounds w x y = true →
  ∃ s0,
    production (withTick (tick w + 1) w) = Some s0 ∧
    keeps (withTick (tick w + 1) w) s0 ∧
    beltInv s0 (before (x, y) (coords (width s0) (height s0))) (s, m) ∧
    ∀ st', moveAt x y (s, m) = Some st' →
      ∃ s2 m2,
        stepGame w = Some (withItems m2 s2) ∧
        (∀ k, bufGet (inventory st'.1) k ≤ bufGet (inventory s2) k) ∧
        (∀ it, gridGet st'.2 x y = Some (Some it) → gridGet m2 x y = Some (Some it)) ∧
        (refilled s0 st'.2 x y → refilled s0 m2 x y).
Proof.
  intros Hwf Hat Hin.
  destruct (production_keeps (withTick (tick w + 1) w) Hwf) as (s0 & Hprod & Hk).
  pose proof (keeps_wf _ _ Hk) as Hwf0.
  unfold beltStateAt in Hat. rewrite cloneState_id, Hprod in Hat. simpl in Hat.
  rewrite cloneItemGrid_id in Hat.
  assert ((x, y) ∈ coords (width s0) (height s0)) as Hxy.
  { apply elem_of_coords. rewrite (keeps_width _ _ Hk), (keeps_height _ _ Hk).
    by apply inBounds_range. }
  destruct (coords_split _ _ _ _ Hxy) as (post & Hsplit & Hpre & Hpost).
  set (pre := before (x, y) (coords (width s0) (height s0))) in *.
  assert (beltInv s0 [] (s0, items s0)) as Hinv0.
  { split; simpl; [by apply fed_refl|by destruct Hwf0|done|done]. }
  destruct (move_list s0 pre [] ((x, y) :: post) (s0, items s0) Hwf0)
    as (st & Hrun & Hinv & _); [done|done|].
  rewrite Hat in Hrun. injection Hrun as <-. simpl in Hinv.
  exists s0. split_and!; try done.
  intros st' Hturn.
  pose proof (bi_fed _ _ _ Hinv) as Hfed. simpl in Hfed.
  destruct (moveAt_case x y s m) as (st1 & Hst1 & Hcase).
  { by destruct Hfed. }
  { rewrite (fed_width _ _ Hfed), (fed_height _ _ Hfed). by destruct Hinv. }
  { apply inBounds_range. rewrite (fed_width _ _ Hfed), (fed_height _ _ Hfed).
    by apply elem_of_coords. }
  rewrite Hturn in Hst1. injection Hst1 as <-.
  pose proof (beltInv_step _ _ _ _ _ _ _ _ Hsplit Hinv Hcase) as Hinv1.
  destruct (move_list s0 post (pre ++ [(x, y)]) [] st' Hwf0)
    as ([s2 m2] & Hrun2 & _ & Hmono & Hkeep & Hfill).
  { by rewrite app_nil_r, <- app_assoc. }
  { done. }
  exists s2, m2. split_and!.
  - unfold stepGame. rewrite cloneState_id. cbv zeta. rewrite Hprod. simpl.
    unfold transport. rewrite scanGrid_coords, cloneItemGrid_id, Hsplit.
    assert (forEach (λ p, moveAt p.1 p.2) ((x, y) :: post) (s, m) = Some (s2, m2))
      as Hrest.
    { change (moveAt x y (s, m) ≫= forEach (λ p, moveAt p.1 p.2) post = Some (s2, m2)).
      by rewrite Hturn. }
    rewrite forEach_app. fold pre. rewrite Hat. cbn [mbind option_bind].
    by rewrite Hrest.
  - done.
  - intros it. apply Hkeep. rewrite elem_of_app, list_elem_of_singleton. by right.
  - apply Hfill. rewrite elem_of_app, list_elem_of_singleton. by right.
Qed.

Lemma before_prefix (q : Z * Z) l : ∃ post, l = before q l ++ post.
Proof.
  induction l as [|p l [post IH]]; simpl; [by exists []|].
  destruct (decide (p = q)); [by eexists|].
  exists post. simpl. by rewrite <- IH.
Qed.

Lemma beltStateAt_fed w x y s m :
  wf w → beltStateAt w x y = Some (s, m) →
  wf s ∧ width s = width w ∧ height s = height w.
Proof.
  intros Hwf Hat.
  destruct (production_keeps (withTick (tick w + 1) w) Hwf) as (s0 & Hprod & Hk).
  pose proof (keeps_wf _ _ Hk) as Hwf0.
  unfold beltStateAt in Hat. rewrite cloneState_id, Hprod in Hat. simpl in Hat.
  rewrite cloneItemGrid_id in Hat.
  destruct (before_prefix (x, y) (coords (width s0) (height s0))) as [post Hsplit].
  destruct (move_list s0 (before (x, y) (coords (width s0) (height s0))) [] post
              (s0, items s0) Hwf0) as (st & Hrun & Hinv & _); [done| |].
  { split; simpl; [by apply fed_refl|by destruct Hwf0|done|done]. }
  rewrite Hat in Hrun. injection Hrun as <-.
  pose proof (bi_fed _ _ _ Hinv) as Hfed. simpl in Hfed.
  split; [by destruct Hfed|].
  rewrite (fed_width _ _ Hfed), (fed_height _ _ Hfed).
  by rewrite (keeps_width _ _ Hk), (keeps_height _ _ Hk).
Qed.

(** ** Belts that face a building, over a whole tick *)

(** C6.  Let the second loop of the tick arrive at (x,y) with [next = s]
    and the moved grid [m], the belt on (x,y) carrying [item] towards the
    building [db].  A chest or a hub adds one to the inventory count of
    the item's kind and the source slot of the moved grid is cleared; at
    the end of the tick that count is at least one above what it was
    when the tick began, and the source tile is empty unless another
    belt has brought an item there.  A furnace that holds no ore takes
    an ore: its count of that ore goes up by one, its progress goes to 0
    and the source slot is cleared in the same way; any other item, or a
    furnace that holds an ore, changes nothing and the item is still on
    its tile when the tick ends.  A mine takes nothing: the item is still
    on its tile when the tick ends. *)
Theorem belt_into_building w x y s m item nx ny dt db :
  wf w → beltStateAt w x y = Some (s, m) →
  beltFeeds s x y item nx ny dt → building dt = Some db →
  ∃ s0 s' m' w',
    production (withTick (tick w + 1) w) = Some s0 ∧
    moveAt x y (s, m) = Some (s', m') ∧ stepGame w = Some w' ∧
    (type db = Chest ∨ type db = Hub →
     (∀ k, bufGet (inventory s') k =
           bufGet (inventory s) k + (if decide (k = item_type item) then 1 else 0)) ∧
     tiles s' = tiles s ∧
     m' = gridAlter (λ _, None) m x y ∧
     bufGet (inventory w) (item_type item) + 1 ≤ bufGet (inventory w') (item_type item) ∧
     refilled s0 (items w') x y) ∧
    (type db = Furnace →
     ((item_type item = IronOre ∨ item_type item = CopperOre) ∧
      iron_ore (buffer db) = 0 ∧ copper_ore (buffer db) = 0 →
      tileAt s' nx ny =
        Some (mkTile (terrain dt) (resource dt)
                (Some (mkBuilding Furnace (dir db) 0
                         (if decide (item_type item = IronOre)
                          then mkBuffer 1 0 (iron_plate (buffer db))
                                 (copper_plate (buffer db)) (gear (buffer db))
                                 (wire (buffer db))
                          else mkBuffer 0 1 (iron_plate (buffer db))
                                 (copper_plate (buffer db)) (gear (buffer db))
                                 (wire (buffer db)))))) ∧
      (∀ x0 y0, (x0, y0) ≠ (nx, ny) → tileAt s' x0 y0 = tileAt s x0 y0) ∧
      inventory s' = inventory s ∧
      m' = gridAlter (λ _, None) m x y ∧
      refilled s0 (items w') x y) ∧
     (¬ ((item_type item = IronOre ∨ item_type item = CopperOre) ∧
         iron_ore (buffer db) = 0 ∧ copper_ore (buffer db) = 0) →
      s' = s ∧ m' = m ∧ gridGet (items w') x y = Some (Some item))) ∧
    (type db = Mine →
     s' = s ∧ m' = m ∧ gridGet (items w') x y = Some (Some item)).
Proof.
  intros Hwf Hat Hfeeds Hdb.
  destruct (beltStateAt_fed _ _ _ _ _ Hwf Hat) as (Hwfs & Hws & Hhs).
  pose proof Hfeeds as (Hit & (t & b & Ht & Hb & Hty & Hdir) & Hin' & Hdt).
  assert (inBounds s x y = true) as Hins by by eapply tileAt_inBounds.
  assert (inBounds w x y = true) as Hin.
  { unfold inBounds in *. by rewrite <- Hws, <- Hhs. }
  destruct (transport_turn w x y s m Hwf Hat Hin) as (s0 & Hprod & Hk & Hinv & Hrest).
  pose proof (bi_fed _ _ _ Hinv) as Hfed. simpl in Hfed.
  assert (gridDims (width s) (height s) m) as Hm.
  { rewrite (fed_width _ _ Hfed), (fed_height _ _ Hfed). by destruct Hinv. }
  assert (gridGet m x y = Some (Some item)) as Hmxy.
  { apply (bi_pending _ _ _ Hinv).
    - assert ((x, y) ∈ coords (width s0) (height s0)) as Hxy.
      { apply elem_of_coords. rewrite <- (fed_width _ _ Hfed), <- (fed_height _ _ Hfed).
        by apply inBounds_range. }
      by destruct (coords_split _ _ _ _ Hxy) as (? & _ & ? & _).
    - by rewrite <- (fed_items _ _ Hfed). }
  assert (∀ k, bufGet (inventory w) k ≤ bufGet (inventory s) k) as Hinvw.
  { intros k. etrans; [apply (keeps_inventory _ _ Hk)|apply (fed_inventory _ _ Hfed)]. }
  assert (moveAt x y (s, m) =
          match type db with
          | Chest | Hub =>
              clearMoved x y (creditInventory (item_type item) s, m)
          | Furnace =>
              if (bool_decide (item_type item = IronOre)
                  || bool_decide (item_type item = CopperOre))
                 && (bufGet (buffer db) IronOre =? 0)
                 && (bufGet (buffer db) CopperOre =? 0)
              then clearMoved x y (feedBuilding nx ny db (item_type item) s, m)
              else Some (s, m)
          | Assembler =>
              if bool_decide (item_type item = IronPlate)
                 && (bufGet (buffer db) IronPlate <? 2)
              then clearMoved x y (feedBuilding nx ny db IronPlate s, m)
              else Some (s, m)
          | WireMill =>
              if bool_decide (item_type item = CopperPlate)
                 && (bufGet (buffer db) CopperPlate <? 1)
              then clearMoved x y (feedBuilding nx ny db CopperPlate s, m)
              else Some (s, m)
          | Mine => Some (s, m)
          | Belt =>
              mv ← itemGet m nx ny;
              match mv with
              | None => moved ← itemSet m nx ny (Some item); clearMoved x y (s, moved)
              | Some _ => Some (s, m)
              end
          end) as Hrun.
  { unfold moveAt. rewrite itemAt_in, Hit by done. simpl.
    rewrite Ht. simpl. rewrite Hb, Hty. simpl. rewrite Hdir, Hin'. simpl.
    rewrite Hdt. simpl. rewrite Hdb. simpl. by destruct (type db). }
  destruct (moveAt_case x y s m Hwfs Hm Hins) as ([s' m'] & Hturn & _).
  destruct (Hrest _ Hturn) as (s2 & m2 & Hstep & Hmono & Hkeep & Hfill).
  simpl in Hmono, Hkeep, Hfill.
  exists s0, s', m', (withItems m2 s2). split_and!; try done.
  - intros Hkind. rewrite Hrun in Hturn.
    assert (clearMoved x y (creditInventory (item_type item) s, m) = Some (s', m'))
      as Hres by (by destruct Hkind as [Hc|Hc]; rewrite Hc in Hturn).
    rewrite clearMoved_in in Hres by done. injection Hres as <- <-.
    split_and!; try done.
    + intros k. unfold creditInventory, withInventory. cbn [inventory].
      rewrite bufGet_add. destruct (decide (k = item_type item)); lia.
    + simpl. specialize (Hmono (item_type item)). specialize (Hinvw (item_type item)).
      simpl in Hmono. rewrite bufGet_add in Hmono.
      rewrite decide_True in Hmono by done. lia.
    + simpl. apply Hfill. left. by rewrite gridGet_alter_eq, Hmxy.
  - intros Hf. rewrite Hrun, Hf in Hturn. split.
    + intros (Hore & Hfe & Hcu).
      assert (clearMoved x y (feedBuilding nx ny db (item_type item) s, m)
              = Some (s', m')) as Hres.
      { simpl in Hturn. rewrite Hfe, Hcu in Hturn.
        by destruct Hore as [Hore|Hore]; rewrite Hore in Hturn |- *. }
      rewrite clearMoved_in in Hres by done. injection Hres as <- <-.
      split_and!; try done.
      * unfold tileAt in *. st_simpl. rewrite gridGet_alter_eq, Hdt. simpl.
        unfold setBuilding, setProgress, setBuffer. simpl.
        rewrite Hf. destruct (buffer db) as [fe cu ip cp ge wi]. simpl in *. subst fe cu.
        by destruct Hore as [Hore|Hore]; rewrite Hore.
      * intros x0 y0 Hne. unfold tileAt. st_simpl. by rewrite gridGet_alter_ne.
      * simpl. apply Hfill. left. by rewrite gridGet_alter_eq, Hmxy.
    + intros Hno.
      assert (Some (s, m) = Some (s', m')) as Hres.
      { destruct (_ && _) eqn:Hc in Hturn; [|done]. exfalso. apply Hno.
        rewrite !andb_true_iff, orb_true_iff, !bool_decide_eq_true in Hc.
        destruct Hc as [[? ?%Z.eqb_eq] ?%Z.eqb_eq]. done. }
      injection Hres as <- <-. split_and!; try done. simpl. by apply Hkeep.
  - intros Hf. rewrite Hrun, Hf in Hturn.
    injection Hturn as <- <-. split_and!; try done. simpl. by apply Hkeep.
Qed.

Lemma belt_into_building_witness :
  (∃ s0 s' m' w',
     production (withTick 1 chestWorld) = Some s0 ∧
     moveAt 0 0 (withTick 1 chestWorld, items chestWorld) = Some (s', m') ∧
     stepGame chestWorld = Some w' ∧
     (∀ k, bufGet (inventory s') k =
           bufGet (inventory chestWorld) k + (if decide (k = Gear) then 1 else 0)) ∧
     tiles s' = tiles chestWorld ∧
     m' = gridAlter (λ _, None) (items chestWorld) 0 0 ∧
     bufGet (inventory chestWorld) Gear + 1 ≤ bufGet (inventory w') Gear ∧
     refilled s0 (items w') 0 0) ∧
  (∃ s m s' m' w',
     beltStateAt feedWorld 0 0 = Some (s, m) ∧
     moveAt 0 0 (s, m) = Some (s', m') ∧
     stepGame feedWorld = Some w' ∧
     tileAt s' 1 0 =
       Some (mkTile TEmpty 0
               (Some (mkBuilding Furnace Right 0 (mkBuffer 1 0 0 0 0 0)))) ∧
     inventory s' = inventory s ∧
     m' = gridAlter (λ _, None) m 0 0).
Proof.
  split.
  - assert (wf chestWorld) as Hwf
      by (split; (split; [reflexivity|repeat constructor])).
    assert (beltFeeds (withTick 1 chestWorld) 0 0 (mkItem Gear) 1 0
              (mkTile TEmpty 0 (Some (mkBuilding Chest Up 0 createBuffer))))
      as Hfeeds.
    { split_and!; [reflexivity| |reflexivity..].
      eexists _, _. split_and!; reflexivity. }
    destruct (belt_into_building chestWorld 0 0 (withTick 1 chestWorld)
                (items chestWorld) (mkItem Gear) 1 0 _
                (mkBuilding Chest Up 0 createBuffer) Hwf eq_refl Hfeeds eq_refl)
      as (s0 & s' & m' & w' & Hprod & Hmove & Hstep & Hchest & _).
    exists s0, s', m', w'.
    destruct (Hchest (or_introl eq_refl)) as (? & ? & ? & ? & ?). by split_and!.
  - assert (wf feedWorld) as Hwf
      by (split; (split; [reflexivity|repeat constructor])).
    destruct (beltStateAt feedWorld 0 0) as [[s m]|] eqn:Hat;
      [|by vm_compute in Hat].
    assert (beltFeeds s 0 0 (mkItem IronOre) 1 0
              (mkTile TEmpty 0 (Some (mkBuilding Furnace Right 0 createBuffer))))
      as Hfeeds.
    { vm_compute in Hat. injection Hat as <- <-.
      split_and!; [reflexivity| |reflexivity..].
      eexists _, _. split_and!; reflexivity. }
    destruct (belt_into_building feedWorld 0 0 s m (mkItem IronOre) 1 0 _
                (mkBuilding Furnace Right 0 createBuffer) Hwf Hat Hfeeds eq_refl)
      as (s0 & s' & m' & w' & Hprod & Hmove & Hstep & _ & Hfurnace & _).
    exists s, m, s', m', w'.
    destruct (proj1 (Hfurnace eq_refl)) as (? & ? & ? & ? & ?).
    { split; [by left|done]. }
    by split_and!.
Defined.

(** ** Legacy tags *)

(** C9.  Legacy tags: a ground item of kind "ore" becomes iron-ore,
    "plate" becomes iron-plate, "gear" stays gear, the five other current
    kinds stay, and an item of any other kind is dropped; terrain "ore"
    becomes "iron"; with [m] the stored stats record (the empty record
    when the snapshot has none), ironMined is [m.ironMined] when that is
    present and else [m.oreMined], ironPlates is [m.ironPlates] when
    present and else [m.platesSmelted], the other four counters are read
    under their own names, and a field still missing is 0. *)
Theorem normalize_legacy :
  (Raw.normalizeItemType "ore" = Some "iron-ore"%string ∧
   Raw.normalizeItemType "plate" = Some "iron-plate"%string ∧
   Raw.normalizeItemType "gear" = Some "gear"%string ∧
   (∀ ty : string,
      ty ∈ ["iron-ore"; "copper-ore"; "iron-plate"; "copper-plate"; "wire"]%string →
      Raw.normalizeItemType ty = Some ty) ∧
   ∀ ty : string,
     ty ∉ ["ore"; "plate"; "gear"; "iron-ore"; "copper-ore"; "iron-plate";
           "copper-plate"; "wire"]%string →
     Raw.normalizeItemType ty = None) ∧
  (∀ w x y,
     gridGet (Raw.items (Raw.normalizeState w)) x y =
     (λ o : option Raw.Item,
        i ← o; Raw.mkItem <$> Raw.normalizeItemType (Raw.item_type i))
       <$> gridGet (Raw.items w) x y) ∧
  (∀ w x y,
     Raw.terrain <$> gridGet (Raw.tiles (Raw.normalizeState w)) x y =
     (λ t, if decide (Raw.terrain t = "ore"%string) then "iron"%string
           else Raw.terrain t)
       <$> gridGet (Raw.tiles w) x y) ∧
  (∀ w (m : gmap string Z),
     m = default ∅ (Raw.stats w) →
     ∃ st,
       Raw.stats (Raw.normalizeState w) = Some st ∧
       st !! "ironMined"%string =
         Some match m !! "ironMined"%string with
              | Some v => v
              | None => default 0 (m !! "oreMined"%string)
              end ∧
       st !! "ironPlates"%string =
         Some match m !! "ironPlates"%string with
              | Some v => v
              | None => default 0 (m !! "platesSmelted"%string)
              end ∧
       st !! "copperMined"%string = Some (default 0 (m !! "copperMined"%string)) ∧
       st !! "copperPlates"%string = Some (default 0 (m !! "copperPlates"%string)) ∧
       st !! "gearsCrafted"%string = Some (default 0 (m !! "gearsCrafted"%string)) ∧
       st !! "wiresCrafted"%string = Some (default 0 (m !! "wiresCrafted"%string)) ∧
       ∀ k : string,
         k ∉ ["ironMined"; "copperMined"; "ironPlates"; "copperPlates";
              "gearsCrafted"; "wiresCrafted"]%string →
         st !! k = None).
Proof.
  split; [|split; [|split]].
  - split_and!; [reflexivity..| |].
    + intros ty Hty. rewrite !elem_of_cons, elem_of_nil in Hty.
      destruct Hty as [->|[->|[->|[->|[->|[]]]]]]; reflexivity.
    + intros ty Hty. unfold Raw.normalizeItemType.
      rewrite !not_elem_of_cons in Hty.
      destruct Hty as (? & ? & ? & ? & ? & ? & ? & ? & _).
      repeat case_decide; try done.
      match goal with
      | H : ty ∈ _ |- _ => rewrite !elem_of_cons, elem_of_nil in H
      end.
      intuition.
  - intros w x y. simpl. rewrite gridGet_map.
    by destruct (gridGet (Raw.items w) x y) as [[[ty]|]|].
  - intros w x y. simpl. rewrite gridGet_map.
    by destruct (gridGet (Raw.tiles w) x y).
  - intros w m ->. eexists. split; [reflexivity|].
    assert (∀ k : string, Raw.statOf (Raw.stats w) k = default ∅ (Raw.stats w) !! k)
      as Hread.
    { intros k. unfold Raw.statOf. by destruct (Raw.stats w). }
    unfold Raw.normalizeStats, Raw.nullish. rewrite !Hread.
    split_and!.
    1-6: look;
      repeat match goal with |- context [default ∅ ?a !! ?b] =>
               destruct (default ∅ a !! b) end; done.
    intros k Hk. rewrite !not_elem_of_cons in Hk.
    destruct Hk as (? & ? & ? & ? & ? & ? & _).
    rewrite !lookup_insert. repeat case_decide; done.
Qed.

Lemma normalize_legacy_witness :
  Raw.normalizeItemType "coal" = None ∧
  Raw.normalizeItemType "wire" = Some "wire"%string ∧
  ∃ st,
    Raw.stats (Raw.normalizeState legacyStats) = Some st ∧
    st !! "ironMined"%string = Some 7 ∧
    st !! "ironPlates"%string = Some 5 ∧
    st !! "copperMined"%string = Some 0 ∧
    st !! "platesSmelted"%string = None.
Proof.
  split_and!.
  - apply (proj2 (proj2 (proj2 (proj2 (proj1 normalize_legacy))))).
    rewrite !not_elem_of_cons. split_and!; try discriminate.
    apply not_elem_of_nil.
  - apply (proj1 (proj2 (proj2 (proj2 (proj1 normalize_legacy))))).
    rewrite !elem_of_cons. tauto.
  - destruct (proj2 (proj2 (proj2 normalize_legacy)) legacyStats _ eq_refl)
      as (st & Hst & Hfe & Hpl & Hcu & _ & _ & _ & Hnone).
    exists st. split_and!; try done.
    apply Hnone. rewrite !not_elem_of_cons. split_and!; try discriminate.
    apply not_elem_of_nil.
Defined.

(** ** Processors and hubs: what a turn produces *)

(** X22.  An assembler that holds two iron plates adds one to its
    progress; below eight, or with its outlet blocked, it does nothing
    else; from eight on, with the outlet free, it puts a gear there,
    gives up two plates, resets its progress and counts one gear. *)
Theorem assembler_crafts s x y t b nx ny :
  wf s → tileAt s x y = Some t → building t = Some b → type b = Assembler →
  2 ≤ bufGet (buffer b) IronPlate →
  stepInDir x y (dir b) = (nx, ny) →
  (progress b + 1 < ASSEMBLER_TICKS ∨ canPlaceItem s nx ny = Some false →
   produceAt x y s =
     Some (putBuilding x y
             (mkBuilding Assembler (dir b) (progress b + 1) (buffer b)) s)) ∧
  (ASSEMBLER_TICKS ≤ progress b + 1 → canPlaceItem s nx ny = Some true →
   ∃ s', produceAt x y s = Some s' ∧
         items s' = gridAlter (λ _, Some (mkItem Gear)) (items s) nx ny ∧
         tileAt s' x y =
           Some (mkTile (terrain t) (resource t)
                   (Some (mkBuilding Assembler (dir b) 0
                            (mkBuffer (iron_ore (buffer b)) (copper_ore (buffer b))
                               (iron_plate (buffer b) - 2) (copper_plate (buffer b))
                               (gear (buffer b)) (wire (buffer b)))))) ∧
         stats s' =
           mkStats (ironMined (stats s)) (copperMined (stats s))
             (ironPlates (stats s)) (copperPlates (stats s))
             (gearsCrafted (stats s) + 1) (wiresCrafted (stats s)) ∧
         inventory s' = inventory s).
Proof.
  intros Hwf Ht Hb Hty Hfull Hdir.
  pose proof (stepInDir_ne _ _ _ _ _ Hdir) as Hne.
  destruct b as [ty d p [fe cu ip cp ge wi]]. simpl in *. subst ty.
  unfold produceAt. rewrite Ht. simpl. rewrite Hb. simpl.
  unfold assemblerTick, assemblerIntake. simpl.
  destruct (Z.ltb_spec ip 2); [lia|]. simpl.
  unfold assemblerOutput. simpl.
  destruct (Z.leb_spec 2 ip); [|lia].
  rewrite Hdir. rewrite canPlaceItem_putBuilding by done.
  split.
  - intros [Hlt|Hblocked].
    + destruct (Z.leb_spec ASSEMBLER_TICKS (p + 1)); [lia|done].
    + rewrite Hblocked. simpl. by destruct (_ <=? _).
  - intros Hge Hfree.
    destruct (Z.leb_spec ASSEMBLER_TICKS (p + 1)); [|lia].
    rewrite Hfree. simpl.
    apply canPlaceItem_true in Hfree as (Hin & _ & _); [|done].
    rewrite setItemAt_in by (done || by apply wf_putBuilding). simpl.
    eexists; split; [reflexivity|].
    unfold tileAt in *. st_simpl. split_and!; try done.
    rewrite !gridGet_alter_eq, Ht. simpl.
    unfold setBuilding, setProgress, setBuffer. by simpl.
Qed.

(** X23.  A furnace that holds an ore adds one to its progress; below
    six, or with its outlet blocked, it does nothing else; from six on,
    with the outlet free, it puts the plate of that ore there, gives up
    the ore, resets its progress and counts one plate.  Iron ore goes
    first. *)
Theorem furnace_smelts s x y t b nx ny ore :
  wf s → tileAt s x y = Some t → building t = Some b → type b = Furnace →
  0 < bufGet (buffer b) ore →
  ore = IronOre ∨ (ore = CopperOre ∧ bufGet (buffer b) IronOre ≤ 0) →
  stepInDir x y (dir b) = (nx, ny) →
  (progress b + 1 < FURNACE_TICKS ∨ canPlaceItem s nx ny = Some false →
   produceAt x y s =
     Some (putBuilding x y
             (mkBuilding Furnace (dir b) (progress b + 1) (buffer b)) s)) ∧
  (FURNACE_TICKS ≤ progress b + 1 → canPlaceItem s nx ny = Some true →
   ∃ s', produceAt x y s = Some s' ∧
         items s' =
           gridAlter (λ _, Some (mkItem (if decide (ore = IronOre) then IronPlate
                                         else CopperPlate))) (items s) nx ny ∧
         tileAt s' x y =
           Some (mkTile (terrain t) (resource t)
                   (Some (mkBuilding Furnace (dir b) 0
                            (if decide (ore = IronOre)
                             then mkBuffer (iron_ore (buffer b) - 1) (copper_ore (buffer b))
                                    (iron_plate (buffer b)) (copper_plate (buffer b))
                                    (gear (buffer b)) (wire (buffer b))
                             else mkBuffer (iron_ore (buffer b)) (copper_ore (buffer b) - 1)
                                    (iron_plate (buffer b)) (copper_plate (buffer b))
                                    (gear (buffer b)) (wire (buffer b)))))) ∧
         stats s' =
           (if decide (ore = IronOre)
            then mkStats (ironMined (stats s)) (copperMined (stats s))
                   (ironPlates (stats s) + 1) (copperPlates (stats s))
                   (gearsCrafted (stats s)) (wiresCrafted (stats s))
            else mkStats (ironMined (stats s)) (copperMined (stats s))
                   (ironPlates (stats s)) (copperPlates (stats s) + 1)
                   (gearsCrafted (stats s)) (wiresCrafted (stats s))) ∧
         inventory s' = inventory s).
Proof.
  intros Hwf Ht Hb Hty Hhas Hore Hdir.
  pose proof (stepInDir_ne _ _ _ _ _ Hdir) as Hne.
  destruct b as [ty d p [fe cu ip cp ge wi]]. simpl in *. subst ty.
  unfold produceAt. rewrite Ht. simpl. rewrite Hb. simpl.
  unfold furnaceTick, furnaceIntake. simpl.
  assert ((fe =? 0) && (cu =? 0) = false) as ->.
  { destruct Hore as [->|[-> ?]]; simpl in Hhas;
      destruct (Z.eqb_spec fe 0), (Z.eqb_spec cu 0); simpl; first [done|lia]. }
  simpl. unfold furnaceOutput. simpl.
  assert ((if 0 <? fe then Some IronOre
           else if 0 <? cu then Some CopperOre else None) = Some ore) as ->.
  { destruct Hore as [->|[-> ?]]; simpl in Hhas;
      destruct (Z.ltb_spec 0 fe), (Z.ltb_spec 0 cu); simpl; first [done|lia]. }
  rewrite Hdir. rewrite canPlaceItem_putBuilding by done.
  split.
  - intros [Hlt|Hblocked].
    + destruct (Z.leb_spec FURNACE_TICKS (p + 1)); [lia|done].
    + rewrite Hblocked. simpl. by destruct (_ <=? _).
  - intros Hge Hfree.
    destruct (Z.leb_spec FURNACE_TICKS (p + 1)); [|lia].
    rewrite Hfree. simpl.
    apply canPlaceItem_true in Hfree as (Hin & _ & _); [|done].
    rewrite setItemAt_in by (done || by apply wf_putBuilding). simpl.
    destruct Hore as [->|[-> _]]; simpl;
      (eexists; split; [reflexivity|]);
      unfold tileAt in *; st_simpl; (split_and!; try done);
      rewrite !gridGet_alter_eq, Ht; simpl;
      unfold setBuilding, setProgress, setBuffer; by simpl.
Qed.

(** X24.  A wire mill that holds a copper plate adds one to its
    progress; below five, or with its outlet blocked, it does nothing
    else; from five on, with the outlet free, it puts a wire there,
    gives up the plate, resets its progress and counts one wire. *)
Theorem wire_mill_draws s x y t b nx ny :
  wf s → tileAt s x y = Some t → building t = Some b → type b = WireMill →
  1 ≤ bufGet (buffer b) CopperPlate →
  stepInDir x y (dir b) = (nx, ny) →
  (progress b + 1 < WIRE_MILL_TICKS ∨ canPlaceItem s nx ny = Some false →
   produceAt x y s =
     Some (putBuilding x y
             (mkBuilding WireMill (dir b) (progress b + 1) (buffer b)) s)) ∧
  (WIRE_MILL_TICKS ≤ progress b + 1 → canPlaceItem s nx ny = Some true →
   ∃ s', produceAt x y s = Some s' ∧
         items s' = gridAlter (λ _, Some (mkItem Wire)) (items s) nx ny ∧
         tileAt s' x y =
           Some (mkTile (terrain t) (resource t)
                   (Some (mkBuilding WireMill (dir b) 0
                            (mkBuffer (iron_ore (buffer b)) (copper_ore (buffer b))
                               (iron_plate (buffer b)) (copper_plate (buffer b) - 1)
                               (gear (buffer b)) (wire (buffer b)))))) ∧
         stats s' =
           mkStats (ironMined (stats s)) (copperMined (stats s))
             (ironPlates (stats s)) (copperPlates (stats s))
             (gearsCrafted (stats s)) (wiresCrafted (stats s) + 1) ∧
         inventory s' = inventory s).
Proof.
  intros Hwf Ht Hb Hty Hfull Hdir.
  pose proof (stepInDir_ne _ _ _ _ _ Hdir) as Hne.
  destruct b as [ty d p [fe cu ip cp ge wi]]. simpl in *. subst ty.
  unfold produceAt. rewrite Ht. simpl. rewrite Hb. simpl.
  unfold wireMillTick, wireMillIntake. simpl.
  destruct (Z.ltb_spec cp 1); [lia|]. simpl.
  unfold wireMillOutput. simpl.
  destruct (Z.leb_spec 1 cp); [|lia].
  rewrite Hdir. rewrite canPlaceItem_putBuilding by done.
  split.
  - intros [Hlt|Hblocked].
    + destruct (Z.leb_spec WIRE_MILL_TICKS (p + 1)); [lia|done].
    + rewrite Hblocked. simpl. by destruct (_ <=? _).
  - intros Hge Hfree.
    destruct (Z.leb_spec WIRE_MILL_TICKS (p + 1)); [|lia].
    rewrite Hfree. simpl.
    apply canPlaceItem_true in Hfree as (Hin & _ & _); [|done].
    rewrite setItemAt_in by (done || by apply wf_putBuilding). simpl.
    eexists; split; [reflexivity|].
    unfold tileAt in *. st_simpl. split_and!; try done.
    rewrite !gridGet_alter_eq, Ht. simpl.
    unfold setBuilding, setProgress, setBuffer. by simpl.
Qed.

(** X25.  A hub takes at most one item per tick, from the first of the
    tiles above, right, below and left that holds one: the item leaves
    the ground and the inventory count of its kind goes up by one; with
    no item around the hub changes nothing. *)
Theorem hub_collects s x y t b :
  wf s → tileAt s x y = Some t → building t = Some b → type b = Hub →
  (produceAt x y s = Some s ∧
   ∀ d, d ∈ DIRECTIONS → ¬ neighborHit (λ _, true) s x y d) ∨
  (∃ pre d post i s',
     DIRECTIONS = pre ++ d :: post ∧
     (∀ d', d' ∈ pre → ¬ neighborHit (λ _, true) s x y d') ∧
     gridGet (items s) (stepInDir x y d).1 (stepInDir x y d).2 = Some (Some i) ∧
     produceAt x y s = Some s' ∧
     items s' = gridAlter (λ _, None) (items s)
                  (stepInDir x y d).1 (stepInDir x y d).2 ∧
     (∀ k, bufGet (inventory s') k =
           bufGet (inventory s) k + (if decide (k = item_type i) then 1 else 0)) ∧
     tiles s' = tiles s ∧ stats s' = stats s).
Proof.
  intros Hwf Ht Hb Hty.
  unfold produceAt. rewrite Ht. simpl. rewrite Hb, Hty.
  unfold hubTick, findNeighborItemAny.
  destruct (findNeighborWith_spec (λ _, true) s x y DIRECTIONS Hwf)
    as [[Hrun Hnone] | (pre & d & post & Heq & Hrun & (i & Hin & Hi & _) & Hpre)];
    rewrite Hrun; simpl.
  - by left.
  - right. exists pre, d, post, i.
    destruct (stepInDir x y d) as [nx ny]. simpl in *.
    rewrite itemAt_in, Hi by done. simpl.
    rewrite setItemAt_in by done.
    eexists. split_and!; try done.
    intros k. unfold creditInventory, withInventory, putItem, withItems.
    cbn [inventory]. rewrite bufGet_add. destruct (decide (k = item_type i)); lia.
Qed.

(** ** Further instances *)

Lemma assembler_crafts_witness :
  ∃ s', produceAt 0 0 assemblerWorld = Some s' ∧
        items s' = gridAlter (λ _, Some (mkItem Gear)) (items assemblerWorld) 1 0 ∧
        tileAt s' 0 0 =
          Some (mkTile TEmpty 0
                  (Some (mkBuilding Assembler Right 0 (mkBuffer 0 0 0 0 0 0)))) ∧
        stats s' = mkStats 0 0 0 0 1 0 ∧
        inventory s' = inventory assemblerWorld.
Proof.
  apply (proj2 (assembler_crafts assemblerWorld 0 0
                  (mkTile TEmpty 0 (Some (mkBuilding Assembler Right 7 (mkBuffer 0 0 2 0 0 0))))
                  (mkBuilding Assembler Right 7 (mkBuffer 0 0 2 0 0 0)) 1 0
                  ltac:(wf_tac) eq_refl eq_refl eq_refl ltac:(simpl; lia) eq_refl)).
  - simpl. unfold ASSEMBLER_TICKS. lia.
  - reflexivity.
Defined.

Lemma furnace_smelts_witness :
  ∃ s', produceAt 0 0 smeltWorld = Some s' ∧
        items s' = gridAlter (λ _, Some (mkItem IronPlate)) (items smeltWorld) 1 0 ∧
        tileAt s' 0 0 =
          Some (mkTile TEmpty 0
                  (Some (mkBuilding Furnace Right 0 (mkBuffer 0 0 0 0 0 0)))) ∧
        stats s' = mkStats 0 0 1 0 0 0 ∧
        inventory s' = inventory smeltWorld.
Proof.
  apply (proj2 (furnace_smelts smeltWorld 0 0
                  (mkTile TEmpty 0 (Some (mkBuilding Furnace Right 5 (mkBuffer 1 0 0 0 0 0))))
                  (mkBuilding Furnace Right 5 (mkBuffer 1 0 0 0 0 0)) 1 0 IronOre
                  ltac:(wf_tac) eq_refl eq_refl eq_refl ltac:(simpl; lia)
                  ltac:(by left) eq_refl)).
  - simpl. unfold FURNACE_TICKS. lia.
  - reflexivity.
Defined.

Lemma wire_mill_draws_witness :
  ∃ s', produceAt 0 0 millWorld = Some s' ∧
        items s' = gridAlter (λ _, Some (mkItem Wire)) (items millWorld) 1 0 ∧
        tileAt s' 0 0 =
          Some (mkTile TEmpty 0
                  (Some (mkBuilding WireMill Right 0 (mkBuffer 0 0 0 0 0 0)))) ∧
        stats s' = mkStats 0 0 0 0 0 1 ∧
        inventory s' = inventory millWorld.
Proof.
  apply (proj2 (wire_mill_draws millWorld 0 0
                  (mkTile TEmpty 0 (Some (mkBuilding WireMill Right 4 (mkBuffer 0 0 0 1 0 0))))
                  (mkBuilding WireMill Right 4 (mkBuffer 0 0 0 1 0 0)) 1 0
                  ltac:(wf_tac) eq_refl eq_refl eq_refl ltac:(simpl; lia) eq_refl)).
  - simpl. unfold WIRE_MILL_TICKS. lia.
  - reflexivity.
Defined.

Lemma hub_collects_witness :
  ∃ s', produceAt 0 0 hubWorld = Some s' ∧
        items s' = gridAlter (λ _, None) (items hubWorld) 1 0 ∧
        bufGet (inventory s') Gear = bufGet (inventory hubWorld) Gear + 1 ∧
        bufGet (inventory s') Wire = bufGet (inventory hubWorld) Wire + 0 ∧
        tiles s' = tiles hubWorld ∧ stats s' = stats hubWorld.
Proof.
  destruct (hub_collects hubWorld 0 0
              (mkTile TEmpty 0 (Some (mkBuilding Hub Up 0 createBuffer)))
              (mkBuilding Hub Up 0 createBuffer) ltac:(wf_tac) eq_refl eq_refl eq_refl)
    as [[Hrun _]|(pre & d & post & i & s' & _ & _ & Hi & Hrun & Hitems & Hinv & Htiles & Hst)].
  - vm_compute in Hrun. discriminate.
  - destruct d; vm_compute in Hi; try discriminate. injection Hi as <-.
    exists s'. split_and!; [done|exact Hitems|apply (Hinv Gear)|apply (Hinv Wire)|done|done].
Defined.
